(** * RandomTransactionInserter (util/transaction_test_util.cc)

    A shallow embedding of the randomized transaction workload generator
    and of its invariant verifier, with the theorems that settle what the
    specification says about them. *)

From Stdlib Require Import NArith ZArith List String Ascii Bool Lia Permutation.
From Stdlib Require Import Decimal DecimalString DecimalN Finite Sorted QArith.
Import ListNotations.

Local Open Scope string_scope.
Local Open Scope list_scope.
Local Open Scope N_scope.

(* ===================================================================== *)
(** * Text and integers: [ToString], [std::stoull], [snprintf("%.4u")] *)
(* ===================================================================== *)

Module Codec.

(** [ToString(uint64_t)]: the decimal digits, most significant first, no
    leading zero, ["0"] for zero. *)
Definition ToString (n : N) : string :=
  NilZero.string_of_uint (N.to_uint n).

(** [ULONG_MAX] on the LP64 targets the harness is built for. *)
Definition ULONG_MAX : N := 2 ^ 64 - 1.

(** Arithmetic on [uint64_t] wraps around. *)
Definition u64 (n : N) : N := n mod 2 ^ 64.
Definition add64 (a b : N) : N := u64 (a + b).

(** What [std::stoull] throws. *)
Inductive exn : Type :=
| invalid_argument
| out_of_range.

Definition isspace (c : ascii) : bool :=
  let n := N_of_ascii c in
  (n =? 32) || ((9 <=? n) && (n <=? 13)).

Fixpoint skip_space (s : string) : string :=
  match s with
  | String c r => if isspace c then skip_space r else s
  | EmptyString => s
  end.

Definition digit_of (c : ascii) : option (uint -> uint) :=
  match N_of_ascii c with
  | 48 => Some D0 | 49 => Some D1 | 50 => Some D2 | 51 => Some D3
  | 52 => Some D4 | 53 => Some D5 | 54 => Some D6 | 55 => Some D7
  | 56 => Some D8 | 57 => Some D9
  | _ => None
  end.

(** The longest run of decimal digits at the head of [s]; what follows it
    is ignored by [strtoull]. *)
Fixpoint digit_prefix (s : string) : uint :=
  match s with
  | String c r =>
      match digit_of c with
      | Some d => d (digit_prefix r)
      | None => Nil
      end
  | EmptyString => Nil
  end.

Definition is_Nil (d : uint) : bool :=
  match d with Nil => true | _ => false end.

(** [std::stoull(s)], base 10: leading white space and one optional sign
    are skipped, the digits that follow are converted; no digit at all is
    [invalid_argument], a magnitude above [ULLONG_MAX] is [out_of_range],
    and a minus sign negates in [unsigned long long]. *)
Definition stoull (s : string) : exn + N :=
  let s1 := skip_space s in
  let '(neg, s2) :=
    match s1 with
    | String "-" r => (true, r)
    | String "+" r => (false, r)
    | _ => (false, s1)
    end in
  let d := digit_prefix s2 in
  if is_Nil d then inl invalid_argument
  else
    let v := N.of_uint d in
    if ULONG_MAX <? v then inl out_of_range
    else inr (if neg then u64 (2 ^ 64 - v) else v).

Fixpoint zeros (k : nat) : string :=
  match k with
  | O => ""
  | S k' => String "0" (zeros k')
  end.

(** The conversion ["%.4u"]: at least four digits, zeros on the left. *)
Definition fmt_p4u (n : N) : string :=
  let d := ToString n in
  (zeros (4 - String.length d) ++ d)%string.

(** [snprintf(buf, size, "%.4u", n)] leaves at most [size - 1] characters
    in [buf] before the terminating NUL. *)
Definition snprintf_p4u (size : nat) (n : N) : string :=
  substring 0 (size - 1) (fmt_p4u n).

(** [char prefix_buf[6]; snprintf(prefix_buf, sizeof(prefix_buf), "%.4u",
    set_i + 1)]. *)
Definition prefix_buf (set_i : N) : string :=
  snprintf_p4u 6 (set_i + 1).

(** The key format [[SET#][random#]] of [DBGet]:
    [*full_key = std::string(prefix_buf) + base_key.ToString()]. *)
Definition full_key (set_i ikey : N) : string :=
  (prefix_buf set_i ++ ToString ikey)%string.

(** [Slice(prefix_buf, 4)], the seek target of [Verify]. *)
Definition seek_target (set_i : N) : string :=
  substring 0 4 (prefix_buf set_i).

(** [key.ToString().compare(0, 4, prefix_buf) != 0] is the negation of
    this test. *)
Definition has_prefix (set_i : N) (key : string) : bool :=
  String.eqb (substring 0 4 key) (prefix_buf set_i).

(** The set prefix as the specification words it: four decimal digits. *)
Definition digit_char (d : N) : ascii := ascii_of_N (48 + d).

Definition zero_pad4 (n : N) : string :=
  String (digit_char (n / 1000 mod 10))
    (String (digit_char (n / 100 mod 10))
       (String (digit_char (n / 10 mod 10))
          (String (digit_char (n mod 10)) ""))).

(** Reading the set back from the first four characters of a key. *)
Definition set_of_key (key : string) : option N :=
  match stoull (substring 0 4 key) with
  | inr n => if n =? 0 then None else Some (n - 1)
  | inl _ => None
  end.

End Codec.

Import Codec.

(* ===================================================================== *)
(** * Facts about the codec *)
(* ===================================================================== *)

Section CodecFacts.

Lemma digit_prefix_string_of_uint (d : uint) :
  digit_prefix (NilEmpty.string_of_uint d) = d.
Proof.
  induction d; simpl; try reflexivity; unfold digit_of; simpl;
    now rewrite IHd.
Qed.

Lemma string_of_uint_head (d : uint) :
  d <> Nil ->
  exists c r, NilEmpty.string_of_uint d = String c r /\
              isspace c = false /\ c <> "-"%char /\ c <> "+"%char.
Proof.
  destruct d; intros H; try congruence; simpl;
    eexists; eexists; (split; [reflexivity|]);
    (split; [reflexivity|split; discriminate]).
Qed.

Lemma to_uint_not_nil (n : N) : N.to_uint n <> Nil.
Proof.
  intro H. pose proof (DecimalN.Unsigned.to_of (N.to_uint n)) as E.
  rewrite DecimalN.Unsigned.of_to in E. rewrite H in E at 2.
  simpl in E. rewrite H in E. discriminate.
Qed.

Lemma ToString_unfold (n : N) :
  ToString n = NilEmpty.string_of_uint (N.to_uint n).
Proof.
  unfold ToString, NilZero.string_of_uint.
  destruct (N.to_uint n) eqn:E; try reflexivity.
  now apply to_uint_not_nil in E.
Qed.

(** Every [uint64_t] written with [ToString] is read back by [stoull]. *)
Lemma stoull_ToString (n : N) :
  n <= ULONG_MAX -> stoull (ToString n) = inr n.
Proof.
  intros Hn. rewrite ToString_unfold.
  destruct (string_of_uint_head _ (to_uint_not_nil n)) as (c & r & E & Hs & Hm & Hp).
  unfold stoull.
  assert (Hskip : skip_space (NilEmpty.string_of_uint (N.to_uint n))
                  = NilEmpty.string_of_uint (N.to_uint n)).
  { rewrite E. simpl. now rewrite Hs. }
  rewrite Hskip.
  assert (Hsign :
    match NilEmpty.string_of_uint (N.to_uint n) with
    | String "-" r0 => (true, r0)
    | String "+" r0 => (false, r0)
    | _ => (false, NilEmpty.string_of_uint (N.to_uint n))
    end = (false, NilEmpty.string_of_uint (N.to_uint n))).
  { rewrite E.
    destruct c as [[] [] [] [] [] [] [] []]; try reflexivity; congruence. }
  rewrite Hsign. cbv zeta. rewrite digit_prefix_string_of_uint.
  rewrite DecimalN.Unsigned.of_to.
  assert (Hnil : is_Nil (N.to_uint n) = false).
  { destruct (N.to_uint n) eqn:En; [now apply to_uint_not_nil in En|..];
      reflexivity. }
  rewrite Hnil.
  destruct (ULONG_MAX <? n) eqn:L; [apply N.ltb_lt in L; lia|reflexivity].
Qed.

Lemma ToString_inj (a b : N) : ToString a = ToString b -> a = b.
Proof.
  rewrite !ToString_unfold. intros H.
  apply DecimalN.Unsigned.to_uint_inj.
  rewrite <- (digit_prefix_string_of_uint (N.to_uint a)).
  rewrite <- (digit_prefix_string_of_uint (N.to_uint b)).
  now rewrite H.
Qed.

End CodecFacts.

(* ===================================================================== *)
(** * The key space: set prefixes *)
(* ===================================================================== *)

Section KeySpace.

Definition upto (n : nat) : list N := map N.of_nat (seq 0 n).

Lemma upto_In (n : nat) (k : N) : k < N.of_nat n -> In k (upto n).
Proof.
  intros H. unfold upto. apply in_map_iff. exists (N.to_nat k). split.
  - apply N2Nat.id.
  - apply in_seq. lia.
Qed.

(** On the sets the assertion of [DBGet] admits, ["%.4u"] prints exactly
    the four digits of [set_i + 1], and [stoull] reads them back. *)
Definition prefix_ok (set_i : N) : bool :=
  String.eqb (prefix_buf set_i) (zero_pad4 (set_i + 1)) &&
  match stoull (zero_pad4 (set_i + 1)) with
  | inr n => n =? set_i + 1
  | inl _ => false
  end.

Definition max_sets : nat := Nat.of_num_uint 9999%uint.

Lemma prefix_ok_all : forallb prefix_ok (upto max_sets) = true.
Proof. vm_compute. reflexivity. Qed.

Lemma prefix_ok_each (set_i : N) : set_i < 9999 -> prefix_ok set_i = true.
Proof.
  intros H. pose proof prefix_ok_all as A.
  rewrite forallb_forall in A. apply A, upto_In.
  replace (N.of_nat max_sets) with 9999 by (vm_compute; reflexivity).
  exact H.
Qed.

Lemma prefix_buf_zero_pad4 (set_i : N) :
  set_i < 9999 -> prefix_buf set_i = zero_pad4 (set_i + 1).
Proof.
  intros H. pose proof (prefix_ok_each set_i H) as A.
  unfold prefix_ok in A. apply andb_prop in A. destruct A as [A _].
  now apply String.eqb_eq.
Qed.

Lemma stoull_zero_pad4 (set_i : N) :
  set_i < 9999 -> stoull (zero_pad4 (set_i + 1)) = inr (set_i + 1).
Proof.
  intros H. pose proof (prefix_ok_each set_i H) as A.
  unfold prefix_ok in A. apply andb_prop in A. destruct A as [_ A].
  destruct (stoull (zero_pad4 (set_i + 1))); [discriminate|].
  apply N.eqb_eq in A. now subst.
Qed.

Lemma substring_zero_pad4 (n : N) (r : string) :
  substring 0 4 (zero_pad4 n ++ r) = zero_pad4 n.
Proof. unfold zero_pad4. simpl. now destruct r. Qed.

Lemma zero_pad4_inj (a b : N) :
  a < 9999 -> b < 9999 -> zero_pad4 (a + 1) = zero_pad4 (b + 1) -> a = b.
Proof.
  intros Ha Hb E.
  pose proof (stoull_zero_pad4 a Ha) as A. pose proof (stoull_zero_pad4 b Hb) as B.
  rewrite E in A. rewrite A in B. injection B. lia.
Qed.

Lemma substring_full_key (set_i ikey : N) :
  set_i < 9999 -> substring 0 4 (full_key set_i ikey) = prefix_buf set_i.
Proof.
  intros H. unfold full_key. rewrite (prefix_buf_zero_pad4 _ H).
  apply substring_zero_pad4.
Qed.

Lemma seek_target_prefix_buf (set_i : N) :
  set_i < 9999 -> seek_target set_i = prefix_buf set_i.
Proof.
  intros H. unfold seek_target. rewrite (prefix_buf_zero_pad4 _ H).
  reflexivity.
Qed.

Lemma has_prefix_full_key (s t k : N) :
  s < 9999 -> t < 9999 -> has_prefix s (full_key t k) = (s =? t).
Proof.
  intros Hs Ht. unfold has_prefix. rewrite (substring_full_key _ k Ht).
  destruct (N.eqb_spec s t) as [->|Hne].
  - apply String.eqb_refl.
  - apply String.eqb_neq. intros E. apply Hne.
    rewrite (prefix_buf_zero_pad4 _ Hs), (prefix_buf_zero_pad4 _ Ht) in E.
    symmetry. now apply zero_pad4_inj.
Qed.

Lemma full_key_inj (s t k l : N) :
  s < 9999 -> t < 9999 -> full_key s k = full_key t l -> s = t /\ k = l.
Proof.
  intros Hs Ht E.
  assert (P : prefix_buf s = prefix_buf t).
  { rewrite <- (substring_full_key _ k Hs), <- (substring_full_key _ l Ht).
    now rewrite E. }
  assert (s = t).
  { rewrite (prefix_buf_zero_pad4 _ Hs), (prefix_buf_zero_pad4 _ Ht) in P.
    now apply zero_pad4_inj. }
  subst t. split; [reflexivity|].
  unfold full_key in E. rewrite (prefix_buf_zero_pad4 _ Hs) in E.
  simpl in E. injection E. apply ToString_inj.
Qed.

End KeySpace.

(** C7. For every set in [0, 9999) and every key, the physical key is the
    four-digit zero-padded decimal of [set + 1] followed by the decimal of
    the key; its first four characters are the set's prefix and give the
    set back; keys of different sets are different. *)
Theorem key_encoding_recovers_set (set_i ikey : N) :
  set_i < 9999 ->
  full_key set_i ikey = (zero_pad4 (set_i + 1) ++ ToString ikey)%string /\
  substring 0 4 (full_key set_i ikey) = zero_pad4 (set_i + 1) /\
  set_of_key (full_key set_i ikey) = Some set_i /\
  (forall set_j jkey, set_j < 9999 -> set_i <> set_j ->
     full_key set_i ikey <> full_key set_j jkey).
Proof.
  intros H. repeat split.
  - unfold full_key. now rewrite (prefix_buf_zero_pad4 _ H).
  - rewrite (substring_full_key _ ikey H). now apply prefix_buf_zero_pad4.
  - unfold set_of_key. rewrite (substring_full_key _ ikey H).
    rewrite (prefix_buf_zero_pad4 _ H), (stoull_zero_pad4 _ H).
    destruct (N.eqb_spec (set_i + 1) 0); [lia|]. f_equal. lia.
  - intros set_j jkey Hj Hne E. apply Hne.
    now destruct (full_key_inj _ _ ikey jkey H Hj E).
Qed.

Lemma key_encoding_recovers_set_witness :
  full_key 41 7 = "00427" /\
  set_of_key (full_key 41 7) = Some 41.
Proof.
  destruct (key_encoding_recovers_set 41 7 ltac:(reflexivity)) as (A & _ & C & _).
  split; [rewrite A; reflexivity | exact C].
Defined.

(* ===================================================================== *)
(** * Status *)
(* ===================================================================== *)

Module Status.

(** Modelled from the spec: [rocksdb::Status] (include/rocksdb/status.h is
    not part of the sources at hand): a code and an optional message,
    empty when the status was built without one, as [Status::Corruption()]
    and [Status::OK()] are. *)
Inductive Code : Type :=
| kOk | kNotFound | kCorruption | kNotSupported | kInvalidArgument
| kIOError | kMergeInProgress | kIncomplete | kShutdownInProgress
| kTimedOut | kAborted | kBusy | kExpired | kTryAgain.

Record t : Type := mk { code : Code; state : string }.

Definition OK : t := mk kOk "".
Definition Corruption : t := mk kCorruption "".

Definition is_code (c : Code) (s : t) : bool :=
  match c, code s with
  | kOk, kOk | kNotFound, kNotFound | kCorruption, kCorruption
  | kNotSupported, kNotSupported | kInvalidArgument, kInvalidArgument
  | kIOError, kIOError | kMergeInProgress, kMergeInProgress
  | kIncomplete, kIncomplete | kShutdownInProgress, kShutdownInProgress
  | kTimedOut, kTimedOut | kAborted, kAborted | kBusy, kBusy
  | kExpired, kExpired | kTryAgain, kTryAgain => true
  | _, _ => false
  end.

Definition ok : t -> bool := is_code kOk.
Definition IsNotFound : t -> bool := is_code kNotFound.
Definition IsCorruption : t -> bool := is_code kCorruption.
Definition IsBusy : t -> bool := is_code kBusy.
Definition IsTimedOut : t -> bool := is_code kTimedOut.
Definition IsTryAgain : t -> bool := is_code kTryAgain.
Definition IsExpired : t -> bool := is_code kExpired.

End Status.

Abbreviation Status := Status.t.
Import Status(ok, IsNotFound, IsCorruption, IsBusy, IsTimedOut, IsTryAgain,
              IsExpired).

(* ===================================================================== *)
(** * The storage backend *)
(* ===================================================================== *)

Module Store.

(** Modelled from the spec: the storage engine under test (DB,
    Transaction, TOTransaction, Iterator and Snapshot are not part of the
    sources at hand).  It is the contract of section 4.2 for a store that
    one thread drives: committed pairs kept in bytewise key order, the
    write batch of the open transaction, read-your-own-writes, atomic
    commit, and operations that can be made to fail with a scripted
    status, which leaves the store as it was. *)
Definition Table : Type := list (string * string).

Inductive WriteOp : Type :=
| WPut (cf : option nat) (key value : string)
| WDelete (cf : option nat) (key : string).

(** The operations of the capability set. *)
Inductive Op : Type :=
| OpGet (for_update : bool) (cf : option nat) (key : string)
| OpPut (cf : option nat) (key value : string)
| OpDelete (cf : option nat) (key : string)
| OpPrepare
| OpCommit
| OpRollback
| OpWrite (batch : list WriteOp)
| OpSetCommitTimeStamp (ts : N)
| OpSetReadTimeStamp (ts : N).

(** The statuses the store has been told to answer with, one queue per
    operation; an exhausted queue, [OK] and [NotFound] mean that the
    operation is carried out. *)
Record Faults : Type := mkFaults {
  f_get : list Status;
  f_put : list Status;
  f_delete : list Status;
  f_prepare : list Status;
  f_commit : list Status;
  f_rollback : list Status;
  f_write : list Status;
  f_timestamp : list Status
}.

Definition no_faults : Faults := mkFaults [] [] [] [] [] [] [] [].

Record DB : Type := mkDB {
  table : Table;                 (* default column family *)
  families : list Table;         (* the column families of [handles] *)
  pending : list WriteOp;        (* open transaction, latest write first *)
  faults : Faults;
  calls : list (Op * Status);    (* every call and its answer, latest first *)
  live_snapshots : nat;
  live_iterators : nat
}.

Fixpoint tget (k : string) (t : Table) : option string :=
  match t with
  | [] => None
  | (k', v) :: r => if String.eqb k k' then Some v else tget k r
  end.

Fixpoint tput (k v : string) (t : Table) : Table :=
  match t with
  | [] => [(k, v)]
  | (k', v') :: r =>
      match String.compare k k' with
      | Lt => (k, v) :: t
      | Eq => (k, v) :: r
      | Gt => (k', v') :: tput k v r
      end
  end.

Fixpoint tdel (k : string) (t : Table) : Table :=
  match t with
  | [] => []
  | (k', v) :: r => if String.eqb k k' then tdel k r else (k', v) :: tdel k r
  end.

(** [Iterator::Seek(target)] followed by [Next] until the end: the pairs
    whose key is not below the target, in key order. *)
Fixpoint seek (target : string) (t : Table) : Table :=
  match t with
  | [] => []
  | (k, v) :: r => if String.ltb k target then seek target r else t
  end.

Fixpoint set_nth {A : Type} (i : nat) (x : A) (l : list A) : list A :=
  match l, i with
  | [], _ => []
  | _ :: r, O => x :: r
  | y :: r, S i' => y :: set_nth i' x r
  end.

Definition family (cf : option nat) (d : DB) : Table :=
  match cf with
  | None => table d
  | Some i => nth i (families d) []
  end.

Definition apply_op (w : WriteOp) (tf : Table * list Table) : Table * list Table :=
  let '(t, fs) := tf in
  match w with
  | WPut None k v => (tput k v t, fs)
  | WDelete None k => (tdel k t, fs)
  | WPut (Some i) k v => (t, set_nth i (tput k v (nth i fs [])) fs)
  | WDelete (Some i) k => (t, set_nth i (tdel k (nth i fs [])) fs)
  end.

(** A write batch is applied in the order its entries were added. *)
Definition apply_batch (b : list WriteOp) (tf : Table * list Table)
  : Table * list Table :=
  fold_left (fun acc w => apply_op w acc) b tf.

(** The latest write to [(cf, k)] in the open transaction, if any:
    [Some None] is a pending delete. *)
Fixpoint pending_get (cf : option nat) (k : string) (p : list WriteOp)
  : option (option string) :=
  let same (cf' : option nat) (k' : string) :=
    String.eqb k k' &&
    match cf, cf' with
    | None, None => true
    | Some i, Some j => Nat.eqb i j
    | _, _ => false
    end in
  match p with
  | [] => None
  | WPut cf' k' v :: r => if same cf' k' then Some (Some v) else pending_get cf k r
  | WDelete cf' k' :: r => if same cf' k' then Some None else pending_get cf k r
  end.

Definition is_failure (s : Status) : bool :=
  negb (ok s) && negb (IsNotFound s).

(** Take the next scripted answer of a queue. *)
Definition next_fault (q : list Status) : option Status * list Status :=
  match q with
  | [] => (None, [])
  | s :: r => (if is_failure s then Some s else None, r)
  end.

Definition set_table (t : Table) (fs : list Table) (d : DB) : DB :=
  mkDB t fs (pending d) (faults d) (calls d) (live_snapshots d) (live_iterators d).
Definition set_pending (p : list WriteOp) (d : DB) : DB :=
  mkDB (table d) (families d) p (faults d) (calls d) (live_snapshots d)
       (live_iterators d).
Definition set_faults (f : Faults) (d : DB) : DB :=
  mkDB (table d) (families d) (pending d) f (calls d) (live_snapshots d)
       (live_iterators d).
Definition record_call (o : Op) (s : Status) (d : DB) : DB :=
  mkDB (table d) (families d) (pending d) (faults d) ((o, s) :: calls d)
       (live_snapshots d) (live_iterators d).
Definition set_snapshots (n : nat) (d : DB) : DB :=
  mkDB (table d) (families d) (pending d) (faults d) (calls d) n
       (live_iterators d).
Definition set_iterators (n : nat) (d : DB) : DB :=
  mkDB (table d) (families d) (pending d) (faults d) (calls d)
       (live_snapshots d) n.

Definition with_get (q : list Status) (f : Faults) : Faults :=
  mkFaults q (f_put f) (f_delete f) (f_prepare f) (f_commit f) (f_rollback f)
           (f_write f) (f_timestamp f).
Definition with_put (q : list Status) (f : Faults) : Faults :=
  mkFaults (f_get f) q (f_delete f) (f_prepare f) (f_commit f) (f_rollback f)
           (f_write f) (f_timestamp f).
Definition with_delete (q : list Status) (f : Faults) : Faults :=
  mkFaults (f_get f) (f_put f) q (f_prepare f) (f_commit f) (f_rollback f)
           (f_write f) (f_timestamp f).
Definition with_prepare (q : list Status) (f : Faults) : Faults :=
  mkFaults (f_get f) (f_put f) (f_delete f) q (f_commit f) (f_rollback f)
           (f_write f) (f_timestamp f).
Definition with_commit (q : list Status) (f : Faults) : Faults :=
  mkFaults (f_get f) (f_put f) (f_delete f) (f_prepare f) q (f_rollback f)
           (f_write f) (f_timestamp f).
Definition with_rollback (q : list Status) (f : Faults) : Faults :=
  mkFaults (f_get f) (f_put f) (f_delete f) (f_prepare f) (f_commit f) q
           (f_write f) (f_timestamp f).
Definition with_write (q : list Status) (f : Faults) : Faults :=
  mkFaults (f_get f) (f_put f) (f_delete f) (f_prepare f) (f_commit f)
           (f_rollback f) q (f_timestamp f).
Definition with_timestamp (q : list Status) (f : Faults) : Faults :=
  mkFaults (f_get f) (f_put f) (f_delete f) (f_prepare f) (f_commit f)
           (f_rollback f) (f_write f) q.

(** A view to read from: the snapshot of the read options, or the
    committed state. *)
Definition Snapshot : Type := (Table * list Table)%type.

Definition view (snapshot : option Snapshot) (cf : option nat) (d : DB) : Table :=
  match snapshot with
  | Some (t, fs) =>
      match cf with None => t | Some i => nth i fs [] end
  | None => family cf d
  end.

Definition answer (found : option string) : Status * string :=
  match found with
  | Some v => (Status.OK, v)
  | None => (Status.mk Status.kNotFound "", "")
  end.

(** [DB::Get(read_options, key, &value)]. *)
Definition db_get (snapshot : option Snapshot) (cf : option nat) (k : string)
           (d : DB) : (Status * string) * DB :=
  let '(flt, q) := next_fault (f_get (faults d)) in
  let d := set_faults (with_get q (faults d)) d in
  let r := match flt with
           | Some s => (s, "")
           | None => answer (tget k (view snapshot cf d))
           end in
  (r, record_call (OpGet false cf k) (fst r) d).

(** [Transaction::Get] and [Transaction::GetForUpdate]: the transaction's
    own writes first, then the view. *)
Definition txn_get (for_update : bool) (snapshot : option Snapshot)
           (cf : option nat) (k : string) (d : DB) : (Status * string) * DB :=
  let '(flt, q) := next_fault (f_get (faults d)) in
  let d := set_faults (with_get q (faults d)) d in
  let r := match flt with
           | Some s => (s, "")
           | None =>
               match pending_get cf k (pending d) with
               | Some found => answer found
               | None => answer (tget k (view snapshot cf d))
               end
           end in
  (r, record_call (OpGet for_update cf k) (fst r) d).

Definition txn_put (cf : option nat) (k v : string) (d : DB) : Status * DB :=
  let '(flt, q) := next_fault (f_put (faults d)) in
  let d := set_faults (with_put q (faults d)) d in
  match flt with
  | Some s => (s, record_call (OpPut cf k v) s d)
  | None =>
      (Status.OK,
       record_call (OpPut cf k v) Status.OK
         (set_pending (WPut cf k v :: pending d) d))
  end.

Definition txn_delete (cf : option nat) (k : string) (d : DB) : Status * DB :=
  let '(flt, q) := next_fault (f_delete (faults d)) in
  let d := set_faults (with_delete q (faults d)) d in
  match flt with
  | Some s => (s, record_call (OpDelete cf k) s d)
  | None =>
      (Status.OK,
       record_call (OpDelete cf k) Status.OK
         (set_pending (WDelete cf k :: pending d) d))
  end.

Definition txn_prepare (d : DB) : Status * DB :=
  let '(flt, q) := next_fault (f_prepare (faults d)) in
  let d := set_faults (with_prepare q (faults d)) d in
  match flt with
  | Some s => (s, record_call OpPrepare s d)
  | None => (Status.OK, record_call OpPrepare Status.OK d)
  end.

Definition txn_commit (d : DB) : Status * DB :=
  let '(flt, q) := next_fault (f_commit (faults d)) in
  let d := set_faults (with_commit q (faults d)) d in
  match flt with
  | Some s => (s, record_call OpCommit s d)
  | None =>
      let '(t, fs) := apply_batch (List.rev (pending d)) (table d, families d) in
      (Status.OK,
       record_call OpCommit Status.OK (set_pending [] (set_table t fs d)))
  end.

Definition txn_rollback (d : DB) : Status * DB :=
  let '(flt, q) := next_fault (f_rollback (faults d)) in
  let d := set_faults (with_rollback q (faults d)) d in
  match flt with
  | Some s => (s, record_call OpRollback s d)
  | None => (Status.OK, record_call OpRollback Status.OK (set_pending [] d))
  end.

(** [DB::Write(write_options, &batch)]. *)
Definition db_write (b : list WriteOp) (d : DB) : Status * DB :=
  let '(flt, q) := next_fault (f_write (faults d)) in
  let d := set_faults (with_write q (faults d)) d in
  match flt with
  | Some s => (s, record_call (OpWrite b) s d)
  | None =>
      let '(t, fs) := apply_batch b (table d, families d) in
      (Status.OK, record_call (OpWrite b) Status.OK (set_table t fs d))
  end.

Definition txn_set_timestamp (o : Op) (d : DB) : Status * DB :=
  let '(flt, q) := next_fault (f_timestamp (faults d)) in
  let d := set_faults (with_timestamp q (faults d)) d in
  match flt with
  | Some s => (s, record_call o s d)
  | None => (Status.OK, record_call o Status.OK d)
  end.

(** [BeginTransaction]: a fresh, or re-initialised, transaction. *)
Definition begin_transaction (d : DB) : DB := set_pending [] d.

Definition get_snapshot (d : DB) : Snapshot * DB :=
  ((table d, families d), set_snapshots (S (live_snapshots d)) d).

Definition release_snapshot (d : DB) : DB :=
  set_snapshots (Nat.pred (live_snapshots d)) d.

(** [DB::NewIterator(read_options)] on the default column family. *)
Definition new_iterator (snapshot : option Snapshot) (d : DB) : Table * DB :=
  (view snapshot None d, set_iterators (S (live_iterators d)) d).

Definition delete_iterator (d : DB) : DB :=
  set_iterators (Nat.pred (live_iterators d)) d.

End Store.

Import Store.

(* ===================================================================== *)
(** * The harness: state, effects and random draws *)
(* ===================================================================== *)

Module Harness.

(** The build and the constructor arguments of
    [RandomTransactionInserter]. *)
Record Config : Type := mkConfig {
  ndebug : bool;             (* NDEBUG: [assert] expands to nothing *)
  num_keys_ : N;
  num_sets_ : N;
  readpercent_ : Z;
  deletepercent_ : Z;
  conflict_level_ : Z;
  value_size_ : N
}.

(** Modelled from the spec: the outcome counters (their declarations are
    in util/transaction_test_util.h, not at hand) are running totals. *)
Record Stats : Type := mkStats {
  success_count_ : N;
  failure_count_ : N;
  bytes_inserted_ : N;
  bytes_read_ : N;
  gets_done_ : N;
  puts_done_ : N;
  deletes_done_ : N;
  found_ : N
}.

(** What [fprintf] writes to [stderr] and [stdout]. *)
Inductive Msg : Type :=
| GetUnexpectedValue (value : string)
| GetUnexpectedError (s : Status)
| PutUnexpectedError (s : Status)
| CommitUnexpectedError (s : Status)
| WriteUnexpectedError (s : Status)
| TotxnGetError (s : Status)
| OpsizeExceedMax
| IterUnexpectedValue (value : string)
| InconsistentTotals (prev_i prev_total set_i total : N).

Record World : Type := mkWorld {
  rand_ : list N;                       (* what [Random64] returns next *)
  device : list N;                      (* what [std::random_device] returns *)
  clock : N;                            (* [gettimeofday], seconds *)
  read_snapshot : option Snapshot;      (* [read_options_.snapshot] *)
  txn_id_ : N;
  stats : Stats;
  last_status_ : Status;
  db : DB;
  console : list Msg                    (* latest line first *)
}.

Inductive Failure : Type :=
| AssertionFailed
| Thrown (e : exn)
| DivisionByZero
| OutOfBounds                (* a read outside a buffer: undefined behaviour *)
| OutOfFuel.

Inductive Outcome (A : Type) : Type :=
| Ret (a : A) (w : World)
| Stop (f : Failure).

Arguments Ret {A} a w.
Arguments Stop {A} f.

Definition M (A : Type) : Type := World -> Outcome A.

Definition ret {A : Type} (a : A) : M A := fun w => Ret a w.

Definition bind {A B : Type} (c : M A) (k : A -> M B) : M B :=
  fun w => match c w with
           | Ret a w' => k a w'
           | Stop f => Stop f
           end.

Definition stop {A : Type} (f : Failure) : M A := fun _ => Stop f.

Declare Scope harness_scope.
Delimit Scope harness_scope with harness.

Notation "x <- c ;; k" := (bind c (fun x => k))
  (at level 61, c at next level, right associativity) : harness_scope.
Notation "' p <- c ;; k" := (bind c (fun x => let 'p := x in k))
  (at level 61, p pattern, c at next level, right associativity) : harness_scope.
Notation "c ;; k" := (bind c (fun _ => k))
  (at level 61, right associativity) : harness_scope.

Local Open Scope harness_scope.

Definition set_rand (r : list N) (w : World) : World :=
  mkWorld r (device w) (clock w) (read_snapshot w) (txn_id_ w) (stats w)
          (last_status_ w) (db w) (console w).
Definition set_device (r : list N) (w : World) : World :=
  mkWorld (rand_ w) r (clock w) (read_snapshot w) (txn_id_ w) (stats w)
          (last_status_ w) (db w) (console w).
Definition set_read_snapshot (s : option Snapshot) (w : World) : World :=
  mkWorld (rand_ w) (device w) (clock w) s (txn_id_ w) (stats w)
          (last_status_ w) (db w) (console w).
Definition set_txn_id (n : N) (w : World) : World :=
  mkWorld (rand_ w) (device w) (clock w) (read_snapshot w) n (stats w)
          (last_status_ w) (db w) (console w).
Definition set_stats (s : Stats) (w : World) : World :=
  mkWorld (rand_ w) (device w) (clock w) (read_snapshot w) (txn_id_ w) s
          (last_status_ w) (db w) (console w).
Definition set_last_status (s : Status) (w : World) : World :=
  mkWorld (rand_ w) (device w) (clock w) (read_snapshot w) (txn_id_ w)
          (stats w) s (db w) (console w).
Definition set_db (d : DB) (w : World) : World :=
  mkWorld (rand_ w) (device w) (clock w) (read_snapshot w) (txn_id_ w)
          (stats w) (last_status_ w) d (console w).
Definition set_console (c : list Msg) (w : World) : World :=
  mkWorld (rand_ w) (device w) (clock w) (read_snapshot w) (txn_id_ w)
          (stats w) (last_status_ w) (db w) c.

Definition get_world : M World := fun w => Ret w w.
Definition modify (f : World -> World) : M unit := fun w => Ret tt (f w).

Definition on_db {A : Type} (f : DB -> A * DB) : M A :=
  fun w => let '(a, d) := f (db w) in Ret a (set_db d w).

Definition fprintf (m : Msg) : M unit :=
  modify (fun w => set_console (m :: console w) w).

Definition on_stats (f : Stats -> Stats) : M unit :=
  modify (fun w => set_stats (f (stats w)) w).

Definition add_success (s : Stats) : Stats :=
  mkStats (success_count_ s + 1) (failure_count_ s) (bytes_inserted_ s)
          (bytes_read_ s) (gets_done_ s) (puts_done_ s) (deletes_done_ s)
          (found_ s).
Definition add_failure (s : Stats) : Stats :=
  mkStats (success_count_ s) (failure_count_ s + 1) (bytes_inserted_ s)
          (bytes_read_ s) (gets_done_ s) (puts_done_ s) (deletes_done_ s)
          (found_ s).
Definition add_bytes_inserted (n : N) (s : Stats) : Stats :=
  mkStats (success_count_ s) (failure_count_ s) (bytes_inserted_ s + n)
          (bytes_read_ s) (gets_done_ s) (puts_done_ s) (deletes_done_ s)
          (found_ s).
Definition add_bytes_read (n : N) (s : Stats) : Stats :=
  mkStats (success_count_ s) (failure_count_ s) (bytes_inserted_ s)
          (bytes_read_ s + n) (gets_done_ s) (puts_done_ s) (deletes_done_ s)
          (found_ s).
Definition add_get (s : Stats) : Stats :=
  mkStats (success_count_ s) (failure_count_ s) (bytes_inserted_ s)
          (bytes_read_ s) (gets_done_ s + 1) (puts_done_ s) (deletes_done_ s)
          (found_ s).
Definition add_put (s : Stats) : Stats :=
  mkStats (success_count_ s) (failure_count_ s) (bytes_inserted_ s)
          (bytes_read_ s) (gets_done_ s) (puts_done_ s + 1) (deletes_done_ s)
          (found_ s).
Definition add_delete (s : Stats) : Stats :=
  mkStats (success_count_ s) (failure_count_ s) (bytes_inserted_ s)
          (bytes_read_ s) (gets_done_ s) (puts_done_ s) (deletes_done_ s + 1)
          (found_ s).
Definition add_found (s : Stats) : Stats :=
  mkStats (success_count_ s) (failure_count_ s) (bytes_inserted_ s)
          (bytes_read_ s) (gets_done_ s) (puts_done_ s) (deletes_done_ s)
          (found_ s + 1).

(** Modelled from the spec: [Random64] (util/random.h is not at hand), an
    opaque generator; the world holds the values it is going to return,
    and a generator that has run dry returns zero. *)
Definition pop (l : list N) : N * list N :=
  match l with
  | [] => (0, [])
  | x :: r => (u64 x, r)
  end.

Definition Next : M N :=
  fun w => let '(x, r) := pop (rand_ w) in Ret x (set_rand r w).

(** What the next two calls of [Next] return. *)
Definition first_draw (w : World) : N := fst (pop (rand_ w)).
Definition second_draw (w : World) : N := fst (pop (snd (pop (rand_ w)))).

Definition Uniform (n : N) : M N :=
  x <- Next ;; ret (if n =? 0 then x else x mod n).

Definition OneIn (n : N) : M bool :=
  x <- Uniform n ;; ret (x =? 0).

(** A draw of [std::random_device] reduced to [0, n). *)
Definition device_pick (n : N) : M N :=
  fun w => let '(x, r) := pop (device w) in
           Ret (if n =? 0 then x else x mod n) (set_device r w).

(** [a % b] on unsigned operands; a zero divisor is a trap. *)
Definition umod (a b : N) : M N :=
  if b =? 0 then stop DivisionByZero else ret (a mod b).

(** [std::stoull], whose exceptions nobody catches. *)
Definition stoull_ (s : string) : M N :=
  match stoull s with
  | inr n => ret n
  | inl e => stop (Thrown e)
  end.

(** [std::iota(set_vec.begin(), set_vec.end(), 0)] on a vector of [n]
    elements. *)
Definition iota (n : N) : list N := upto (N.to_nat n).

Definition swap_nth (i j : nat) (l : list N) : list N :=
  match nth_error l i, nth_error l j with
  | Some a, Some b => set_nth i b (set_nth j a l)
  | _, _ => l
  end.

(** The shuffle of the C++ library: element [i], for [i] from 1 upwards,
    changes places with an element drawn among the first [i + 1]. *)
Fixpoint shuffle_loop (pick : N -> M N) (i count : nat) (l : list N)
  : M (list N) :=
  match count with
  | O => ret l
  | S c =>
      j <- pick (N.of_nat i + 1) ;;
      shuffle_loop pick (S i) c (swap_nth i (N.to_nat j) l)
  end.

(** [std::random_shuffle(first, last, [&](uint64_t r) { return
    rand_->Uniform(r); })]. *)
Definition random_shuffle (l : list N) : M (list N) :=
  shuffle_loop Uniform 1 (List.length l - 1) l.

(** [std::shuffle(first, last, std::random_device{})]. *)
Definition std_shuffle (l : list N) : M (list N) :=
  shuffle_loop device_pick 1 (List.length l - 1) l.

Definition strlen (s : string) : N := N.of_nat (String.length s).

End Harness.

Import Harness.

(* ===================================================================== *)
(** * RandomTransactionInserter *)
(* ===================================================================== *)

Module Inserter.

Local Open Scope harness_scope.

Section Model.

Variable cfg : Config.

(** [assert(e)]: nothing under NDEBUG, not even the evaluation of [e];
    otherwise [e] is evaluated and the process aborts when it is false. *)
Definition assert_ (e : M bool) : M unit :=
  if ndebug cfg then ret tt
  else b <- e ;; if b then ret tt else stop AssertionFailed.

Definition on_db_ (f : DB -> DB) : M unit :=
  modify (fun w => set_db (f (db w)) w).

(** [DBGet(db, txn, read_options, set_i, ikey, get_for_update, &int_value,
    &full_key, &unexpected_error)], lines 134-176.  [use_txn] is
    [txn != nullptr]; the two in-out parameters come in with the caller's
    values and go out in the result. *)
Definition DBGet (use_txn : bool) (snapshot : option Snapshot)
           (set_i ikey : N) (get_for_update : bool)
           (int_value : N) (unexpected_error : bool)
  : M (Status * N * string * bool) :=
  assert_ (ret (set_i + 1 <=? 9999)) ;;
  let key := full_key set_i ikey in
  '(s, value) <- on_db (if use_txn
                        then txn_get get_for_update snapshot None key
                        else db_get snapshot None key) ;;
  if ok s then
    v <- stoull_ value ;;
    if (v =? 0) || (v =? ULONG_MAX) then
      fprintf (GetUnexpectedValue value) ;;
      ret (Status.Corruption, v, key, true)
    else ret (s, v, key, unexpected_error)
  else if IsNotFound s then ret (Status.OK, 0, key, unexpected_error)
  else ret (s, int_value, key, unexpected_error).

(** The [TOTransaction] overload of [DBGet], lines 178-216. *)
Definition DBGet_TO (use_txn : bool) (snapshot : option Snapshot)
           (set_i ikey : N) (int_value : N) (unexpected_error : bool)
  : M (Status * N * string * bool) :=
  DBGet use_txn snapshot set_i ikey false int_value unexpected_error.

(** ** [DoInsert] for a [Transaction] or a plain [DB], lines 485-601 *)

(** The loop of lines 499-538.  It ends with the last status, the flag and
    the write batch of the plain-database path. *)
Fixpoint insert_loop (use_txn is_optimistic : bool) (incr : N)
         (set_vec : list N) (s : Status) (unexpected_error : bool)
         (batch : list WriteOp) : M (Status * bool * list WriteOp) :=
  match set_vec with
  | [] => ret (s, unexpected_error, batch)
  | set_i :: rest =>
      r <- Next ;;
      rand_key <- umod r (num_keys_ cfg) ;;
      get_for_update <- (if use_txn then OneIn 2 else ret false) ;;
      w <- get_world ;;
      '(s, int_value, key, unexpected_error) <-
        DBGet use_txn (read_snapshot w) set_i rand_key get_for_update 0
              unexpected_error ;;
      if negb (ok s) then
        if is_optimistic || negb (IsBusy s || IsTimedOut s || IsTryAgain s)
        then fprintf (GetUnexpectedError s) ;; ret (s, true, batch)
        else ret (s, unexpected_error, batch)
      else
        let sum := ToString (add64 int_value incr) in
        if use_txn then
          s <- on_db (txn_put None key sum) ;;
          if negb get_for_update && (IsBusy s || IsTimedOut s)
          then ret (s, unexpected_error, batch)
          else
            unexpected_error <-
              (if negb (ok s)
               then fprintf (PutUnexpectedError s) ;; ret true
               else ret unexpected_error) ;;
            on_stats (add_bytes_inserted (strlen key + strlen sum)) ;;
            insert_loop use_txn is_optimistic incr rest s unexpected_error
                        batch
        else
          on_stats (add_bytes_inserted (strlen key + strlen sum)) ;;
          insert_loop use_txn is_optimistic incr rest s unexpected_error
                      (batch ++ [WPut None key sum])
  end.

(** Lines 540-589: prepare, commit or roll back. *)
Definition finish (use_txn is_optimistic : bool) (s : Status)
           (unexpected_error : bool) (batch : list WriteOp)
  : M (Status * bool) :=
  if ok s then
    if use_txn then
      with_prepare <- (if is_optimistic then ret false
                       else b <- OneIn 10 ;; ret (negb b)) ;;
      s <- (if with_prepare
            then s' <- on_db txn_prepare ;; assert_ (ret (ok s')) ;; ret s'
            else ret s) ;;
      rollback <- OneIn 20 ;;
      s <- (if negb rollback
            then on_db txn_commit
            else s' <- on_db txn_rollback ;; assert_ (ret (ok s')) ;; ret s') ;;
      assert_ (ret (is_optimistic || ok s)) ;;
      if negb (ok s) then
        let unexpected_error :=
          if is_optimistic
          then (if negb (IsBusy s || IsTimedOut s || IsTryAgain s)
                then true else unexpected_error)
          else (if negb (IsExpired s) then true else unexpected_error) in
        (if unexpected_error then fprintf (CommitUnexpectedError s)
         else ret tt) ;;
        ret (s, unexpected_error)
      else ret (s, unexpected_error)
    else
      s <- on_db (db_write batch) ;;
      if negb (ok s)
      then fprintf (WriteUnexpectedError s) ;; ret (s, true)
      else ret (s, unexpected_error)
  else
    (if use_txn
     then assert_ (s' <- on_db txn_rollback ;; ret (ok s'))
     else ret tt) ;;
    ret (s, unexpected_error).

(** Lines 591-597: the counters and [last_status_]. *)
Definition tally (s : Status) : M unit :=
  on_stats (if ok s then add_success else add_failure) ;;
  modify (set_last_status s).

(** Lines 487-538: the increment, the order of the sets and the loop. *)
Definition insert_phase (use_txn is_optimistic : bool)
  : M (Status * bool * list WriteOp) :=
  r <- Next ;;
  let incr := add64 (r mod 100) 1 in
  set_vec <- std_shuffle (iota (num_sets_ cfg)) ;;
  insert_loop use_txn is_optimistic incr set_vec Status.OK false [].

Definition DoInsert (use_txn is_optimistic : bool) : M bool :=
  '(s, unexpected_error, batch) <- insert_phase use_txn is_optimistic ;;
  '(s, unexpected_error) <-
    finish use_txn is_optimistic s unexpected_error batch ;;
  tally s ;;
  ret (negb unexpected_error).

(** ** [DoInsert] for a [TOTransaction], lines 393-482 *)

Fixpoint insert_loop_TO (use_txn : bool) (incr : N) (set_vec : list N)
         (s : Status) (unexpected_error : bool) : M (Status * bool) :=
  match set_vec with
  | [] => ret (s, unexpected_error)
  | set_i :: rest =>
      r <- Next ;;
      rand_key <- umod r (num_keys_ cfg) ;;
      w <- get_world ;;
      '(s, int_value, key, unexpected_error) <-
        DBGet_TO use_txn (read_snapshot w) set_i rand_key 0 unexpected_error ;;
      if negb (ok s) then
        if negb (IsBusy s || IsTimedOut s || IsTryAgain s)
        then fprintf (GetUnexpectedError s) ;; ret (s, true)
        else ret (s, unexpected_error)
      else
        let sum := ToString (add64 int_value incr) in
        if use_txn then
          s <- on_db (txn_put None key sum) ;;
          if IsBusy s || IsTimedOut s
          then ret (s, unexpected_error)
          else
            unexpected_error <-
              (if negb (ok s)
               then fprintf (PutUnexpectedError s) ;; ret true
               else ret unexpected_error) ;;
            on_stats (add_bytes_inserted (strlen key + strlen sum)) ;;
            insert_loop_TO use_txn incr rest s unexpected_error
        else
          on_stats (add_bytes_inserted (strlen key + strlen sum)) ;;
          insert_loop_TO use_txn incr rest s unexpected_error
  end.

Definition finish_TO (use_txn : bool) (s : Status) : M Status :=
  if ok s then
    if use_txn then
      modify (fun w => set_txn_id (txn_id_ w + 1) w) ;;
      w <- get_world ;;
      s <- on_db (txn_set_timestamp (OpSetCommitTimeStamp (clock w))) ;;
      rollback <- OneIn 20 ;;
      s <- (if negb rollback
            then on_db txn_commit
            else s' <- on_db txn_rollback ;; assert_ (ret (ok s')) ;; ret s') ;;
      assert_ (ret (ok s)) ;;
      ret s
    else ret s
  else
    (if use_txn
     then assert_ (s' <- on_db txn_rollback ;; ret (ok s'))
     else ret tt) ;;
    ret s.

Definition insert_phase_TO (use_txn : bool) : M (Status * bool) :=
  r <- Next ;;
  let incr := add64 (r mod 100) 1 in
  set_vec <- random_shuffle (iota (num_sets_ cfg)) ;;
  insert_loop_TO use_txn incr set_vec Status.OK false.

Definition DoInsert_TO (use_txn : bool) : M bool :=
  '(s, unexpected_error) <- insert_phase_TO use_txn ;;
  s <- finish_TO use_txn s ;;
  tally s ;;
  ret (negb unexpected_error).

(** ** [RandomGenerator], lines 219-257 *)

Record RandomGenerator : Type := mkGen { data_ : string; pos_ : N }.

(** The loop of the constructor: [piece] is appended while [data_] is
    shorter than [max(1048576, value_size_)], where the generator's own
    [value_size_] is 1000.  [piece] is declared and never assigned. *)
Fixpoint RandomGenerator_fill (fuel : nat) (data piece : string)
  : option string :=
  match fuel with
  | O => None
  | S fuel' =>
      if strlen data <? N.max 1048576 1000
      then RandomGenerator_fill fuel' (data ++ piece)%string piece
      else Some data
  end.

Definition RandomGenerator_new (fuel : nat) : M RandomGenerator :=
  let piece := "" in
  match RandomGenerator_fill fuel "" piece with
  | Some data => ret (mkGen data 0)
  | None => stop OutOfFuel
  end.

Definition u32 (n : N) : N := n mod 2 ^ 32.

(** [Generate(len)], lines 240-247.  The slice returned is
    [Slice(data_.data() + pos_ - len, len)]: when it does not lie inside
    [data_] (which the assertion excludes, and a build without assertions
    does not), reading it is undefined behaviour, and the run is over. *)
Definition Generate (len : N) (g : RandomGenerator)
  : M (string * RandomGenerator) :=
  assert_ (ret (len <=? strlen (data_ g))) ;;
  let pos := if strlen (data_ g) <? u32 (pos_ g + len) then 0 else pos_ g in
  let pos := u32 (pos + len) in
  if (len <=? pos) && (pos <=? strlen (data_ g))
  then ret (substring (N.to_nat (pos - len)) (N.to_nat len) (data_ g),
            mkGen (data_ g) pos)
  else stop OutOfBounds.

(** ** [DoWriteRandom], lines 259-391 *)

Definition u16 (n : N) : N := n mod 2 ^ 16.

(** Lines 267-272: how many sets, and in which order. *)
Definition choose_sets : M (list N) :=
  r <- Next ;;
  m <- umod r (num_sets_ cfg) ;;
  let num_sets := u16 (m + 1) in
  random_shuffle (iota num_sets).

Fixpoint divide_by_ten (n : nat) (k : N) : N :=
  match n with
  | O => k
  | S n' => divide_by_ten n' (k / 10)
  end.

(** What one turn of the loop of lines 277-356 hands to the next. *)
Record Turn : Type := mkTurn {
  t_status : Status;
  t_inserted : N;
  t_read : N;
  t_gen : RandomGenerator
}.

(** Lines 344-355, the end of a turn: [true] leaves the loop. *)
Definition end_of_turn (t : Turn) : M (bool * Turn) :=
  if 15000000 <? t_inserted t
  then fprintf OpsizeExceedMax ;; ret (true, t)
  else if negb (ok (t_status t))
  then fprintf (PutUnexpectedError (t_status t)) ;; ret (true, t)
  else ret (false, t).

(** One turn of the loop of lines 277-356. *)
Definition write_turn (num_handles : nat) (set_i : N) (t : Turn)
  : M (bool * Turn) :=
  r <- Next ;;
  let rand_value := Z.of_N (r mod 100) in
  r <- Next ;;
  k <- umod r (num_keys_ cfg) ;;
  let rand_key := divide_by_ten (Z.to_nat (conflict_level_ cfg)) k in
  let handle :=
    match num_handles with
    | O => None
    | _ => Some (N.to_nat (rand_key mod N.of_nat num_handles))
    end in
  assert_ (ret (set_i + 1 <=? 9999)) ;;
  let key := (prefix_buf set_i ++ ToString rand_key)%string in
  if (rand_value <? readpercent_ cfg)%Z then
    w <- get_world ;;
    '(s, value) <- on_db (txn_get false (read_snapshot w) handle key) ;;
    on_stats add_get ;;
    if negb (ok s) && negb (IsNotFound s)
    then fprintf (TotxnGetError s) ;;
         ret (true, mkTurn s (t_inserted t) (t_read t) (t_gen t))
    else if ok s
    then on_stats add_found ;;
         end_of_turn
           (mkTurn s (t_inserted t)
                   (add64 (t_read t) (strlen key + value_size_ cfg)) (t_gen t))
    else end_of_turn (mkTurn Status.OK (t_inserted t) (t_read t) (t_gen t))
  else if (rand_value <? readpercent_ cfg + deletepercent_ cfg)%Z then
    s <- on_db (txn_delete handle key) ;;
    on_stats add_delete ;;
    end_of_turn
      (mkTurn s (add64 (t_inserted t) (strlen key + value_size_ cfg))
              (t_read t) (t_gen t))
  else
    '(value, g) <- Generate (value_size_ cfg) (t_gen t) ;;
    s <- on_db (txn_put handle key value) ;;
    on_stats add_put ;;
    end_of_turn
      (mkTurn s (add64 (t_inserted t) (strlen key + value_size_ cfg))
              (t_read t) g).

Fixpoint write_loop (num_handles : nat) (set_vec : list N) (t : Turn)
  : M Turn :=
  match set_vec with
  | [] => ret t
  | set_i :: rest =>
      '(leave, t) <- write_turn num_handles set_i t ;;
      if leave then ret t else write_loop num_handles rest t
  end.

(** Lines 358-390, once the loop is over. *)
Definition write_finish (t : Turn) : M bool :=
  let s := t_status t in
  (if ok s
   then on_stats (add_bytes_inserted (t_inserted t)) ;;
        on_stats (add_bytes_read (t_read t))
   else ret tt) ;;
  s <- (if ok s
        then modify (fun w => set_txn_id (txn_id_ w + 1) w) ;;
             s' <- on_db txn_commit ;;
             assert_ (ret (ok s')) ;;
             ret s'
        else ret s) ;;
  '(s, unexpected_error) <-
    (if ok s
     then on_stats add_success ;; ret (s, false)
     else on_stats add_failure ;;
          s' <- on_db txn_rollback ;;
          assert_ (ret (ok s')) ;;
          ret (s', true)) ;;
  modify (set_last_status s) ;;
  ret (negb unexpected_error).

(** The body of [DoWriteRandom] that follows the declaration of [gen]. *)
Definition DoWriteRandom_body (num_handles : nat) (gen : RandomGenerator)
  : M bool :=
  set_vec <- choose_sets ;;
  t <- write_loop num_handles set_vec (mkTurn Status.OK 0 0 gen) ;;
  write_finish t.

Definition DoWriteRandom (fuel : nat) (num_handles : nat) : M bool :=
  gen <- RandomGenerator_new fuel ;;
  DoWriteRandom_body num_handles gen.

(** ** The entry points, lines 62-132 *)

Definition TransactionDBInsert : M bool :=
  on_db_ begin_transaction ;;
  modify (fun w => set_txn_id (txn_id_ w + 1) w) ;;
  take_snapshot <- OneIn 2 ;;
  (if take_snapshot
   then w <- get_world ;;
        modify (set_read_snapshot (Some (table (db w), families (db w))))
   else ret tt) ;;
  res <- DoInsert true false ;;
  (if take_snapshot then modify (set_read_snapshot None) else ret tt) ;;
  ret res.

Definition OptimisticTransactionDBInsert : M bool :=
  on_db_ begin_transaction ;;
  DoInsert true true.

Definition DBInsert : M bool :=
  DoInsert false false.

Definition TOTransactionDBInsert : M bool :=
  on_db_ begin_transaction ;;
  s <- on_db (txn_set_timestamp (OpSetReadTimeStamp (2 ^ 64 - 1))) ;;
  assert_ (ret (ok s)) ;;
  DoInsert_TO true.

Definition TOTransactionDBWriteRandom (fuel : nat) (num_handles : nat)
  : M bool :=
  on_db_ begin_transaction ;;
  w <- get_world ;;
  s <- on_db (txn_set_timestamp (OpSetCommitTimeStamp (clock w))) ;;
  assert_ (ret (ok s)) ;;
  s <- on_db (txn_set_timestamp (OpSetReadTimeStamp (2 ^ 64 - 1))) ;;
  assert_ (ret (ok s)) ;;
  DoWriteRandom fuel num_handles.

(** ** [Verify], lines 604-680 *)

(** Lines 633-643: the point lookups of one set, [count] keys from [k]. *)
Fixpoint point_lookups (snapshot : option Snapshot) (set_i : N)
         (count : nat) (k : N) (total : N) : M N :=
  match count with
  | O => ret total
  | S count' =>
      '(s, int_value, _, unexpected_error) <-
        DBGet false snapshot set_i k false 0 false ;;
      assert_ (ret (ok s)) ;;
      assert_ (ret (negb unexpected_error)) ;;
      point_lookups snapshot set_i count' (k + 1) (add64 total int_value)
  end.

(** Lines 646-660: the iterator walks the pairs from the seek target on;
    [None] is the [return Status::Corruption()] of line 657. *)
Fixpoint iterate (set_i : N) (it : Table) (total : N) : M (option N) :=
  match it with
  | [] => ret (Some total)
  | (key, value) :: rest =>
      if negb (has_prefix set_i key) then ret (Some total)
      else
        int_value <- stoull_ value ;;
        if (int_value =? 0) || (int_value =? ULONG_MAX)
        then fprintf (IterUnexpectedValue value) ;; ret None
        else iterate set_i rest (add64 total int_value)
  end.

(** Line 631: [num_keys_per_set != 0 && rand && rand->OneIn(10)]. *)
Definition use_point_lookup (num_keys_per_set : N) (has_rand : bool)
  : M bool :=
  if num_keys_per_set =? 0 then ret false
  else if has_rand then OneIn 10 else ret false.

(** Lines 622-662: the total of one set. *)
Definition set_total (snapshot : option Snapshot) (num_keys_per_set : N)
           (has_rand : bool) (set_i : N) : M (option N) :=
  assert_ (ret (set_i + 1 <=? 9999)) ;;
  point <- use_point_lookup num_keys_per_set has_rand ;;
  if point then
    total <- point_lookups snapshot set_i (N.to_nat num_keys_per_set) 0 0 ;;
    ret (Some total)
  else
    it <- on_db (new_iterator snapshot) ;;
    r <- iterate set_i (seek (seek_target set_i) it) 0 ;;
    match r with
    | None => ret None
    | Some total => on_db_ delete_iterator ;; ret (Some total)
    end.

(** What the loop of [Verify] keeps from one set to the next. *)
Record Prev : Type := mkPrev {
  prev_total : N;
  prev_i : N;
  prev_assigned : bool
}.

(** The loop of lines 621-674; [inl s] is a [return s] from inside it,
    [inr] the locals it ends with. *)
Fixpoint verify_sets (snapshot : option Snapshot) (num_keys_per_set : N)
         (has_rand : bool) (set_vec : list N) (p : Prev)
  : M (Status + Prev) :=
  match set_vec with
  | [] => ret (inr p)
  | set_i :: rest =>
      r <- set_total snapshot num_keys_per_set has_rand set_i ;;
      match r with
      | None => ret (inl Status.Corruption)
      | Some total =>
          if prev_assigned p && negb (total =? prev_total p)
          then fprintf (InconsistentTotals (prev_i p) (prev_total p)
                                           set_i total) ;;
               ret (inl Status.Corruption)
          else verify_sets snapshot num_keys_per_set has_rand rest
                           (mkPrev total set_i true)
      end
  end.

(** Lines 607-618: the snapshot and the order of the sets. *)
Definition verify_begin (num_sets : N) (take_snapshot : bool)
  : M (option Snapshot * list N) :=
  snapshot <- (if take_snapshot
               then sn <- on_db get_snapshot ;; ret (Some sn)
               else ret None) ;;
  set_vec <- std_shuffle (iota num_sets) ;;
  ret (snapshot, set_vec).

Definition Verify (num_sets num_keys_per_set : N)
           (take_snapshot has_rand : bool) : M Status :=
  '(snapshot, set_vec) <- verify_begin num_sets take_snapshot ;;
  r <- verify_sets snapshot num_keys_per_set has_rand set_vec
                   (mkPrev 0 0 false) ;;
  match r with
  | inl s => ret s
  | inr _ =>
      (if take_snapshot then on_db_ release_snapshot else ret tt) ;;
      ret Status.OK
  end.

End Model.

End Inserter.

Import Inserter.

(* ===================================================================== *)
(** * Concrete runs *)
(* ===================================================================== *)

Module Scenario.

Definition no_stats : Stats := mkStats 0 0 0 0 0 0 0 0.

Definition IOError : Status := Status.mk Status.kIOError "".
Definition Busy : Status := Status.mk Status.kBusy "".
Definition Expired : Status := Status.mk Status.kExpired "".

(** Ten keys per set; [nd] is NDEBUG. *)
Definition config (nd : bool) (num_sets : N) : Config :=
  mkConfig nd 10 num_sets 0 0 0 10.

Definition store (t : Table) (f : Faults) : DB := mkDB t [] [] f [] 0 0.

Definition world (rand dev : list N) (d : DB) : World :=
  mkWorld rand dev 0 None 0 no_stats Status.OK d [].

(** The calls a run made, oldest first, with the code of each answer. *)
Definition history (w : World) : list (Op * Status.Code) :=
  map (fun c => (fst c, Status.code (snd c))) (List.rev (calls (db w))).

Definition counts (w : World) : N * N :=
  (success_count_ (stats w), failure_count_ (stats w)).

(** What a run returned, if it returned. *)
Definition returned {A : Type} (o : Outcome A) : option A :=
  match o with
  | Ret a _ => Some a
  | Stop _ => None
  end.

Definition final {A : Type} (o : Outcome A) : option World :=
  match o with
  | Ret _ w => Some w
  | Stop _ => None
  end.

(** A pessimistic transaction over two sets whose first [Put] fails with
    an I/O error: incr 5, visiting order [1; 0], keys 3 and 6, plain
    reads, prepare, commit. *)
Definition put_fails : World :=
  world [4; 3; 1; 6; 1; 1; 1] [0]
        (store [] (mkFaults [] [IOError] [] [] [] [] [] [])).

(** The same draws with a store that never fails, and a last draw that
    asks for the deliberate rollback. *)
Definition rolls_back : World :=
  world [4; 3; 1; 6; 1; 1; 0] [0] (store [] no_faults).

(** Two sets whose totals differ. *)
Definition unequal (a b : string) : World :=
  world [] [1] (store [("00010", a); ("00020", b)] no_faults).

(** One set, one key, holding [v]; the first draw of the generator is 0,
    so that [OneIn(10)] asks for point lookups. *)
Definition single (v : string) : World :=
  world [0] [] (store [("00010", v)] no_faults).

End Scenario.

Import Scenario.

(** C6.  The run [put_fails]: the [Put] of the first set answers with an
    I/O error, an error no backend family expects; the loop goes on to
    read and write the next set, the transaction is prepared and
    committed with one set missing, and the run is counted as a
    success.  Only the returned [false] tells. *)
Theorem put_error_does_not_leave_loop :
  forall nd : bool,
    let o := DoInsert (config nd 2) true false put_fails in
    returned o = Some false /\
    option_map history (final o) =
      Some [(OpGet false None "00023", Status.kNotFound);
            (OpPut None "00023" "5", Status.kIOError);
            (OpGet false None "00016", Status.kNotFound);
            (OpPut None "00016" "5", Status.kOk);
            (OpPrepare, Status.kOk);
            (OpCommit, Status.kOk)] /\
    option_map (fun w => table (db w)) (final o) = Some [("00016", "5")] /\
    option_map counts (final o) = Some (1, 0).
Proof. intros []; vm_compute; repeat split. Qed.

(** C9.  [Verify] with [take_snapshot]: when the totals of two sets
    differ the snapshot is still held on return, and when a value decodes
    to zero both the snapshot and the iterator are. *)
Theorem verify_early_return_keeps_snapshot :
  forall nd : bool,
    let o1 := Verify (config nd 2) 2 0 true false (unequal "5" "6") in
    let o2 := Verify (config nd 2) 1 0 true false (single "0") in
    returned o1 = Some Status.Corruption /\
    option_map (fun w => live_snapshots (db w)) (final o1) = Some 1%nat /\
    returned o2 = Some Status.Corruption /\
    option_map (fun w => (live_snapshots (db w), live_iterators (db w)))
               (final o2) = Some (1%nat, 1%nat).
Proof. intros []; vm_compute; repeat split. Qed.

(* ===================================================================== *)
(** * Reasoning about runs *)
(* ===================================================================== *)

Section Runs.

Lemma bind_Ret {A B : Type} (c : M A) (k : A -> M B) (w : World) (b : B)
      (w' : World) :
  bind c k w = Ret b w' ->
  exists a w1, c w = Ret a w1 /\ k a w1 = Ret b w'.
Proof.
  unfold bind. destruct (c w) as [a w1|f]; [|discriminate].
  intros H. now exists a, w1.
Qed.

Lemma bind_eq {A B : Type} (c : M A) (k : A -> M B) (w : World) (a : A)
      (w1 : World) :
  c w = Ret a w1 -> bind c k w = k a w1.
Proof. unfold bind. now intros ->. Qed.

Lemma bind_stop {A B : Type} (c : M A) (k : A -> M B) (w : World)
      (f : Failure) :
  c w = Stop f -> bind c k w = Stop f.
Proof. unfold bind. now intros ->. Qed.

End Runs.

(** Unfold the effects of the harness in a hypothesis, and split on what
    it branches on, innermost first. *)
Ltac expose H :=
  repeat progress
    unfold assert_, OneIn, Uniform, Next, device_pick, umod, stoull_, on_db,
      on_db_, fprintf, on_stats, modify, get_world, stop, ret, bind in H.

Ltac split_match H :=
  match type of H with
  | context [match ?x with _ => _ end] =>
      lazymatch x with
      | context [match _ with _ => _ end] => fail
      | _ => destruct x eqn:?
      end
  | context [if ?x then _ else _] =>
      lazymatch x with
      | context [match _ with _ => _ end] => fail
      | _ => destruct x eqn:?
      end
  end.

(** A branch whose tests contradict each other. *)
Ltac prune :=
  try solve
      [ exfalso;
        match goal with
        | E : _ = true |- _ => cbn in E; discriminate E
        | E : _ = false |- _ => cbn in E; discriminate E
        end ].

Ltac run_cases H :=
  expose H; cbv beta iota zeta in H;
  repeat (split_match H; cbv beta iota zeta in H; try discriminate H; prune).

Ltac close_run H :=
  lazymatch type of H with
  | Ret _ _ = _ => inversion H; subst; clear H
  | Stop _ = _ => first [ discriminate H | inversion H; subst; clear H ]
  end.

(* ===================================================================== *)
(** * What the store records *)
(* ===================================================================== *)

Section StoreFacts.

Lemma txn_commit_calls (d d' : DB) (s : Status) :
  txn_commit d = (s, d') -> calls d' = (OpCommit, s) :: calls d.
Proof.
  unfold txn_commit. destruct (next_fault _) as [[flt|] q].
  - intros [= <- <-]. reflexivity.
  - destruct (apply_batch _ _). intros [= <- <-]. reflexivity.
Qed.

Lemma txn_rollback_calls (d d' : DB) (s : Status) :
  txn_rollback d = (s, d') -> calls d' = (OpRollback, s) :: calls d.
Proof.
  unfold txn_rollback. destruct (next_fault _) as [[flt|] q];
    intros [= <- <-]; reflexivity.
Qed.

Lemma txn_prepare_calls (d d' : DB) (s : Status) :
  txn_prepare d = (s, d') -> calls d' = (OpPrepare, s) :: calls d.
Proof.
  unfold txn_prepare. destruct (next_fault _) as [[flt|] q];
    intros [= <- <-]; reflexivity.
Qed.

Lemma db_write_calls (b : list WriteOp) (d d' : DB) (s : Status) :
  db_write b d = (s, d') -> calls d' = (OpWrite b, s) :: calls d.
Proof.
  unfold db_write. destruct (next_fault _) as [[flt|] q].
  - intros [= <- <-]. reflexivity.
  - destruct (apply_batch _ _). intros [= <- <-]. reflexivity.
Qed.

End StoreFacts.

(* ===================================================================== *)
(** * The end of a transaction *)
(* ===================================================================== *)

(** The failures a commit may end with, by backend family, as the policy
    table of the specification lists them: [Expired] only for a
    pessimistic transaction, a conflict (busy, timed out, try again) only
    for an optimistic one. *)
Definition expected_on_commit (is_optimistic : bool) (s : Status) : bool :=
  if is_optimistic then IsBusy s || IsTimedOut s || IsTryAgain s
  else IsExpired s.

Section Finish.

Variable cfg : Config.

(** What [finish] leaves behind when it returns. *)
Lemma finish_returns (use_txn is_optimistic : bool) (s : Status) (ue : bool)
      (batch : list WriteOp) (w : World) (s' : Status) (ue' : bool)
      (w' : World) :
  finish cfg use_txn is_optimistic s ue batch w = Ret (s', ue') w' ->
  stats w' = stats w /\
  if ok s then
    if use_txn then
      (exists op rest, calls (db w') = (op, s') :: rest /\
                       (op = OpCommit \/ op = OpRollback)) /\
      ue' = ue || (negb (ok s') && negb (expected_on_commit is_optimistic s'))
    else
      (exists rest, calls (db w') = (OpWrite batch, s') :: rest) /\
      ue' = ue || negb (ok s')
  else s' = s /\ ue' = ue.
Proof.
  intros H. unfold finish in H.
  destruct (ok s) eqn:Hs; [destruct use_txn|].
  - run_cases H; close_run H; cbn [stats set_console set_db set_rand db];
      repeat match goal with
             | E : txn_commit _ = _ |- _ => apply txn_commit_calls in E
             | E : txn_rollback _ = _ |- _ => apply txn_rollback_calls in E
             end;
      (split; [reflexivity|]);
      (split; [eauto|]);
      unfold expected_on_commit;
      destruct s' as [[] ?]; cbn in *; try discriminate;
      try destruct ue; try destruct ue'; reflexivity.
  - run_cases H; close_run H; cbn [stats set_console set_db set_rand db];
      match goal with
      | E : db_write _ _ = _ |- _ => apply db_write_calls in E
      end;
      (split; [reflexivity|]);
      (split; [eauto|]);
      destruct s' as [[] ?]; cbn in *; try discriminate;
      try destruct ue; try destruct ue'; reflexivity.
  - run_cases H; close_run H; cbn [stats set_console set_db set_rand db];
      auto.
Qed.

End Finish.

Section FinishStops.

Variable cfg : Config.

(** [finish] never throws and never divides: it can only stop on one of
    its assertions, in a build that has them. *)
Lemma finish_stops (use_txn is_optimistic : bool) (s : Status) (ue : bool)
      (batch : list WriteOp) (w : World) (f : Failure) :
  finish cfg use_txn is_optimistic s ue batch w = Stop f ->
  f = AssertionFailed /\ ndebug cfg = false.
Proof.
  intros H. unfold finish in H.
  run_cases H; close_run H; auto.
Qed.

Lemma tally_returns (s : Status) (w : World) :
  tally s w =
  Ret tt (set_last_status s
            (set_stats ((if ok s then add_success else add_failure) (stats w))
                       w)).
Proof. reflexivity. Qed.

End FinishStops.

(* ===================================================================== *)
(** * The flag, the diagnostics and the counters *)
(* ===================================================================== *)

(** How [unexpected_error] and the console move together: either neither
    changed, or the flag is up and something was printed. *)
Definition flagged (ue ue' : bool) (w w' : World) : Prop :=
  (ue' = ue /\ console w' = console w) \/
  (ue' = true /\
   (List.length (console w) < List.length (console w'))%nat).

Section Flag.

Variable cfg : Config.

Lemma flagged_refl (ue : bool) (w w' : World) :
  console w' = console w -> flagged ue ue w w'.
Proof. intros H. left. auto. Qed.

Lemma flagged_trans (a b c : bool) (w1 w2 w3 : World) :
  flagged a b w1 w2 -> flagged b c w2 w3 -> flagged a c w1 w3.
Proof.
  unfold flagged. intros [[-> E1]|[-> L1]] [[-> E2]|[-> L2]].
  - left. split; congruence.
  - right. split; [reflexivity|]. now rewrite <- E1.
  - right. split; [reflexivity|]. now rewrite E2.
  - right. split; [reflexivity|]. lia.
Qed.

Lemma flagged_print (ue : bool) (w w' : World) (m : Msg) :
  console w' = m :: console w -> flagged ue true w w'.
Proof. intros H. right. rewrite H. cbn. auto. Qed.

Lemma flagged_console (ue' : bool) (w w' : World) :
  flagged false ue' w w' -> (negb ue' = true <-> console w' = console w).
Proof.
  intros [[-> E]|[-> L]]; cbn.
  - tauto.
  - split; [discriminate|]. intros E. rewrite E in L. lia.
Qed.

End Flag.

(** Reduce the projections of a world that was built with the setters. *)
Ltac world_simpl :=
  cbn [rand_ device clock read_snapshot txn_id_ stats last_status_ db console
       set_rand set_device set_read_snapshot set_txn_id set_stats
       set_last_status set_db set_console
       success_count_ failure_count_ bytes_inserted_ bytes_read_ gets_done_
       puts_done_ deletes_done_ found_
       add_success add_failure add_bytes_inserted add_bytes_read add_get
       add_put add_delete add_found List.length fst snd] in *.

Definition same_counts (w w' : World) : Prop :=
  success_count_ (stats w') = success_count_ (stats w) /\
  failure_count_ (stats w') = failure_count_ (stats w).

Ltac flag_auto :=
  unfold flagged, same_counts in *; world_simpl;
  intuition (subst; world_simpl; try congruence; try lia);
  try solve
      [ left; split; congruence
      | right; split; [reflexivity|];
        repeat match goal with
               | E : console _ = _ |- _ => rewrite E
               end;
        cbn [List.length]; lia ].

Section Loops.

Variable cfg : Config.

Lemma insert_loop_returns (use_txn is_optimistic : bool) (incr : N)
      (set_vec : list N) :
  forall (s : Status) (ue : bool) (batch : list WriteOp) (w : World)
         (s' : Status) (ue' : bool) (batch' : list WriteOp) (w' : World),
    insert_loop cfg use_txn is_optimistic incr set_vec s ue batch w
      = Ret (s', ue', batch') w' ->
    same_counts w w' /\ flagged ue ue' w w'.
Proof.
  induction set_vec as [|set_i rest IH]; intros s ue batch w s' ue' batch' w' H.
  - cbn [insert_loop] in H. run_cases H. close_run H. flag_auto.
  - cbn [insert_loop] in H. unfold DBGet in H.
    run_cases H;
      first [ close_run H | apply IH in H; destruct H as (S1 & F1) ];
      flag_auto.
Qed.

(** A step that only consumes random draws. *)
Definition draws_only (w w' : World) : Prop :=
  w' = set_device (device w') (set_rand (rand_ w') w).

Lemma draws_only_refl (w : World) : draws_only w w.
Proof. unfold draws_only. now destruct w. Qed.

Lemma draws_only_trans (w1 w2 w3 : World) :
  draws_only w1 w2 -> draws_only w2 w3 -> draws_only w1 w3.
Proof.
  unfold draws_only. intros H1 H2. rewrite H2 at 1. rewrite H1 at 1.
  reflexivity.
Qed.

Lemma draws_only_frame (w w' : World) :
  draws_only w w' ->
  stats w' = stats w /\ console w' = console w /\ db w' = db w /\
  read_snapshot w' = read_snapshot w /\ last_status_ w' = last_status_ w /\
  txn_id_ w' = txn_id_ w /\ clock w' = clock w.
Proof. unfold draws_only. intros ->. repeat split. Qed.

Lemma Next_draws (w : World) (x : N) (w' : World) :
  Next w = Ret x w' -> draws_only w w'.
Proof.
  intros H. run_cases H. close_run H. unfold draws_only. now destruct w.
Qed.

Lemma Uniform_draws (n : N) (w : World) (x : N) (w' : World) :
  Uniform n w = Ret x w' -> draws_only w w'.
Proof.
  intros H. run_cases H; close_run H; unfold draws_only; now destruct w.
Qed.

Lemma OneIn_draws (n : N) (w : World) (x : bool) (w' : World) :
  OneIn n w = Ret x w' -> draws_only w w'.
Proof.
  intros H. run_cases H; close_run H; unfold draws_only; now destruct w.
Qed.

Lemma device_pick_draws (n : N) (w : World) (x : N) (w' : World) :
  device_pick n w = Ret x w' -> draws_only w w'.
Proof.
  intros H. run_cases H; close_run H; unfold draws_only; now destruct w.
Qed.

Lemma shuffle_loop_draws (pick : N -> M N) :
  (forall n w x w', pick n w = Ret x w' -> draws_only w w') ->
  forall (count i : nat) (l : list N) (w : World) (l' : list N) (w' : World),
    shuffle_loop pick i count l w = Ret l' w' -> draws_only w w'.
Proof.
  intros Hp. induction count as [|c IH]; intros i l w l' w' H.
  - cbn in H. unfold ret in H. close_run H. apply draws_only_refl.
  - cbn [shuffle_loop] in H. apply bind_Ret in H.
    destruct H as (j & w1 & Hj & H).
    eapply draws_only_trans; [eapply Hp; exact Hj|].
    eapply IH; exact H.
Qed.

Lemma std_shuffle_draws (l : list N) (w : World) (l' : list N) (w' : World) :
  std_shuffle l w = Ret l' w' -> draws_only w w'.
Proof. apply shuffle_loop_draws. exact device_pick_draws. Qed.

Lemma random_shuffle_draws (l : list N) (w : World) (l' : list N)
      (w' : World) :
  random_shuffle l w = Ret l' w' -> draws_only w w'.
Proof. apply shuffle_loop_draws. exact Uniform_draws. Qed.

Lemma insert_phase_returns (use_txn is_optimistic : bool) (w : World)
      (s' : Status) (ue' : bool) (batch' : list WriteOp) (w' : World) :
  insert_phase cfg use_txn is_optimistic w = Ret (s', ue', batch') w' ->
  same_counts w w' /\ flagged false ue' w w'.
Proof.
  intros H. unfold insert_phase in H.
  apply bind_Ret in H. destruct H as (r & w1 & H1 & H).
  apply bind_Ret in H. destruct H as (sv & w2 & H2 & H).
  apply Next_draws, draws_only_frame in H1.
  apply std_shuffle_draws, draws_only_frame in H2.
  apply insert_loop_returns in H.
  destruct H1 as (A1 & B1 & _), H2 as (A2 & B2 & _).
  unfold same_counts, flagged in *. rewrite A2, A1, B2, B1 in H. exact H.
Qed.

Lemma insert_loop_TO_returns (use_txn : bool) (incr : N) (set_vec : list N) :
  forall (s : Status) (ue : bool) (w : World)
         (s' : Status) (ue' : bool) (w' : World),
    insert_loop_TO cfg use_txn incr set_vec s ue w = Ret (s', ue') w' ->
    same_counts w w' /\ flagged ue ue' w w'.
Proof.
  induction set_vec as [|set_i rest IH]; intros s ue w s' ue' w' H.
  - cbn [insert_loop_TO] in H. run_cases H. close_run H. flag_auto.
  - cbn [insert_loop_TO] in H. unfold DBGet_TO, DBGet in H.
    run_cases H;
      first [ close_run H | apply IH in H; destruct H as (S1 & F1) ];
      flag_auto.
Qed.

Lemma insert_phase_TO_returns (use_txn : bool) (w : World)
      (s' : Status) (ue' : bool) (w' : World) :
  insert_phase_TO cfg use_txn w = Ret (s', ue') w' ->
  same_counts w w' /\ flagged false ue' w w'.
Proof.
  intros H. unfold insert_phase_TO in H.
  apply bind_Ret in H. destruct H as (r & w1 & H1 & H).
  apply bind_Ret in H. destruct H as (sv & w2 & H2 & H).
  apply Next_draws, draws_only_frame in H1.
  apply random_shuffle_draws, draws_only_frame in H2.
  apply insert_loop_TO_returns in H.
  destruct H1 as (A1 & B1 & _), H2 as (A2 & B2 & _).
  unfold same_counts, flagged in *. rewrite A2, A1, B2, B1 in H. exact H.
Qed.

(** [finish] prints exactly when it raises the flag. *)
Lemma finish_flagged (use_txn is_optimistic : bool) (s : Status) (ue : bool)
      (batch : list WriteOp) (w : World) (s' : Status) (ue' : bool)
      (w' : World) :
  finish cfg use_txn is_optimistic s ue batch w = Ret (s', ue') w' ->
  flagged ue ue' w w'.
Proof.
  intros H. unfold finish in H.
  run_cases H; close_run H; flag_auto.
Qed.

Lemma finish_TO_returns (use_txn : bool) (s : Status) (w : World)
      (s' : Status) (w' : World) :
  finish_TO cfg use_txn s w = Ret s' w' ->
  stats w' = stats w /\ console w' = console w.
Proof.
  intros H. unfold finish_TO in H.
  run_cases H; close_run H; world_simpl; auto.
Qed.

End Loops.

Section WriteRandom.

Variable cfg : Config.

Lemma write_turn_returns (h : nat) (set_i : N) (t : Turn) (w : World)
      (leave : bool) (t' : Turn) (w' : World) :
  write_turn cfg h set_i t w = Ret (leave, t') w' -> same_counts w w'.
Proof.
  intros H. unfold write_turn, end_of_turn, Generate in H.
  run_cases H; close_run H; flag_auto.
Qed.

Lemma write_loop_returns (h : nat) (set_vec : list N) :
  forall (t : Turn) (w : World) (t' : Turn) (w' : World),
    write_loop cfg h set_vec t w = Ret t' w' -> same_counts w w'.
Proof.
  induction set_vec as [|set_i rest IH]; intros t w t' w' H.
  - cbn [write_loop] in H. run_cases H. close_run H. flag_auto.
  - cbn [write_loop] in H. apply bind_Ret in H.
    destruct H as ([leave t1] & w1 & H1 & H).
    apply write_turn_returns in H1. destruct leave.
    + run_cases H. close_run H. exact H1.
    + apply IH in H. flag_auto.
Qed.

Lemma choose_sets_draws (w : World) (l : list N) (w' : World) :
  choose_sets cfg w = Ret l w' -> draws_only w w'.
Proof.
  intros H. unfold choose_sets in H.
  apply bind_Ret in H. destruct H as (r & w1 & H1 & H).
  apply bind_Ret in H. destruct H as (m & w2 & H2 & H).
  apply Next_draws in H1. apply random_shuffle_draws in H.
  run_cases H2. close_run H2.
  eapply draws_only_trans; eassumption.
Qed.

(** The end of [DoWriteRandom]: a commit that answered OK and [true], or
    a rollback and [false]. *)
Lemma write_finish_returns (t : Turn) (w : World) (b : bool) (w' : World) :
  write_finish cfg t w = Ret b w' ->
  (b = true /\
   success_count_ (stats w') = success_count_ (stats w) + 1 /\
   failure_count_ (stats w') = failure_count_ (stats w) /\
   exists st rest, calls (db w') = (OpCommit, st) :: rest /\ ok st = true) \/
  (b = false /\
   success_count_ (stats w') = success_count_ (stats w) /\
   failure_count_ (stats w') = failure_count_ (stats w) + 1 /\
   exists st rest, calls (db w') = (OpRollback, st) :: rest).
Proof.
  intros H. unfold write_finish in H.
  run_cases H; close_run H; world_simpl;
    repeat match goal with
           | E : txn_commit _ = _ |- _ => apply txn_commit_calls in E
           | E : txn_rollback _ = _ |- _ => apply txn_rollback_calls in E
           end;
    first [ left; repeat split; eauto; fail
          | right; repeat split; eauto ].
Qed.

Lemma DoWriteRandom_body_returns (h : nat) (gen : RandomGenerator)
      (w : World) (b : bool) (w' : World) :
  DoWriteRandom_body cfg h gen w = Ret b w' ->
  (b = true /\
   success_count_ (stats w') = success_count_ (stats w) + 1 /\
   failure_count_ (stats w') = failure_count_ (stats w) /\
   exists st rest, calls (db w') = (OpCommit, st) :: rest /\ ok st = true) \/
  (b = false /\
   success_count_ (stats w') = success_count_ (stats w) /\
   failure_count_ (stats w') = failure_count_ (stats w) + 1 /\
   exists st rest, calls (db w') = (OpRollback, st) :: rest).
Proof.
  intros H. unfold DoWriteRandom_body in H.
  apply bind_Ret in H. destruct H as (sv & w1 & H1 & H).
  apply bind_Ret in H. destruct H as (t & w2 & H2 & H).
  apply choose_sets_draws, draws_only_frame in H1. destruct H1 as (A1 & _).
  apply write_loop_returns in H2. destruct H2 as (B1 & B2).
  apply write_finish_returns in H.
  rewrite A1 in B1, B2. rewrite B1, B2 in H. exact H.
Qed.

(** The constructor of [RandomGenerator] appends an empty [piece] to an
    empty [data_] and waits for a million characters: no amount of fuel
    is enough. *)
Lemma RandomGenerator_fill_empty (fuel : nat) :
  RandomGenerator_fill fuel "" "" = None.
Proof. induction fuel as [|f IH]; [reflexivity|]. cbn. exact IH. Qed.

Lemma DoWriteRandom_never_returns (fuel h : nat) (w : World) :
  DoWriteRandom cfg fuel h w = Stop OutOfFuel.
Proof.
  unfold DoWriteRandom, RandomGenerator_new, bind.
  now rewrite RandomGenerator_fill_empty.
Qed.

End WriteRandom.

Section Whole.

Variable cfg : Config.

(** [DoInsert] taken apart. *)
Lemma DoInsert_returns (use_txn is_optimistic : bool) (w : World) (b : bool)
      (w' : World) :
  DoInsert cfg use_txn is_optimistic w = Ret b w' ->
  exists s ue batch w1 s' ue' w2,
    insert_phase cfg use_txn is_optimistic w = Ret (s, ue, batch) w1 /\
    finish cfg use_txn is_optimistic s ue batch w1 = Ret (s', ue') w2 /\
    b = negb ue' /\
    w' = set_last_status s'
           (set_stats ((if ok s' then add_success else add_failure) (stats w2))
                      w2).
Proof.
  intros H. unfold DoInsert in H.
  apply bind_Ret in H. destruct H as ([[s ue] batch] & w1 & H1 & H).
  apply bind_Ret in H. destruct H as ([s' ue'] & w2 & H2 & H).
  rewrite (bind_eq _ _ _ _ _ (tally_returns s' w2)) in H.
  unfold ret in H. injection H as <- <-.
  exists s, ue, batch, w1, s', ue', w2. auto.
Qed.

Lemma DoInsert_TO_returns (use_txn : bool) (w : World) (b : bool)
      (w' : World) :
  DoInsert_TO cfg use_txn w = Ret b w' ->
  exists s ue w1 s' w2,
    insert_phase_TO cfg use_txn w = Ret (s, ue) w1 /\
    finish_TO cfg use_txn s w1 = Ret s' w2 /\
    b = negb ue /\
    w' = set_last_status s'
           (set_stats ((if ok s' then add_success else add_failure) (stats w2))
                      w2).
Proof.
  intros H. unfold DoInsert_TO in H.
  apply bind_Ret in H. destruct H as ([s ue] & w1 & H1 & H).
  apply bind_Ret in H. destruct H as (s' & w2 & H2 & H).
  rewrite (bind_eq _ _ _ _ _ (tally_returns s' w2)) in H.
  unfold ret in H. injection H as <- <-.
  exists s, ue, w1, s', w2. auto.
Qed.

(** One more success when the last status is OK, one more failure
    otherwise. *)
Definition counted (by_status : bool) (w w' : World) : Prop :=
  if by_status
  then success_count_ (stats w') = success_count_ (stats w) + 1 /\
       failure_count_ (stats w') = failure_count_ (stats w)
  else success_count_ (stats w') = success_count_ (stats w) /\
       failure_count_ (stats w') = failure_count_ (stats w) + 1.

Lemma DoInsert_counted (use_txn is_optimistic : bool) (w : World) (b : bool)
      (w' : World) :
  DoInsert cfg use_txn is_optimistic w = Ret b w' ->
  counted (ok (last_status_ w')) w w'.
Proof.
  intros H. apply DoInsert_returns in H.
  destruct H as (s & ue & batch & w1 & s' & ue' & w2 & H1 & H2 & -> & ->).
  apply insert_phase_returns in H1. destruct H1 as ((A1 & A2) & _).
  apply finish_returns in H2. destruct H2 as (B & _).
  unfold counted. world_simpl. rewrite B.
  destruct (ok s'); world_simpl; split; congruence.
Qed.

Lemma DoInsert_TO_counted (use_txn : bool) (w : World) (b : bool)
      (w' : World) :
  DoInsert_TO cfg use_txn w = Ret b w' ->
  counted (ok (last_status_ w')) w w'.
Proof.
  intros H. apply DoInsert_TO_returns in H.
  destruct H as (s & ue & w1 & s' & w2 & H1 & H2 & -> & ->).
  apply insert_phase_TO_returns in H1. destruct H1 as ((A1 & A2) & _).
  apply finish_TO_returns in H2. destruct H2 as (B & _).
  unfold counted. world_simpl. rewrite B.
  destruct (ok s'); world_simpl; split; congruence.
Qed.

End Whole.

(* ===================================================================== *)
(** * A pessimistic [Commit] that fails *)
(* ===================================================================== *)

Module Scenario2.

(** A pessimistic transaction over two sets whose commit answers
    [Expired]: incr 5, keys 3 and 6, plain reads, prepare, commit. *)
Definition commit_expires : World :=
  world [4; 3; 1; 6; 1; 1; 1] [0]
        (store [] (mkFaults [] [] [] [] [Expired] [] [] [])).

(** The same transaction on a store whose first [Put] answers with an
    I/O error and whose commit answers [Expired]. *)
Definition flagged_then_expires : World :=
  world [4; 3; 1; 6; 1; 1; 1] [0]
        (store [] (mkFaults [] [IOError] [] [] [Expired] [] [] [])).

End Scenario2.

Import Scenario2.

Section FailedCommit.

Variable cfg : Config.

Lemma OneIn_value (n : N) (w : World) :
  n <> 0 ->
  OneIn n w = Ret (first_draw w mod n =? 0) (set_rand (snd (pop (rand_ w))) w).
Proof.
  intros Hn. unfold OneIn, Uniform, Next, bind, ret, first_draw.
  destruct (pop (rand_ w)) as [x r]. cbn [fst snd].
  destruct (N.eqb_spec n 0); [contradiction|reflexivity].
Qed.

(** A pessimistic [Commit] that failed is only survived without
    assertions: line 554 is [assert(is_optimistic || s.ok())]. *)
Lemma failed_commit_needs_ndebug (s : Status) (ue : bool)
      (batch : list WriteOp) (w : World) (s' : Status) (ue' : bool)
      (w' : World) :
  finish cfg true false s ue batch w = Ret (s', ue') w' ->
  ok s = true -> ok s' = false -> ndebug cfg = true.
Proof.
  intros H Hs Hs'. unfold finish in H. rewrite Hs in H.
  destruct (ndebug cfg) eqn:Hn; [reflexivity|exfalso].
  run_cases H; close_run H; cbn in *; congruence.
Qed.

(** Lines 540-570 when [Commit] is reached and answers with a failure:
    the second draw after the loop does not ask for the rollback, and
    the store has [cs] ready for [Commit]. *)
Lemma finish_failed_commit (s : Status) (ue : bool) (batch : list WriteOp)
      (w : World) (cs : Status) (q : list Status) :
  ok s = true ->
  second_draw w mod 20 <> 0 ->
  f_commit (faults (db w)) = cs :: q -> is_failure cs = true ->
  (ndebug cfg = true ->
   exists w',
     finish cfg true false s ue batch w
     = Ret (cs, ue || negb (IsExpired cs)) w' /\
     (exists rest, calls (db w') = (OpCommit, cs) :: rest) /\
     stats w' = stats w) /\
  (ndebug cfg = false ->
   finish cfg true false s ue batch w = Stop AssertionFailed).
Proof.
  intros Hs Hd Hq Hcs.
  assert (Hok : ok cs = false).
  { unfold is_failure in Hcs. destruct (ok cs); [discriminate|reflexivity]. }
  assert (Hcommit : forall d,
             f_commit (faults d) = cs :: q ->
             txn_commit d
             = (cs, record_call OpCommit cs
                      (set_faults (with_commit q (faults d)) d))).
  { intros d Hd'. unfold txn_commit. rewrite Hd'. cbn [next_fault].
    rewrite Hcs. reflexivity. }
  unfold second_draw in Hd.
  unfold finish. rewrite Hs. cbv iota.
  unfold OneIn, Uniform, Next, on_db, fprintf, modify, assert_, ret, bind, stop.
  destruct (pop (rand_ w)) as [x1 r1] eqn:P1. cbn [fst snd] in Hd.
  cbn [rand_ set_rand db set_db].
  destruct (pop r1) as [x2 r2] eqn:P2. cbn [fst snd] in Hd.
  assert (Hprep : forall d sp dp,
             txn_prepare d = (sp, dp) ->
             f_commit (faults dp) = f_commit (faults d)).
  { intros d sp dp Ep. unfold txn_prepare in Ep.
    destruct (next_fault (f_prepare (faults d))) as [[flt|] qp];
      injection Ep as <- <-; reflexivity. }
  assert (Hx : (x2 mod 20 =? 0) = false) by now apply N.eqb_neq.
  change (10 =? 0) with false. change (20 =? 0) with false. cbv iota.
  split; intros Hn; rewrite Hn; destruct (x1 mod 10 =? 0); cbn [negb].
  - cbv beta iota. cbn [rand_ set_rand db set_db].
    rewrite P2, Hx. cbn [negb rand_ set_rand db set_db].
    rewrite (Hcommit _ Hq), Hok. cbn [negb].
    destruct (IsExpired cs), ue; cbn [negb orb];
      (eexists; split; [reflexivity|]; cbn; eauto).
  - cbv beta iota. cbn [rand_ set_rand db set_db].
    destruct (txn_prepare (db w)) as [sp dp] eqn:Ep.
    pose proof (Hprep _ _ _ Ep) as Hqp. rewrite Hq in Hqp.
    cbv beta iota. cbn [rand_ set_rand set_db db]. rewrite P2, Hx.
    cbn [negb rand_ set_rand db set_db].
    rewrite (Hcommit _ Hqp), Hok. cbn [negb].
    destruct (IsExpired cs), ue; cbn [negb orb];
      (eexists; split; [reflexivity|]; cbn; eauto).
  - cbv beta iota. cbn [rand_ set_rand db set_db].
    rewrite P2, Hx. cbn [negb rand_ set_rand db set_db].
    rewrite (Hcommit _ Hq), Hok. reflexivity.
  - cbv beta iota. cbn [rand_ set_rand db set_db].
    destruct (txn_prepare (db w)) as [sp dp] eqn:Ep.
    pose proof (Hprep _ _ _ Ep) as Hqp. rewrite Hq in Hqp.
    cbv beta iota. cbn [rand_ set_rand set_db db].
    destruct (ok sp); [|reflexivity].
    cbv beta iota. cbn [rand_ set_rand set_db db]. rewrite P2, Hx.
    cbn [negb rand_ set_rand db set_db].
    rewrite (Hcommit _ Hqp), Hok. reflexivity.
Qed.

End FailedCommit.

(** C2, as the specification states it, fails twice.  In a build with
    assertions the run [commit_expires], whose [Commit] answers
    [Expired], is not classified at all: it stops on
    [assert(is_optimistic || s.ok())].  And without assertions the run
    [flagged_then_expires], whose loop ended with status OK and whose
    [Commit] answers [Expired], returns [false]: the flag raised for the
    [Put] is still up. *)
Lemma expired_commit_stops_or_stays_flagged :
  DoInsert (config false 2) true false commit_expires
  = Stop AssertionFailed /\
  let o := DoInsert (config true 2) true false flagged_then_expires in
  returned o = Some false /\
  option_map history (final o) =
    Some [(OpGet false None "00023", Status.kNotFound);
          (OpPut None "00023" "5", Status.kIOError);
          (OpGet false None "00016", Status.kNotFound);
          (OpPut None "00016" "5", Status.kOk);
          (OpPrepare, Status.kOk);
          (OpCommit, Status.kExpired)] /\
  option_map last_status_ (final o) = Some Expired.
Proof. vm_compute. repeat split. Qed.

(** C2, amended.  A pessimistic run of [DoInsert] whose loop ended with
    status OK, leaving the flag at [ue].  Whenever such a run returns
    after a [Commit] that answered with a failure [cs], the build has no
    assertions, the run returns [false] exactly when [ue] was up or [cs]
    is not [Expired], [last_status_] is [cs] and a failure is counted;
    and a run that does not return stopped on an assertion.  When
    [Commit] is reached (the rollback is not drawn) and the store
    answers it with the failure [cs]: without assertions the run returns
    just that, and with assertions it stops on an assertion, whatever
    [cs] is, [Expired] included. *)
Theorem commit_failure_unexpected_unless_expired
        (cfg : Config) (w : World) (s : Status) (ue : bool)
        (batch : list WriteOp) (w1 : World) :
  insert_phase cfg true false w = Ret (s, ue, batch) w1 ->
  ok s = true ->
  match DoInsert cfg true false w with
  | Ret b w' =>
      forall cs rest,
        calls (db w') = (OpCommit, cs) :: rest ->
        ok cs = false ->
        ndebug cfg = true /\
        b = negb ue && IsExpired cs /\
        (b = false <-> ue = true \/ IsExpired cs = false) /\
        last_status_ w' = cs /\
        counted false w w'
  | Stop f => f = AssertionFailed /\ ndebug cfg = false
  end /\
  (forall cs q,
      second_draw w1 mod 20 <> 0 ->
      f_commit (faults (db w1)) = cs :: q -> is_failure cs = true ->
      (ndebug cfg = true ->
       exists w',
         DoInsert cfg true false w = Ret (negb ue && IsExpired cs) w' /\
         (exists rest, calls (db w') = (OpCommit, cs) :: rest) /\
         last_status_ w' = cs /\ counted false w w') /\
      (ndebug cfg = false ->
       DoInsert cfg true false w = Stop AssertionFailed)).
Proof.
  intros Hloop Hs.
  pose proof (insert_phase_returns cfg _ _ _ _ _ _ _ Hloop) as ((K1 & K2) & _).
  split.
  - unfold DoInsert.
    rewrite (bind_eq _ _ _ _ _ Hloop). cbv beta iota.
    destruct (finish cfg true false s ue batch w1) as [[s' ue'] w2|f] eqn:Hf.
    + rewrite (bind_eq _ _ _ _ _ Hf). cbv beta iota.
      rewrite (bind_eq _ _ _ _ _ (tally_returns s' w2)). unfold ret.
      intros cs rest Hcalls Hcs.
      pose proof (finish_returns cfg _ _ _ _ _ _ _ _ _ Hf) as R.
      rewrite Hs in R.
      destruct R as (St & (op & rest' & Hc & _) & Hue).
      cbn in Hcalls. rewrite Hc in Hcalls. injection Hcalls as _ -> _.
      split; [exact (failed_commit_needs_ndebug cfg _ _ _ _ _ _ _ Hf Hs Hcs)|].
      unfold counted.
      cbn [last_status_ set_last_status stats set_stats].
      subst ue'. unfold expected_on_commit. rewrite Hcs, St. cbn [negb andb].
      world_simpl. rewrite K1, K2.
      destruct ue, (IsExpired cs); cbn; repeat split; auto;
        try discriminate; intros [H|H]; discriminate H.
    + rewrite (bind_stop _ _ _ _ Hf). now apply finish_stops in Hf.
  - intros cs q Hd Hq Hcs.
    destruct (finish_failed_commit cfg s ue batch w1 cs q Hs Hd Hq Hcs)
      as (A & B).
    split; intros Hn.
    + destruct (A Hn) as (w2 & E & C & St).
      unfold DoInsert. rewrite (bind_eq _ _ _ _ _ Hloop). cbv beta iota.
      rewrite (bind_eq _ _ _ _ _ E). cbv beta iota.
      rewrite (bind_eq _ _ _ _ _ (tally_returns cs w2)). unfold ret.
      assert (Hb : negb (ue || negb (IsExpired cs)) = negb ue && IsExpired cs)
        by (destruct ue, (IsExpired cs); reflexivity).
      rewrite Hb. eexists. split; [reflexivity|].
      split; [exact C|]. split; [reflexivity|].
      assert (Hok : ok cs = false).
      { unfold is_failure in Hcs. destruct (ok cs); [discriminate|reflexivity]. }
      unfold counted. rewrite Hok. world_simpl. rewrite St, K1, K2.
      split; reflexivity.
    + unfold DoInsert. rewrite (bind_eq _ _ _ _ _ Hloop). cbv beta iota.
      apply bind_stop. exact (B Hn).
Qed.

Lemma commit_failure_unexpected_unless_expired_witness :
  (exists w',
     DoInsert (config true 2) true false commit_expires = Ret true w' /\
     last_status_ w' = Expired) /\
  DoInsert (config false 2) true false commit_expires = Stop AssertionFailed.
Proof.
  assert (W : forall nd,
             {w1 | insert_phase (config nd 2) true false commit_expires
                   = Ret (Status.OK, false, []) w1}).
  { intros []; eexists; vm_compute; reflexivity. }
  assert (Hs : ok Status.OK = true) by reflexivity.
  assert (He : is_failure Expired = true) by reflexivity.
  split.
  - destruct (W true) as (w1 & H).
    assert (Hd : second_draw w1 mod 20 <> 0).
    { vm_compute in H. injection H as <-. vm_compute. discriminate. }
    assert (Hq : f_commit (faults (db w1)) = [Expired]).
    { vm_compute in H. injection H as <-. reflexivity. }
    assert (Hn : ndebug (config true 2) = true) by reflexivity.
    pose proof (commit_failure_unexpected_unless_expired
                              (config true 2) commit_expires Status.OK false
                              [] w1 H Hs) as T.
    destruct T as (_ & T).
    destruct (proj1 (T Expired [] Hd Hq He) Hn)
      as (w' & E & _ & L & _).
    exists w'. split; [exact E|exact L].
  - destruct (W false) as (w1 & H).
    assert (Hd : second_draw w1 mod 20 <> 0).
    { vm_compute in H. injection H as <-. vm_compute. discriminate. }
    assert (Hq : f_commit (faults (db w1)) = [Expired]).
    { vm_compute in H. injection H as <-. reflexivity. }
    assert (Hn : ndebug (config false 2) = false) by reflexivity.
    pose proof (commit_failure_unexpected_unless_expired
                           (config false 2) commit_expires Status.OK false
                           [] w1 H Hs) as T.
    destruct T as (_ & T).
    exact (proj2 (T Expired [] Hd Hq He) Hn).
Defined.


Module Scenario3.

(** [DoWriteRandom] past the generator: one set, a [Put] (the read and
    delete percentages are zero) that the store answers with [Busy]. *)
Definition busy_put : World :=
  world [0; 50; 3] [] (store [] (mkFaults [] [Busy] [] [] [] [] [] [])).

Definition some_generator : RandomGenerator := mkGen "0123456789" 0.

(** A [TOTransaction] over two sets, keys 3 and 6, whose commit answers
    with an I/O error. *)
Definition commit_io_error : World :=
  world [4; 1; 3; 6; 1] []
        (store [] (mkFaults [] [] [] [] [IOError] [] [] [])).

(** With assertions, and with NDEBUG. *)
Definition in_both_builds (P : bool -> Prop) : Prop := P false /\ P true.

End Scenario3.

Import Scenario3.

(** C8, as the specification states it, fails: the run [rolls_back] ends
    in the deliberate rollback, and it is the success counter that
    moves. *)
Lemma random_rollback_counted_as_success :
  in_both_builds (fun nd =>
    let o := DoInsert (config nd 2) true false rolls_back in
    option_map history (final o) =
      Some [(OpGet false None "00023", Status.kNotFound);
            (OpPut None "00023" "5", Status.kOk);
            (OpGet false None "00016", Status.kNotFound);
            (OpPut None "00016" "5", Status.kOk);
            (OpPrepare, Status.kOk);
            (OpRollback, Status.kOk)] /\
    option_map counts (final o) = Some (1, 0) /\
    option_map counts (final o) <> Some (0, 1)).
Proof. split; vm_compute; repeat split; discriminate. Qed.

(** C3, as the specification states it, fails twice.  [DoWriteRandom]
    returns [false] for a conflict: in [busy_put] the only [Put] answers
    [Busy] and the run is rolled back.  And the [TOTransaction] overload
    of [DoInsert] does not return [false] when [Commit] fails with an I/O
    error, which no family expects: it returns [true] under NDEBUG and
    dies on [assert(s.ok())] otherwise. *)
Lemma insert_entry_points_misreport :
  in_both_builds (fun nd =>
    let o := DoWriteRandom_body (config nd 1) 0 some_generator busy_put in
    option_map history (final o) =
      Some [(OpPut None "00013" "0123456789", Status.kBusy);
            (OpRollback, Status.kOk)] /\
    returned o = Some false /\ returned o <> Some true) /\
  in_both_builds (fun nd =>
    let o := DoInsert_TO (config nd 2) true commit_io_error in
    returned o = (if nd then Some true else None) /\
    returned o <> Some false) /\
  option_map history
    (final (DoInsert_TO (config true 2) true commit_io_error)) =
    Some [(OpGet false None "00013", Status.kNotFound);
          (OpPut None "00013" "5", Status.kOk);
          (OpGet false None "00026", Status.kNotFound);
          (OpPut None "00026" "5", Status.kOk);
          (OpSetCommitTimeStamp 0, Status.kOk);
          (OpCommit, Status.kIOError)].
Proof.
  repeat split; vm_compute; try reflexivity; discriminate.
Qed.

(** C3, amended.  [DoInsert], in both overloads, returns [false] exactly
    when it printed a diagnostic, which is when it raised
    [unexpected_error].  When its loop raised nothing, the [Transaction]
    overload returns [true] if the loop stopped on a failed status, and
    otherwise if the last status (of [Commit], of the deliberate
    [Rollback], of [Write]) is OK or, for a transaction, a failure its
    family expects on commit.  The [TOTransaction] overload returns what
    its loop decided, whatever [Commit] answers.  The code of
    [DoWriteRandom] that follows the generator returns [true] exactly
    when [Commit] answered OK, and [false] when it rolled back, for
    whatever reason. *)
Theorem insert_return_values (cfg : Config) :
  (forall use_txn is_optimistic w b w',
      DoInsert cfg use_txn is_optimistic w = Ret b w' ->
      (b = true <-> console w' = console w)) /\
  (forall use_txn w b w',
      DoInsert_TO cfg use_txn w = Ret b w' ->
      (b = true <-> console w' = console w)) /\
  (forall use_txn is_optimistic w s batch w1 b w',
      insert_phase cfg use_txn is_optimistic w = Ret (s, false, batch) w1 ->
      DoInsert cfg use_txn is_optimistic w = Ret b w' ->
      b = if ok s
          then ok (last_status_ w') ||
               (use_txn && expected_on_commit is_optimistic (last_status_ w'))
          else true) /\
  (forall use_txn w s ue w1 b w',
      insert_phase_TO cfg use_txn w = Ret (s, ue) w1 ->
      DoInsert_TO cfg use_txn w = Ret b w' ->
      b = negb ue) /\
  (forall h gen w b w',
      DoWriteRandom_body cfg h gen w = Ret b w' ->
      (b = true /\
       exists st rest, calls (db w') = (OpCommit, st) :: rest /\
                       ok st = true) \/
      (b = false /\
       exists st rest, calls (db w') = (OpRollback, st) :: rest)).
Proof.
  repeat apply conj.
  - intros use_txn is_optimistic w b w' H. apply DoInsert_returns in H.
    destruct H as (s & ue & batch & w1 & s' & ue' & w2 & H1 & H2 & -> & ->).
    apply insert_phase_returns in H1. destruct H1 as (_ & F1).
    apply finish_flagged in H2.
    pose proof (flagged_trans _ _ _ _ _ _ F1 H2) as F.
    world_simpl. now apply flagged_console.
  - intros use_txn w b w' H. apply DoInsert_TO_returns in H.
    destruct H as (s & ue & w1 & s' & w2 & H1 & H2 & -> & ->).
    apply insert_phase_TO_returns in H1. destruct H1 as (_ & F1).
    apply finish_TO_returns in H2. destruct H2 as (_ & C).
    world_simpl. rewrite C. now apply flagged_console.
  - intros use_txn is_optimistic w s batch w1 b w' Hp H.
    apply DoInsert_returns in H.
    destruct H as (s0 & ue & batch0 & w0 & s' & ue' & w2 & H1 & H2 & -> & ->).
    rewrite Hp in H1. injection H1 as <- <- <- <-.
    apply finish_returns in H2. destruct H2 as (_ & H2). world_simpl.
    destruct (ok s); [destruct use_txn|].
    + destruct H2 as (_ & ->).
      destruct (ok s'), (expected_on_commit is_optimistic s'); reflexivity.
    + destruct H2 as (_ & ->). destruct (ok s'); reflexivity.
    + destruct H2 as (_ & ->). reflexivity.
  - intros use_txn w s ue w1 b w' Hp H.
    apply DoInsert_TO_returns in H.
    destruct H as (s0 & ue0 & w0 & s' & w2 & H1 & H2 & -> & ->).
    rewrite Hp in H1. now injection H1 as <- <- <-.
  - intros h gen w b w' H. apply DoWriteRandom_body_returns in H.
    destruct H as [(-> & _ & _ & E)|(-> & _ & _ & E)]; auto.
Qed.

Lemma insert_return_values_witness :
  exists w',
    DoInsert (config false 2) true false put_fails = Ret false w' /\
    (false = true <-> console w' = console put_fails).
Proof.
  assert (H : {w' | DoInsert (config false 2) true false put_fails
                    = Ret false w'}).
  { eexists. vm_compute. reflexivity. }
  destruct H as [w' H]. exists w'. split; [exact H|].
  exact (proj1 (insert_return_values (config false 2))
               true false put_fails false w' H).
Defined.

(* ===================================================================== *)
(** * Verify: what stops it *)
(* ===================================================================== *)

Section VerifyStops.

Variable cfg : Config.

Lemma verify_sets_app (sn : option Snapshot) (nkps : N) (has_rand : bool)
      (l1 l2 : list N) :
  forall (p : Prev) (w : World),
    verify_sets cfg sn nkps has_rand (l1 ++ l2) p w =
    match verify_sets cfg sn nkps has_rand l1 p w with
    | Ret (inl s) w1 => Ret (inl s) w1
    | Ret (inr p1) w1 => verify_sets cfg sn nkps has_rand l2 p1 w1
    | Stop f => Stop f
    end.
Proof.
  induction l1 as [|set_i rest IH]; intros p w.
  - reflexivity.
  - cbn [List.app verify_sets]. unfold bind.
    destruct (set_total cfg sn nkps has_rand set_i w) as [[total|] w1|f];
      try reflexivity.
    destruct (prev_assigned p && negb (total =? prev_total p)).
    + unfold fprintf, modify, ret. reflexivity.
    + apply IH.
Qed.

(** The locals of the loop after a set was accepted. *)
Lemma verify_sets_last (sn : option Snapshot) (nkps : N) (has_rand : bool)
      (pre : list N) (prev : N) (p0 p1 : Prev) (w0 w1 : World) :
  verify_sets cfg sn nkps has_rand (pre ++ [prev]) p0 w0 = Ret (inr p1) w1 ->
  prev_i p1 = prev /\ prev_assigned p1 = true /\
  exists wa, set_total cfg sn nkps has_rand prev wa
             = Ret (Some (prev_total p1)) w1.
Proof.
  rewrite verify_sets_app.
  destruct (verify_sets cfg sn nkps has_rand pre p0 w0) as [[s|pa] wa|f];
    try discriminate.
  cbn [verify_sets]. intros H.
  apply bind_Ret in H. destruct H as (r & wb & Hr & H).
  destruct r as [total|]; [|discriminate].
  destruct (prev_assigned pa && negb (total =? prev_total pa)).
  - run_cases H. discriminate.
  - unfold ret in H. injection H as <- <-. cbn. eauto.
Qed.



End VerifyStops.

Section VerifyReports.

Variable cfg : Config.

Lemma assert_set_passes (set_i : N) (w : World) :
  ndebug cfg = true \/ set_i < 9999 ->
  assert_ cfg (ret (set_i + 1 <=? 9999)) w = Ret tt w.
Proof.
  intros H. unfold assert_. destruct (ndebug cfg); [reflexivity|].
  destruct H as [H|H]; [discriminate|].
  unfold bind, ret. replace (set_i + 1 <=? 9999) with true; [reflexivity|].
  symmetry. apply N.leb_le. lia.
Qed.

End VerifyReports.


Module Scenario4.


End Scenario4.

Import Scenario4.

(** C5, as the specification states it, fails: two stores whose sets
    disagree by different totals get the very same status, built by
    [Status::Corruption()] without a message; the sets and the totals are
    on the console only.  No function of the returned status can give
    them back. *)
Lemma corruption_status_carries_nothing :
  let oA := Verify (config false 2) 2 0 false false (unequal "5" "6") in
  let oB := Verify (config false 2) 2 0 false false (unequal "7" "9") in
  returned oA = Some (Status.mk Status.kCorruption "") /\
  returned oB = Some (Status.mk Status.kCorruption "") /\
  option_map console (final oA) = Some [InconsistentTotals 0 5 1 6] /\
  option_map console (final oB) = Some [InconsistentTotals 0 7 1 9] /\
  ~ (exists carried : Status -> N * N * N * N,
        option_map carried (returned oA) = Some (0, 5, 1, 6) /\
        option_map carried (returned oB) = Some (0, 7, 1, 9)).
Proof.
  cbv zeta. repeat split; try (vm_compute; reflexivity).
  intros (carried & HA & HB).
  vm_compute in HA. vm_compute in HB. rewrite HA in HB. discriminate HB.
Qed.

(** C5, amended.  When the set visited right after [prev] has a total
    that differs from the total of [prev], [Verify] returns
    [Status::Corruption()], a status without a message, and writes the
    two sets and the two totals, the earlier visited first, on the
    console. *)
Theorem unequal_totals_are_printed
        (cfg : Config) (num_sets nkps : N) (take_snapshot has_rand : bool)
        (w : World) (sn : option Snapshot) (pre : list N) (prev set_i : N)
        (post : list N) (w0 : World) (p1 : Prev) (w1 : World) (total : N)
        (w2 : World) :
  verify_begin num_sets take_snapshot w
    = Ret (sn, pre ++ prev :: set_i :: post) w0 ->
  verify_sets cfg sn nkps has_rand (pre ++ [prev]) (mkPrev 0 0 false) w0
    = Ret (inr p1) w1 ->
  set_total cfg sn nkps has_rand set_i w1 = Ret (Some total) w2 ->
  total <> prev_total p1 ->
  (exists wa, set_total cfg sn nkps has_rand prev wa
              = Ret (Some (prev_total p1)) w1) /\
  Verify cfg num_sets nkps take_snapshot has_rand w =
  Ret Status.Corruption
      (set_console
         (InconsistentTotals prev (prev_total p1) set_i total :: console w2)
         w2) /\
  Status.state Status.Corruption = "".
Proof.
  intros Hbegin Hpre Htotal Hne.
  destruct (verify_sets_last cfg sn nkps has_rand pre prev _ _ _ _ Hpre)
    as (Hi & Ha & Hprev).
  split; [exact Hprev|]. split; [|reflexivity].
  unfold Verify. rewrite (bind_eq _ _ _ _ _ Hbegin). cbv beta iota.
  replace (pre ++ prev :: set_i :: post)
    with ((pre ++ [prev]) ++ set_i :: post)
    by (rewrite <- List.app_assoc; reflexivity).
  unfold bind at 1. rewrite verify_sets_app, Hpre. cbn [verify_sets].
  unfold bind at 1. rewrite Htotal. rewrite Ha, Hi. cbn [andb].
  replace (total =? prev_total p1) with false
    by (symmetry; now apply N.eqb_neq).
  reflexivity.
Qed.

Lemma unequal_totals_are_printed_witness :
  exists w',
    Verify (config false 2) 2 0 false false (unequal "5" "6")
      = Ret Status.Corruption w' /\
    console w' = [InconsistentTotals 0 5 1 6].
Proof.
  eexists. split.
  - eapply (unequal_totals_are_printed
              (config false 2) 2 0 false false (unequal "5" "6")
              None [] 0 1 [] _ (mkPrev 5 0 true) _ 6 _).
    + reflexivity.
    + reflexivity.
    + reflexivity.
    + discriminate.
  - reflexivity.
Defined.

(* ===================================================================== *)
(** * The shuffles permute *)
(* ===================================================================== *)

Section Shuffle.

Lemma set_nth_perm (l : list N) :
  forall (j : nat) (a b : N),
    nth_error l j = Some b ->
    Permutation (b :: set_nth j a l) (a :: l).
Proof.
  induction l as [|x r IH]; intros j a b H.
  - destruct j; discriminate.
  - destruct j as [|j]; cbn in *.
    + injection H as ->. apply perm_swap.
    + specialize (IH j a b H).
      apply Permutation_trans with (x :: b :: set_nth j a r);
        [apply perm_swap|].
      apply Permutation_trans with (x :: a :: r);
        [now apply perm_skip|apply perm_swap].
Qed.

Lemma nth_error_set_nth (l : list N) :
  forall (i j : nat) (a x : N),
    nth_error l i = Some a ->
    nth_error l j = Some x ->
    nth_error (set_nth j a l) i = Some a.
Proof.
  induction l as [|y r IH]; intros i j a x Hi Hj.
  - destruct i; discriminate.
  - destruct i as [|i], j as [|j]; cbn in *; auto.
    eapply IH; eassumption.
Qed.

Lemma swap_nth_perm (i j : nat) (l : list N) :
  Permutation (swap_nth i j l) l.
Proof.
  unfold swap_nth.
  destruct (nth_error l i) as [a|] eqn:Hi; [|reflexivity].
  destruct (nth_error l j) as [b|] eqn:Hj; [|reflexivity].
  pose proof (nth_error_set_nth l i j a b Hi Hj) as Hi'.
  pose proof (set_nth_perm (set_nth j a l) i b a Hi') as P1.
  pose proof (set_nth_perm l j a b Hj) as P2.
  apply Permutation_cons_inv with (a := a).
  apply Permutation_trans with (b :: set_nth j a l); assumption.
Qed.

Lemma shuffle_loop_perm (pick : N -> M N) :
  forall (count i : nat) (l : list N) (w : World) (l' : list N) (w' : World),
    shuffle_loop pick i count l w = Ret l' w' -> Permutation l' l.
Proof.
  induction count as [|c IH]; intros i l w l' w' H.
  - cbn in H. unfold ret in H. injection H as <- _. reflexivity.
  - cbn [shuffle_loop] in H. apply bind_Ret in H.
    destruct H as (j & w1 & _ & H). apply IH in H.
    eapply Permutation_trans; [exact H|apply swap_nth_perm].
Qed.

(** A shuffle that draws from the generator or from the device always
    returns. *)
Lemma shuffle_loop_total (pick : N -> M N) :
  (forall n w, exists x w', pick n w = Ret x w') ->
  forall (count i : nat) (l : list N) (w : World),
    exists l' w', shuffle_loop pick i count l w = Ret l' w'.
Proof.
  intros Hp. induction count as [|c IH]; intros i l w.
  - exists l, w. reflexivity.
  - cbn [shuffle_loop]. destruct (Hp (N.of_nat i + 1) w) as (j & w1 & Hj).
    rewrite (bind_eq _ _ _ _ _ Hj). apply IH.
Qed.

Lemma Uniform_total (n : N) (w : World) : exists x w', Uniform n w = Ret x w'.
Proof.
  unfold Uniform, Next, bind, ret. destruct (pop (rand_ w)). eauto.
Qed.

Lemma device_pick_total (n : N) (w : World) :
  exists x w', device_pick n w = Ret x w'.
Proof. unfold device_pick. destruct (pop (device w)). eauto. Qed.

Lemma iota_In (n i : N) : In i (iota n) <-> i < n.
Proof.
  unfold iota, upto. rewrite in_map_iff. split.
  - intros (k & <- & Hk). apply in_seq in Hk. lia.
  - intros H. exists (N.to_nat i). split; [apply N2Nat.id|].
    apply in_seq. lia.
Qed.

Lemma iota_NoDup (n : N) : NoDup (iota n).
Proof.
  unfold iota, upto. apply Finite.Injective_map_NoDup.
  - intros a b H. now apply Nat2N.inj.
  - apply seq_NoDup.
Qed.


End Shuffle.


Section Touching.



End Touching.


(* ===================================================================== *)
(** * Bytewise key order *)
(* ===================================================================== *)

Section Bytewise.

Lemma ascii_compare_refl (a : ascii) : Ascii.compare a a = Eq.
Proof. apply N.compare_refl. Qed.

Lemma ascii_compare_lt_trans (a b c : ascii) :
  Ascii.compare a b = Lt -> Ascii.compare b c = Lt -> Ascii.compare a c = Lt.
Proof.
  unfold Ascii.compare. rewrite !N.compare_lt_iff. apply N.lt_trans.
Qed.

Lemma ascii_compare_gt_lt (a b : ascii) :
  Ascii.compare a b = Gt <-> Ascii.compare b a = Lt.
Proof.
  rewrite (Ascii.compare_antisym a b).
  destruct (Ascii.compare b a); cbn; split; congruence.
Qed.

Lemma string_compare_refl (s : string) : String.compare s s = Eq.
Proof.
  induction s as [|a s IH]; [reflexivity|]. cbn.
  now rewrite ascii_compare_refl.
Qed.

Lemma string_compare_gt_lt (s t : string) :
  String.compare s t = Gt <-> String.compare t s = Lt.
Proof.
  rewrite (String.compare_antisym s t).
  destruct (String.compare t s); cbn; split; congruence.
Qed.

Lemma string_compare_lt_trans (s : string) :
  forall t u, String.compare s t = Lt -> String.compare t u = Lt ->
              String.compare s u = Lt.
Proof.
  induction s as [|a s IH]; intros [|b t] [|c u]; cbn; try congruence.
  destruct (Ascii.compare a b) eqn:Eab; try discriminate.
  - apply Ascii.compare_eq_iff in Eab. subst b.
    destruct (Ascii.compare a c); try congruence. apply IH.
  - intros _. destruct (Ascii.compare b c) eqn:Ebc; try discriminate.
    + apply Ascii.compare_eq_iff in Ebc. subst c. now rewrite Eab.
    + intros _. now rewrite (ascii_compare_lt_trans a b c Eab Ebc).
Qed.

Lemma ltb_lt (s t : string) : String.ltb s t = true <-> String.compare s t = Lt.
Proof.
  unfold String.ltb. destruct (String.compare s t); split; congruence.
Qed.

Lemma ltb_trans (s t u : string) :
  String.ltb s t = true -> String.ltb t u = true -> String.ltb s u = true.
Proof. rewrite !ltb_lt. apply string_compare_lt_trans. Qed.

Lemma ltb_irrefl (s : string) : String.ltb s s = false.
Proof. unfold String.ltb. now rewrite string_compare_refl. Qed.

Lemma ltb_neq (s t : string) : String.ltb s t = true -> s <> t.
Proof. intros H ->. now rewrite ltb_irrefl in H. Qed.

(** A key that carries a prefix is not below it. *)
Lemma prefix_not_below (p : string) :
  forall k, String.prefix p k = true -> String.ltb k p = false.
Proof.
  induction p as [|a p IH]; intros k H.
  - unfold String.ltb. now destruct k.
  - destruct k as [|b k]; [discriminate|]. cbn in H.
    destruct (ascii_dec a b) as [<-|]; [|discriminate].
    unfold String.ltb in *. cbn. rewrite ascii_compare_refl.
    now apply IH.
Qed.

(** The keys that carry a prefix are an interval of the key order. *)
Lemma prefix_convex (p : string) :
  forall k k2,
    String.prefix p k2 = true ->
    String.ltb k p = false ->
    String.ltb k k2 = true ->
    String.prefix p k = true.
Proof.
  induction p as [|a p IH]; intros k k2 H2 Hlo Hhi.
  - now destruct k.
  - destruct k2 as [|c k2]; [discriminate|]. cbn in H2.
    destruct (ascii_dec a c) as [<-|]; [|discriminate].
    destruct k as [|b k]; [discriminate|].
    unfold String.ltb in Hlo, Hhi. cbn in Hlo, Hhi. cbn.
    destruct (Ascii.compare b a) eqn:E; try discriminate.
    apply Ascii.compare_eq_iff in E. subst b.
    destruct (ascii_dec a a) as [_|N]; [|now destruct N].
    apply (IH k k2 H2); unfold String.ltb; assumption.
Qed.

Lemma has_prefix_prefix (set_i : N) (key : string) :
  set_i < 9999 ->
  has_prefix set_i key = String.prefix (prefix_buf set_i) key.
Proof.
  intros H. unfold has_prefix. rewrite (prefix_buf_zero_pad4 _ H).
  unfold zero_pad4.
  generalize (digit_char ((set_i + 1) / 1000 mod 10))
             (digit_char ((set_i + 1) / 100 mod 10))
             (digit_char ((set_i + 1) / 10 mod 10))
             (digit_char ((set_i + 1) mod 10)).
  intros a b c d.
  destruct key as [|k1 [|k2 [|k3 [|k4 key]]]]; cbn;
    repeat match goal with
           | |- context [ascii_dec ?x ?y] =>
               destruct (ascii_dec x y); subst
           end;
    rewrite ?Ascii.eqb_refl;
    repeat match goal with
           | N : ?x <> ?y |- context [Ascii.eqb ?x ?y] =>
               rewrite (proj2 (Ascii.eqb_neq x y) N)
           end;
    try reflexivity;
    repeat match goal with
           | |- context [Ascii.eqb ?x ?y] =>
               destruct (Ascii.eqb_spec x y); subst
           end;
    try congruence;
    destruct key; reflexivity.
Qed.

End Bytewise.

(* ===================================================================== *)
(** * Tables and the total of a set *)
(* ===================================================================== *)

Definition key_lt (a b : string * string) : Prop :=
  String.ltb (fst a) (fst b) = true.

Definition sorted (t : Table) : Prop := StronglySorted key_lt t.

(** The number a stored value stands for; nothing stored counts for
    zero, as in [DBGet]. *)
Definition numval (o : option string) : N :=
  match o with
  | Some v => match stoull v with inr n => n | inl _ => 0 end
  | None => 0
  end.

(** The sum of the values stored under the prefix of a set. *)
Fixpoint set_sum (set_i : N) (t : Table) : N :=
  match t with
  | [] => 0
  | (k, v) :: r =>
      (if has_prefix set_i k then numval (Some v) else 0) + set_sum set_i r
  end.

Section TableFacts.

Lemma tget_above (k v : string) (r : Table) :
  Forall (key_lt (k, v)) r -> tget k r = None.
Proof.
  induction r as [|[k' v'] r IH]; intros H; [reflexivity|].
  inversion H as [|? ? Hk Hr]; subst. cbn.
  destruct (String.eqb_spec k k') as [->|_].
  - unfold key_lt in Hk. cbn in Hk. now rewrite ltb_irrefl in Hk.
  - now apply IH.
Qed.

Lemma tget_tput_same (k v : string) (t : Table) :
  tget k (tput k v t) = Some v.
Proof.
  induction t as [|[k' v'] r IH]; cbn.
  - now rewrite String.eqb_refl.
  - destruct (String.compare k k') eqn:E; cbn.
    + now rewrite String.eqb_refl.
    + now rewrite String.eqb_refl.
    + destruct (String.eqb_spec k k') as [->|_]; [|exact IH].
      now rewrite string_compare_refl in E.
Qed.

Lemma tget_tput_other (k k' v : string) (t : Table) :
  k <> k' -> tget k (tput k' v t) = tget k t.
Proof.
  intros Hne. induction t as [|[k2 v2] r IH]; cbn.
  - destruct (String.eqb_spec k k'); [contradiction|reflexivity].
  - destruct (String.compare k' k2) eqn:E; cbn.
    + apply String.compare_eq_iff in E. subst k2.
      destruct (String.eqb_spec k k'); [contradiction|reflexivity].
    + destruct (String.eqb_spec k k'); [contradiction|reflexivity].
    + now rewrite IH.
Qed.

Lemma tput_In (k v : string) (t : Table) (x : string * string) :
  In x (tput k v t) -> x = (k, v) \/ In x t.
Proof.
  induction t as [|[k' v'] r IH]; cbn.
  - intros [<-|[]]. now left.
  - destruct (String.compare k k'); cbn.
    + intros [<-|H]; auto.
    + intros [<-|[<-|H]]; auto.
    + intros [<-|H]; auto. destruct (IH H); auto.
Qed.

Lemma sorted_tput (k v : string) (t : Table) :
  sorted t -> sorted (tput k v t).
Proof.
  unfold sorted. induction t as [|[k' v'] r IH]; intros H; cbn.
  - repeat constructor.
  - inversion H as [|? ? Hr Hall]; subst.
    destruct (String.compare k k') eqn:E.
    + apply String.compare_eq_iff in E. subst k'. now constructor.
    + constructor; [exact H|]. constructor.
      * now apply ltb_lt.
      * eapply Forall_impl; [|exact Hall]. intros [k2 v2] H2.
        unfold key_lt in *. cbn in *.
        eapply ltb_trans; [|exact H2]. now apply ltb_lt.
    + constructor; [now apply IH|].
      apply Forall_forall. intros x Hx. apply tput_In in Hx.
      destruct Hx as [->|Hx].
      * unfold key_lt. cbn. apply ltb_lt. now apply string_compare_gt_lt.
      * rewrite Forall_forall in Hall. now apply Hall.
Qed.

(** Writing [v] at [k] moves the total of the set of [k] by the
    difference to what was there, and no other total. *)
Lemma set_sum_tput (set_i : N) (k v : string) (t : Table) :
  sorted t ->
  set_sum set_i (tput k v t)
  + (if has_prefix set_i k then numval (tget k t) else 0)
  = set_sum set_i t
    + (if has_prefix set_i k then numval (Some v) else 0).
Proof.
  unfold sorted. induction t as [|[k' v'] r IH]; intros H.
  - cbn [tput tget set_sum numval]. destruct (has_prefix set_i k); lia.
  - inversion H as [|? ? Hr Hall]; subst. cbn [tput tget set_sum].
    destruct (String.compare k k') eqn:E.
    + apply String.compare_eq_iff in E. subst k'.
      rewrite String.eqb_refl. cbn [set_sum].
      destruct (has_prefix set_i k); lia.
    + cbn [set_sum].
      destruct (String.eqb_spec k k') as [->|_];
        [now rewrite string_compare_refl in E|].
      assert (N0 : tget k r = None).
      { apply (tget_above k v). eapply Forall_impl; [|exact Hall].
        intros [k2 v2] H2. unfold key_lt in *. cbn in *.
        eapply ltb_trans; [|exact H2]. now apply ltb_lt. }
      rewrite N0. cbn [numval].
      destruct (has_prefix set_i k), (has_prefix set_i k'); lia.
    + cbn [set_sum].
      destruct (String.eqb_spec k k') as [->|_];
        [now rewrite string_compare_refl in E|].
      specialize (IH Hr).
      destruct (has_prefix set_i k), (has_prefix set_i k'); lia.
Qed.

End TableFacts.

(* ===================================================================== *)
(** * The invariant: every set adds up to the same total *)
(* ===================================================================== *)

Section Balance.

Variables num_sets num_keys : N.
Hypothesis Hsets : num_sets <= 9999.

(** What the harness stores: a key of one of its sets, and a positive
    number no larger than the total. *)
Definition wf_entry (T : N) (kv : string * string) : Prop :=
  exists s k n,
    s < num_sets /\ k < num_keys /\
    fst kv = full_key s k /\ snd kv = ToString n /\ 1 <= n <= T.

Definition balanced (T : N) (t : Table) : Prop :=
  sorted t /\ Forall (wf_entry T) t /\
  forall s, s < num_sets -> set_sum s t = T.

(** The write of one turn of the loop of [DoInsert]: the value read in
    [t] at the key of the pick, plus the increment. *)
Definition write_of (t : Table) (incr : N) (pick : N * N) : WriteOp :=
  let key := full_key (fst pick) (snd pick) in
  WPut None key (ToString (add64 (numval (tget key t)) incr)).

(** The table while the writes of a transaction are being applied: the
    sets already written are ahead by the increment. *)
Definition partly (T incr : N) (t : Table) (done : list N) (tc : Table)
  : Prop :=
  sorted tc /\ Forall (wf_entry (T + incr)) tc /\
  (forall s, s < num_sets -> In s done -> set_sum s tc = T + incr) /\
  (forall s, s < num_sets -> ~ In s done -> set_sum s tc = T) /\
  (forall s k, s < num_sets -> ~ In s done ->
               tget (full_key s k) tc = tget (full_key s k) t).

Lemma numval_ToString (n : N) : n <= ULONG_MAX -> numval (Some (ToString n)) = n.
Proof. intros H. cbn [numval]. now rewrite stoull_ToString. Qed.

Lemma tget_In (k v : string) (t : Table) :
  tget k t = Some v -> In (k, v) t.
Proof.
  induction t as [|[k' v'] r IH]; [discriminate|]. cbn.
  destruct (String.eqb_spec k k') as [->|_].
  - intros [= ->]. now left.
  - intros H. right. now apply IH.
Qed.

Lemma wf_entry_mono (T T' : N) (kv : string * string) :
  T <= T' -> wf_entry T kv -> wf_entry T' kv.
Proof.
  intros H (s & k & n & A & B & C & D & E).
  exists s, k, n. repeat split; try assumption; lia.
Qed.

(** What a read of the harness finds in a balanced table. *)
Lemma balanced_read (T : N) (t : Table) (key : string) :
  balanced T t -> T < ULONG_MAX ->
  match tget key t with
  | Some v => exists n, v = ToString n /\ 1 <= n <= T /\ stoull v = inr n
  | None => True
  end.
Proof.
  intros (_ & Hwf & _) HT. destruct (tget key t) as [v|] eqn:E; [|exact I].
  apply tget_In in E. rewrite Forall_forall in Hwf.
  destruct (Hwf _ E) as (s & k & n & _ & _ & _ & Hv & Hn).
  cbn in Hv. exists n. repeat split; try tauto; try lia.
  rewrite Hv. apply stoull_ToString. lia.
Qed.

Lemma balanced_numval (T : N) (t : Table) (key : string) :
  balanced T t -> T < ULONG_MAX -> numval (tget key t) <= T.
Proof.
  intros Hb HT. pose proof (balanced_read T t key Hb HT) as H.
  destruct (tget key t) as [v|]; cbn [numval]; [|lia].
  destruct H as (n & _ & Hn & ->). lia.
Qed.

Lemma apply_batch_snoc (l : list WriteOp) (w : WriteOp)
      (tf : Table * list Table) :
  apply_batch (l ++ [w]) tf = apply_op w (apply_batch l tf).
Proof. unfold apply_batch. now rewrite fold_left_app. Qed.

Lemma balanced_partly (T incr : N) (t : Table) :
  balanced T t -> partly T incr t [] t.
Proof.
  intros (A & B & C). repeat split; auto.
  - eapply Forall_impl; [|exact B]. intros kv. apply wf_entry_mono. lia.
  - intros s _ [].
Qed.

(** Applying the writes of a transaction, one set after the other. *)
Lemma apply_picks (T incr : N) (t : Table) (fs : list Table) :
  balanced T t -> T + incr < ULONG_MAX -> 1 <= incr ->
  forall picks : list (N * N),
    NoDup (map fst picks) ->
    Forall (fun p => fst p < num_sets /\ snd p < num_keys) picks ->
    exists tc,
      apply_batch (map (write_of t incr) picks) (t, fs) = (tc, fs) /\
      partly T incr t (map fst picks) tc.
Proof.
  intros Hb HT Hincr picks.
  induction picks as [|[s k] picks IH] using rev_ind; intros Hnd Hall.
  - exists t. split; [reflexivity|]. now apply balanced_partly.
  - rewrite map_app in Hnd. cbn [map fst] in Hnd.
    apply NoDup_remove in Hnd. rewrite app_nil_r in Hnd.
    destruct Hnd as (Hnd & Hnew).
    apply Forall_app in Hall. destruct Hall as (Hall & Hsk).
    inversion Hsk as [|? ? (Hs & Hk) _]; subst. cbn [fst snd] in Hs, Hk.
    destruct (IH Hnd Hall) as (tc & Eq & P).
    destruct P as (P1 & P2 & P3 & P4 & P5).
    rewrite !map_app. cbn [map fst].
    rewrite apply_batch_snoc, Eq. unfold write_of. cbn [fst snd apply_op].
    set (key := full_key s k).
    assert (Hold : numval (tget key t) <= T)
      by (apply balanced_numval; [exact Hb|lia]).
    assert (Hadd : add64 (numval (tget key t)) incr = numval (tget key t) + incr).
    { unfold add64, u64. apply N.mod_small. unfold ULONG_MAX in HT. lia. }
    rewrite Hadd.
    set (v := ToString (numval (tget key t) + incr)).
    assert (Hv : numval (Some v) = numval (tget key t) + incr).
    { apply numval_ToString. lia. }
    exists (tput key v tc). split; [reflexivity|].
    assert (Hpre : forall s', s' < num_sets ->
                              has_prefix s' key = (s' =? s)).
    { intros s' Hs'. apply has_prefix_full_key; lia. }
    repeat split.
    + now apply sorted_tput.
    + apply Forall_forall. intros x Hx. apply tput_In in Hx.
      destruct Hx as [->|Hx].
      * exists s, k, (numval (tget key t) + incr).
        repeat split; auto; lia.
      * rewrite Forall_forall in P2. now apply P2.
    + intros s' Hs' Hin.
      pose proof (set_sum_tput s' key v tc P1) as E.
      rewrite (Hpre s' Hs') in E.
      destruct (N.eqb_spec s' s) as [->|Hne].
      * pose proof (P5 s k Hs Hnew) as E5. fold key in E5.
        rewrite E5, Hv in E. rewrite (P4 s Hs Hnew) in E. lia.
      * apply in_app_or in Hin. destruct Hin as [Hin|[->|[]]];
          [|contradiction].
        rewrite (P3 s' Hs' Hin) in E. lia.
    + intros s' Hs' Hnin.
      pose proof (set_sum_tput s' key v tc P1) as E.
      rewrite (Hpre s' Hs') in E.
      destruct (N.eqb_spec s' s) as [->|Hne].
      * exfalso. apply Hnin. apply in_or_app. right. now left.
      * assert (Hn' : ~ In s' (map fst picks)).
        { intros H. apply Hnin. apply in_or_app. now left. }
        rewrite (P4 s' Hs' Hn') in E. lia.
    + intros s' k' Hs' Hnin.
      assert (Hne : s' <> s).
      { intros ->. apply Hnin. apply in_or_app. right. now left. }
      assert (Hn' : ~ In s' (map fst picks)).
      { intros H. apply Hnin. apply in_or_app. now left. }
      rewrite tget_tput_other; [now apply P5|].
      intros E. apply full_key_inj in E; [|lia|lia]. now destruct E.
Qed.

(** When every set was written once, the table is balanced again. *)
Lemma partly_all (T incr : N) (t tc : Table) (done : list N) :
  partly T incr t done tc ->
  (forall s, s < num_sets -> In s done) ->
  balanced (T + incr) tc.
Proof.
  intros (P1 & P2 & P3 & _ & _) Hall. repeat split; auto.
Qed.

End Balance.

(* ===================================================================== *)
(** * Reading a balanced table back *)
(* ===================================================================== *)

Section Wrap.

Lemma add64_u64 (a b : N) : add64 (u64 a) b = u64 (a + b).
Proof. unfold add64, u64. apply N.Div0.add_mod_idemp_l. Qed.

Lemma u64_small (a : N) : a <= ULONG_MAX -> u64 a = a.
Proof. intros H. unfold u64. apply N.mod_small. unfold ULONG_MAX in H. lia. Qed.

End Wrap.

Section Scan.

Variables num_sets num_keys : N.
Hypothesis Hsets : num_sets <= 9999.

Lemma set_sum_none (s : N) (t : Table) :
  Forall (fun kv => has_prefix s (fst kv) = false) t -> set_sum s t = 0.
Proof.
  induction 1 as [|[k v] r Hk _ IH]; [reflexivity|].
  cbn [set_sum fst] in *. rewrite Hk, IH. reflexivity.
Qed.

Definition not_below (p : string) (kv : string * string) : Prop :=
  String.ltb (fst kv) p = false.

Lemma not_below_next (p : string) (a b : string * string) :
  not_below p a -> key_lt a b -> not_below p b.
Proof.
  unfold not_below, key_lt. intros Ha Hab.
  destruct (String.ltb (fst b) p) eqn:E; [|reflexivity].
  now rewrite (ltb_trans _ _ _ Hab E) in Ha.
Qed.

(** [Seek] drops pairs that are not of the set, and only those. *)
Lemma seek_spec (s : N) (t : Table) :
  s < num_sets -> sorted t ->
  sorted (seek (seek_target s) t) /\
  Forall (not_below (seek_target s)) (seek (seek_target s) t) /\
  set_sum s (seek (seek_target s) t) = set_sum s t /\
  (forall x, In x (seek (seek_target s) t) -> In x t).
Proof.
  intros Hs. assert (H9 : s < 9999) by lia.
  rewrite (seek_target_prefix_buf s H9).
  unfold sorted. induction t as [|[k v] r IH]; intros Hsort.
  - cbn. repeat split; try constructor; auto.
  - inversion Hsort as [|? ? Hr Hall]; subst. cbn [seek].
    destruct (String.ltb k (prefix_buf s)) eqn:E.
    + destruct (IH Hr) as (A & B & C & D).
      repeat split; auto.
      * cbn [set_sum]. rewrite C.
        rewrite (has_prefix_prefix s k H9).
        destruct (String.prefix (prefix_buf s) k) eqn:P; [|reflexivity].
        apply prefix_not_below in P. congruence.
      * intros x Hx. right. now apply D.
    + repeat split; auto.
      constructor; [exact E|].
      eapply Forall_impl; [|exact Hall].
      intros b Hb. now apply (not_below_next _ (k, v)).
Qed.

(** The iterator, from a pair that is not below the prefix on, adds up
    the values of the set. *)
Lemma iterate_sum (T : N) (s : N) :
  s < num_sets -> T < ULONG_MAX ->
  forall (t : Table) (total : N) (w : World),
    sorted t ->
    Forall (not_below (prefix_buf s)) t ->
    Forall (wf_entry num_sets num_keys T) t ->
    iterate s t (u64 total) w = Ret (Some (u64 (total + set_sum s t))) w.
Proof.
  intros Hs HT. assert (H9 : s < 9999) by lia.
  unfold sorted. induction t as [|[k v] r IH]; intros total w Hsort Hlo Hwf.
  - cbn. now rewrite N.add_0_r.
  - inversion Hsort as [|? ? Hr Hall]; subst.
    inversion Hlo as [|? ? Hk Hlo']; subst.
    inversion Hwf as [|? ? Hkv Hwf']; subst.
    cbn [iterate set_sum].
    destruct (has_prefix s k) eqn:P; cbn [negb].
    + destruct Hkv as (s' & k' & n & _ & _ & _ & Hv & Hn). cbn [snd] in Hv.
      assert (Sv : stoull v = inr n) by (rewrite Hv; apply stoull_ToString; lia).
      unfold stoull_, bind. rewrite Sv. unfold ret.
      assert (E : (n =? 0) || (n =? ULONG_MAX) = false).
      { apply orb_false_iff. split; apply N.eqb_neq; lia. }
      rewrite E. rewrite add64_u64. cbn [numval]. rewrite Sv.
      rewrite (IH (total + n) w Hr Hlo' Hwf'). now rewrite N.add_assoc.
    + unfold ret. rewrite set_sum_none; [now rewrite !N.add_0_r|].
      rewrite Forall_forall in Hall. apply Forall_forall. intros [k2 v2] Hin.
      cbn [fst]. rewrite (has_prefix_prefix s k2 H9).
      destruct (String.prefix (prefix_buf s) k2) eqn:P2; [|reflexivity].
      rewrite (has_prefix_prefix s k H9) in P.
      rewrite (prefix_convex (prefix_buf s) k k2 P2 Hk (Hall _ Hin)) in P.
      discriminate.
Qed.

(** What the range scan of [Verify] finds for a set of a balanced table. *)
Lemma scan_total (T : N) (s : N) (t : Table) (w : World) :
  s < num_sets -> T < ULONG_MAX ->
  balanced num_sets num_keys T t ->
  iterate s (seek (seek_target s) t) 0 w = Ret (Some T) w.
Proof.
  intros Hs HT (Hsort & Hwf & Hsum).
  destruct (seek_spec s t Hs Hsort) as (A & B & C & D).
  assert (H9 : s < 9999) by lia.
  rewrite (seek_target_prefix_buf s H9) in *.
  change 0 with (u64 0) at 1.
  rewrite (iterate_sum T s Hs HT _ 0 w A B).
  - rewrite C, (Hsum s Hs). cbn. now rewrite u64_small by lia.
  - apply Forall_forall. intros x Hx. rewrite Forall_forall in Hwf.
    now apply Hwf, D.
Qed.

(** The keys of a set, looked up one by one. *)
Fixpoint point_sum (s : N) (t : Table) (count : nat) (k : N) : N :=
  match count with
  | O => 0
  | S c => numval (tget (full_key s k) t) + point_sum s t c (k + 1)
  end.

Lemma point_sum_skip (s : N) (k0 v0 : string) (r : Table) :
  forall (count : nat) (k : N),
    (forall j, k <= j < k + N.of_nat count -> full_key s j <> k0) ->
    point_sum s ((k0, v0) :: r) count k = point_sum s r count k.
Proof.
  induction count as [|c IH]; intros k H; [reflexivity|].
  cbn [point_sum tget].
  destruct (String.eqb_spec (full_key s k) k0) as [E|_].
  - exfalso. apply (H k); [lia|exact E].
  - rewrite IH; [reflexivity|]. intros j Hj. apply H. lia.
Qed.

Lemma point_sum_hit (s i : N) (v0 : string) (r : Table) :
  s < 9999 ->
  tget (full_key s i) r = None ->
  forall (count : nat) (k : N),
    k <= i < k + N.of_nat count ->
    point_sum s ((full_key s i, v0) :: r) count k
    = numval (Some v0) + point_sum s r count k.
Proof.
  intros H9 Hnone. induction count as [|c IH]; intros k Hk; [lia|].
  cbn [point_sum tget].
  destruct (String.eqb_spec (full_key s k) (full_key s i)) as [E|N].
  - apply full_key_inj in E; [|assumption|assumption]. destruct E as (_ & ->).
    rewrite Hnone. cbn [numval].
    rewrite point_sum_skip; [lia|].
    intros j Hj E. apply full_key_inj in E; [|assumption|assumption]. lia.
  - rewrite IH; [lia|].
    assert (k <> i) by (intros ->; now apply N). lia.
Qed.

Lemma point_sum_all (T : N) (s : N) (t : Table) (count : nat) :
  s < num_sets -> sorted t ->
  Forall (wf_entry num_sets num_keys T) t ->
  num_keys <= N.of_nat count ->
  point_sum s t count 0 = set_sum s t.
Proof.
  intros Hs Hsort Hwf Hcount. assert (H9 : s < 9999) by lia.
  unfold sorted in Hsort.
  induction t as [|[k0 v0] r IH].
  - clear. generalize 0. induction count as [|c IH]; intros k;
      [reflexivity|]. cbn. apply IH.
  - inversion Hsort as [|? ? Hr Hall]; subst.
    inversion Hwf as [|? ? Hkv Hwf']; subst.
    destruct Hkv as (s' & i & n & Hs' & Hi & Hk & _). cbn [fst] in Hk.
    subst k0.
    cbn [set_sum]. rewrite (has_prefix_full_key s s' i H9 ltac:(lia)).
    destruct (N.eqb_spec s s') as [<-|Hne].
    + rewrite point_sum_hit; [rewrite (IH Hr Hwf'); reflexivity|exact H9| |lia].
      now apply (tget_above _ v0).
    + rewrite point_sum_skip; [now rewrite (IH Hr Hwf')|].
      intros j _ E. apply full_key_inj in E; [|lia|lia]. now destruct E.
Qed.

End Scan.

(* ===================================================================== *)
(** * A store that does not fail *)
(* ===================================================================== *)

(** What a read leaves as it was. *)
Definition same_data (w w' : World) : Prop :=
  table (db w') = table (db w) /\
  families (db w') = families (db w) /\
  pending (db w') = pending (db w) /\
  faults (db w') = faults (db w) /\
  live_snapshots (db w') = live_snapshots (db w) /\
  live_iterators (db w') = live_iterators (db w) /\
  read_snapshot w' = read_snapshot w /\
  stats w' = stats w.

Section Ideal.

Lemma same_data_refl (w : World) : same_data w w.
Proof. repeat split. Qed.

Lemma same_data_trans (w1 w2 w3 : World) :
  same_data w1 w2 -> same_data w2 w3 -> same_data w1 w3.
Proof.
  unfold same_data. intros (A1 & A2 & A3 & A4 & A5 & A6 & A7 & A8)
                           (B1 & B2 & B3 & B4 & B5 & B6 & B7 & B8).
  repeat split; congruence.
Qed.

Lemma draws_only_same_data (w w' : World) :
  draws_only w w' -> same_data w w'.
Proof. unfold draws_only. intros ->. repeat split. Qed.

Lemma view_set_faults (sn : option Snapshot) (cf : option nat) (f : Faults)
      (d : DB) :
  view sn cf (set_faults f d) = view sn cf d.
Proof. destruct sn as [[? ?]|]; destruct cf; reflexivity. Qed.

Lemma db_get_ideal (sn : option Snapshot) (cf : option nat) (k : string)
      (d : DB) :
  faults d = no_faults ->
  exists d',
    db_get sn cf k d = (answer (tget k (view sn cf d)), d') /\
    table d' = table d /\ families d' = families d /\
    pending d' = pending d /\ faults d' = no_faults /\
    live_snapshots d' = live_snapshots d /\
    live_iterators d' = live_iterators d.
Proof.
  intros H. unfold db_get. rewrite H. cbn [f_get no_faults next_fault].
  rewrite view_set_faults.
  eexists. split; [reflexivity|]. repeat split.
Qed.

Lemma txn_get_ideal (fu : bool) (sn : option Snapshot) (cf : option nat)
      (k : string) (d : DB) :
  faults d = no_faults ->
  pending_get cf k (pending d) = None ->
  exists d',
    txn_get fu sn cf k d = (answer (tget k (view sn cf d)), d') /\
    table d' = table d /\ families d' = families d /\
    pending d' = pending d /\ faults d' = no_faults /\
    live_snapshots d' = live_snapshots d /\
    live_iterators d' = live_iterators d.
Proof.
  intros H Hp. unfold txn_get. rewrite H. cbn [f_get no_faults next_fault].
  cbn [pending set_faults]. rewrite Hp.
  change (mkDB (table d) (families d) (pending d)
               (with_get [] no_faults) (calls d) (live_snapshots d)
               (live_iterators d))
    with (set_faults (with_get [] no_faults) d).
  rewrite view_set_faults.
  eexists. split; [reflexivity|]. repeat split.
Qed.

Lemma txn_put_ideal (k v : string) (d : DB) :
  faults d = no_faults ->
  exists d',
    txn_put None k v d = (Status.OK, d') /\
    table d' = table d /\ families d' = families d /\
    pending d' = WPut None k v :: pending d /\ faults d' = no_faults /\
    live_snapshots d' = live_snapshots d /\
    live_iterators d' = live_iterators d.
Proof.
  intros H. unfold txn_put. rewrite H. cbn [f_put no_faults next_fault].
  eexists. split; [reflexivity|]. repeat split.
Qed.

Lemma txn_prepare_ideal (d : DB) :
  faults d = no_faults ->
  exists d',
    txn_prepare d = (Status.OK, d') /\
    table d' = table d /\ families d' = families d /\
    pending d' = pending d /\ faults d' = no_faults /\
    live_snapshots d' = live_snapshots d /\
    live_iterators d' = live_iterators d.
Proof.
  intros H. unfold txn_prepare. rewrite H.
  cbn [f_prepare no_faults next_fault].
  eexists. split; [reflexivity|]. repeat split.
Qed.

Lemma txn_rollback_ideal (d : DB) :
  faults d = no_faults ->
  exists d',
    txn_rollback d = (Status.OK, d') /\
    table d' = table d /\ families d' = families d /\
    pending d' = [] /\ faults d' = no_faults /\
    live_snapshots d' = live_snapshots d /\
    live_iterators d' = live_iterators d.
Proof.
  intros H. unfold txn_rollback. rewrite H.
  cbn [f_rollback no_faults next_fault].
  eexists. split; [reflexivity|]. repeat split.
Qed.

Lemma txn_commit_ideal (d : DB) (t : Table) (fs : list Table) :
  faults d = no_faults ->
  apply_batch (List.rev (pending d)) (table d, families d) = (t, fs) ->
  exists d',
    txn_commit d = (Status.OK, d') /\
    table d' = t /\ families d' = fs /\
    pending d' = [] /\ faults d' = no_faults /\
    live_snapshots d' = live_snapshots d /\
    live_iterators d' = live_iterators d.
Proof.
  intros H Ha. unfold txn_commit. rewrite H.
  cbn [f_commit no_faults next_fault].
  cbn [pending table families set_faults]. rewrite Ha.
  eexists. split; [reflexivity|]. repeat split.
Qed.

Lemma db_write_ideal (b : list WriteOp) (d : DB) (t : Table)
      (fs : list Table) :
  faults d = no_faults ->
  apply_batch b (table d, families d) = (t, fs) ->
  exists d',
    db_write b d = (Status.OK, d') /\
    table d' = t /\ families d' = fs /\
    pending d' = pending d /\ faults d' = no_faults /\
    live_snapshots d' = live_snapshots d /\
    live_iterators d' = live_iterators d.
Proof.
  intros H Ha. unfold db_write. rewrite H.
  cbn [f_write no_faults next_fault].
  cbn [pending table families set_faults]. rewrite Ha.
  eexists. split; [reflexivity|]. repeat split.
Qed.

End Ideal.

Section IdealRuns.

Variable cfg : Config.
Hypothesis Hsets : num_sets_ cfg <= 9999.

Let balanced_ := balanced (num_sets_ cfg) (num_keys_ cfg).

Lemma on_db_eq {A : Type} (f : DB -> A * DB) (w : World) (a : A) (d : DB) :
  f (db w) = (a, d) -> on_db f w = Ret a (set_db d w).
Proof. unfold on_db. now intros ->. Qed.

(** A read of the harness in a balanced table that answers. *)
Lemma DBGet_ideal (use_txn : bool) (sn : option Snapshot) (s k : N)
      (gfu : bool) (iv : N) (ue : bool) (w : World) (T : N) :
  faults (db w) = no_faults ->
  s < num_sets_ cfg ->
  balanced_ T (view sn None (db w)) ->
  T < ULONG_MAX ->
  (use_txn = true ->
   pending_get None (full_key s k) (pending (db w)) = None) ->
  exists w',
    DBGet cfg use_txn sn s k gfu iv ue w =
    Ret (Status.OK, numval (tget (full_key s k) (view sn None (db w))),
         full_key s k, ue) w' /\
    same_data w w' /\ rand_ w' = rand_ w /\ device w' = device w /\
    console w' = console w.
Proof.
  intros Hf Hs Hb HT Hp. unfold DBGet.
  assert (H9 : ndebug cfg = true \/ s < 9999) by (right; lia).
  rewrite (bind_eq _ _ _ _ _ (assert_set_passes cfg s w H9)).
  assert (Hget : exists d',
             (if use_txn
              then txn_get gfu sn None (full_key s k)
              else db_get sn None (full_key s k)) (db w)
             = (answer (tget (full_key s k) (view sn None (db w))), d') /\
             table d' = table (db w) /\ families d' = families (db w) /\
             pending d' = pending (db w) /\ faults d' = no_faults /\
             live_snapshots d' = live_snapshots (db w) /\
             live_iterators d' = live_iterators (db w)).
  { destruct use_txn.
    - destruct (txn_get_ideal gfu sn None (full_key s k) (db w) Hf
                  (Hp eq_refl)) as (d' & E & H); exists d'; tauto.
    - destruct (db_get_ideal sn None (full_key s k) (db w) Hf)
        as (d' & E & H); exists d'; tauto. }
  destruct Hget as (d' & E & D1 & D2 & D3 & D4 & D5 & D6).
  pose proof (balanced_read _ _ Hsets T _ (full_key s k) Hb HT) as Hread.
  destruct (tget (full_key s k) (view sn None (db w))) as [v|];
    cbn [answer] in E;
    rewrite (bind_eq _ _ _ _ _ (on_db_eq _ w _ d' E)); cbv beta iota.
  - destruct Hread as (n & _ & Hn & Sv).
    change (ok Status.OK) with true. cbv iota.
    unfold stoull_. rewrite Sv. unfold bind at 1. unfold ret at 1.
    assert (E0 : (n =? 0) || (n =? ULONG_MAX) = false).
    { apply orb_false_iff. split; apply N.eqb_neq; lia. }
    rewrite E0. cbn [numval]. rewrite Sv.
    exists (set_db d' w). split; [reflexivity|].
    unfold same_data. world_simpl. rewrite Hf. repeat split; auto.
  - change (ok (Status.mk Status.kNotFound "")) with false.
    change (IsNotFound (Status.mk Status.kNotFound "")) with true.
    cbv iota. exists (set_db d' w). split; [reflexivity|].
    unfold same_data. world_simpl. rewrite Hf. repeat split; auto.
Qed.

(** The point lookups of a set, on a store that does not fail. *)
Lemma point_lookups_ideal (sn : option Snapshot) (s : N) (T : N)
      (t : Table) :
  s < num_sets_ cfg -> T < ULONG_MAX -> balanced_ T t ->
  forall (count : nat) (k total : N) (w : World),
    faults (db w) = no_faults ->
    view sn None (db w) = t ->
    exists w',
      point_lookups cfg sn s count k (u64 total) w
      = Ret (u64 (total + point_sum s t count k)) w' /\
      same_data w w' /\ rand_ w' = rand_ w /\ device w' = device w /\
      console w' = console w /\ view sn None (db w') = t.
Proof.
  intros Hs HT Hb. induction count as [|c IH]; intros k total w Hf Hv.
  - exists w. cbn. rewrite N.add_0_r.
    repeat split; auto.
  - cbn [point_lookups point_sum].
    destruct (DBGet_ideal false sn s k false 0 false w T Hf Hs
                ltac:(now rewrite Hv) HT ltac:(discriminate))
      as (w1 & E & Hsame & R1 & R2 & R3).
    rewrite (bind_eq _ _ _ _ _ E). cbv beta iota.
    assert (A1 : assert_ cfg (ret (ok Status.OK)) w1 = Ret tt w1).
    { unfold assert_. now destruct (ndebug cfg). }
    assert (A2 : assert_ cfg (ret (negb false)) w1 = Ret tt w1).
    { unfold assert_. now destruct (ndebug cfg). }
    rewrite (bind_eq _ _ _ _ _ A1), (bind_eq _ _ _ _ _ A2).
    rewrite add64_u64, Hv.
    assert (Hv1 : view sn None (db w1) = t).
    { rewrite <- Hv. destruct Hsame as (B1 & B2 & _).
      destruct sn as [[? ?]|]; [reflexivity|]. cbn. exact B1. }
    assert (Hf1 : faults (db w1) = no_faults).
    { destruct Hsame as (_ & _ & _ & B4 & _). now rewrite B4. }
    destruct (IH (k + 1) (total + numval (tget (full_key s k) t)) w1 Hf1 Hv1)
      as (w2 & E2 & S2 & Q1 & Q2 & Q3 & Q4).
    exists w2. rewrite E2. rewrite N.add_assoc.
    split; [reflexivity|].
    split; [eapply same_data_trans; eassumption|].
    repeat split; congruence.
Qed.

End IdealRuns.

Section IdealVerify.

Variable cfg : Config.
Hypothesis Hsets : num_sets_ cfg <= 9999.

Let balanced_ := balanced (num_sets_ cfg) (num_keys_ cfg).

Lemma use_point_lookup_total (nkps : N) (has_rand : bool) (w : World) :
  exists b w1,
    use_point_lookup nkps has_rand w = Ret b w1 /\ draws_only w w1 /\
    (b = true -> nkps <> 0).
Proof.
  unfold use_point_lookup. destruct (N.eqb_spec nkps 0) as [E|E].
  - exists false, w. repeat split; [apply draws_only_refl|discriminate].
  - destruct has_rand.
    + destruct (OneIn 10 w) as [b w1|f] eqn:H.
      * exists b, w1. repeat split; auto. eapply OneIn_draws; eassumption.
      * exfalso. unfold OneIn, Uniform, Next, bind, ret in H.
        destruct (pop (rand_ w)); discriminate.
    + exists false, w. repeat split; [apply draws_only_refl|discriminate].
Qed.

(** The total [Verify] computes for a set of a balanced table, by either
    path. *)
Lemma set_total_ideal (sn : option Snapshot) (nkps : N) (has_rand : bool)
      (s T : N) (t : Table) (w : World) :
  s < num_sets_ cfg -> T < ULONG_MAX -> balanced_ T t ->
  nkps = 0 \/ num_keys_ cfg <= nkps ->
  faults (db w) = no_faults ->
  view sn None (db w) = t ->
  exists w',
    set_total cfg sn nkps has_rand s w = Ret (Some T) w' /\
    same_data w w' /\ console w' = console w /\
    view sn None (db w') = t /\
    live_iterators (db w') = live_iterators (db w).
Proof.
  intros Hs HT Hb Hn Hf Hv. unfold set_total.
  assert (H9 : ndebug cfg = true \/ s < 9999) by (right; lia).
  rewrite (bind_eq _ _ _ _ _ (assert_set_passes cfg s w H9)).
  destruct (use_point_lookup_total nkps has_rand w) as (b & w1 & E & D & Hb0).
  rewrite (bind_eq _ _ _ _ _ E).
  pose proof (draws_only_frame _ _ D) as (F1 & F2 & F3 & F4 & _).
  assert (Hf1 : faults (db w1) = no_faults) by now rewrite F3.
  assert (Hv1 : view sn None (db w1) = t) by now rewrite F3.
  destruct b.
  - destruct Hn as [->|Hn]; [now destruct (Hb0 eq_refl)|].
    change 0 with (u64 0) at 2.
    destruct (point_lookups_ideal cfg Hsets sn s T t Hs HT Hb
                (N.to_nat nkps) 0 0 w1 Hf1 Hv1)
      as (w2 & E2 & S2 & _ & _ & C2 & V2).
    rewrite (bind_eq _ _ _ _ _ E2). unfold ret.
    destruct Hb as (Hsort & Hwf & Hsum).
    rewrite (point_sum_all _ _ Hsets T s t (N.to_nat nkps) Hs Hsort Hwf)
      by lia.
    rewrite (Hsum s Hs). cbn [N.add]. rewrite u64_small by lia.
    exists w2. split; [reflexivity|].
    split; [eapply same_data_trans;
            [apply draws_only_same_data; exact D|exact S2]|].
    split; [congruence|]. split; [exact V2|].
    destruct S2 as (_ & _ & _ & _ & _ & I2 & _). now rewrite I2, F3.
  - assert (Hit : on_db (new_iterator sn) w1 =
                  Ret t (set_db (set_iterators (S (live_iterators (db w1)))
                                               (db w1)) w1)).
    { unfold on_db, new_iterator. now rewrite Hv1. }
    rewrite (bind_eq _ _ _ _ _ Hit). unfold bind at 1.
    rewrite (scan_total _ _ Hsets T s t _ Hs HT Hb).
    unfold bind, on_db_, modify, ret.
    eexists. split; [reflexivity|].
    unfold same_data. world_simpl. cbn [delete_iterator set_iterators table
      families pending faults live_snapshots live_iterators Nat.pred].
    rewrite F1, F2, F3, F4.
    repeat split; auto;
      destruct sn as [[? ?]|]; cbn in *; congruence.
Qed.

End IdealVerify.

Section IdealVerifyAll.

Variable cfg : Config.
Hypothesis Hsets : num_sets_ cfg <= 9999.

Let balanced_ := balanced (num_sets_ cfg) (num_keys_ cfg).

Lemma verify_sets_ideal (sn : option Snapshot) (nkps : N) (has_rand : bool)
      (T : N) (t : Table) :
  T < ULONG_MAX -> balanced_ T t ->
  nkps = 0 \/ num_keys_ cfg <= nkps ->
  forall (set_vec : list N) (p : Prev) (w : World),
    (forall s, In s set_vec -> s < num_sets_ cfg) ->
    (prev_assigned p = true -> prev_total p = T) ->
    faults (db w) = no_faults ->
    view sn None (db w) = t ->
    exists p' w',
      verify_sets cfg sn nkps has_rand set_vec p w = Ret (inr p') w' /\
      same_data w w' /\ console w' = console w.
Proof.
  intros HT Hb Hn. induction set_vec as [|s rest IH]; intros p w Hin Hp Hf Hv.
  - exists p, w. repeat split.
  - cbn [verify_sets].
    destruct (set_total_ideal cfg Hsets sn nkps has_rand s T t w
                (Hin s (or_introl eq_refl)) HT Hb Hn Hf Hv)
      as (w1 & E & S1 & C1 & V1 & _).
    rewrite (bind_eq _ _ _ _ _ E). cbv beta iota.
    assert (Hno : prev_assigned p && negb (T =? prev_total p) = false).
    { destruct (prev_assigned p); [|reflexivity].
      rewrite (Hp eq_refl), N.eqb_refl. reflexivity. }
    rewrite Hno.
    assert (Hf1 : faults (db w1) = no_faults).
    { destruct S1 as (_ & _ & _ & F & _). now rewrite F. }
    destruct (IH (mkPrev T s true) w1
                 (fun x Hx => Hin x (or_intror Hx)) (fun _ => eq_refl) Hf1 V1)
      as (p' & w2 & E2 & S2 & C2).
    exists p', w2. split; [exact E2|].
    split; [eapply same_data_trans; eassumption|congruence].
Qed.

Lemma std_shuffle_iota (n : N) (w : World) :
  exists set_vec w',
    std_shuffle (iota n) w = Ret set_vec w' /\ draws_only w w' /\
    Permutation set_vec (iota n).
Proof.
  destruct (shuffle_loop_total device_pick device_pick_total
              (List.length (iota n) - 1) 1 (iota n) w) as (sv & w' & H).
  exists sv, w'. split; [exact H|]. split.
  - eapply std_shuffle_draws; exact H.
  - eapply shuffle_loop_perm; exact H.
Qed.

(** [Verify] on a balanced store that answers: OK, whatever it draws. *)
Lemma Verify_ideal (nkps : N) (take_snapshot has_rand : bool) (T : N)
      (w : World) :
  T < ULONG_MAX ->
  balanced_ T (table (db w)) ->
  faults (db w) = no_faults ->
  nkps = 0 \/ num_keys_ cfg <= nkps ->
  exists w',
    Verify cfg (num_sets_ cfg) nkps take_snapshot has_rand w
    = Ret Status.OK w' /\
    table (db w') = table (db w) /\
    live_snapshots (db w') = live_snapshots (db w) /\
    live_iterators (db w') = live_iterators (db w).
Proof.
  intros HT Hb Hf Hn. unfold Verify.
  set (t := table (db w)) in *.
  assert (Hbegin : exists sn w0,
             (if take_snapshot
              then bind (on_db get_snapshot) (fun sn => ret (Some sn))
              else ret None) w = Ret sn w0 /\
             view sn None (db w0) = t /\ faults (db w0) = no_faults /\
             table (db w0) = t /\
             live_iterators (db w0) = live_iterators (db w) /\
             live_snapshots (db w0)
             = (if take_snapshot then S (live_snapshots (db w))
                else live_snapshots (db w))).
  { destruct take_snapshot.
    - eexists. eexists. split; [reflexivity|]. cbn. auto.
    - exists None, w. repeat split; auto. }
  destruct Hbegin as (sn & w0 & E0 & V0 & F0 & T0 & I0 & L0).
  destruct (std_shuffle_iota (num_sets_ cfg) w0) as (sv & w1 & E1 & D1 & P1).
  assert (Hvb : verify_begin (num_sets_ cfg) take_snapshot w
                = Ret (sn, sv) w1).
  { unfold verify_begin. rewrite (bind_eq _ _ _ _ _ E0).
    now rewrite (bind_eq _ _ _ _ _ E1). }
  rewrite (bind_eq _ _ _ _ _ Hvb). cbv beta iota.
  pose proof (draws_only_frame _ _ D1) as (_ & _ & G & _).
  destruct (verify_sets_ideal sn nkps has_rand T t HT Hb Hn sv
              (mkPrev 0 0 false) w1) as (p' & w2 & E2 & S2 & _).
  - intros s Hs. apply iota_In. eapply Permutation_in; eassumption.
  - discriminate.
  - now rewrite G.
  - now rewrite G.
  - rewrite (bind_eq _ _ _ _ _ E2). cbv beta iota.
    destruct S2 as (A1 & _ & _ & _ & A5 & A6 & _).
    destruct take_snapshot.
    + eexists. split; [reflexivity|]. cbn. rewrite A1, A5, A6, G.
      rewrite L0. repeat split; auto.
    + exists w2. split; [reflexivity|]. rewrite A1, A5, A6, G.
      repeat split; auto.
Qed.

End IdealVerifyAll.

(* ===================================================================== *)
(** * A transaction on a store that does not fail *)
(* ===================================================================== *)

Section IdealInsert.

Variable cfg : Config.
Hypothesis Hsets : num_sets_ cfg <= 9999.
Hypothesis Hkeys : 0 < num_keys_ cfg.

Let balanced_ := balanced (num_sets_ cfg) (num_keys_ cfg).

Lemma Next_eq (w : World) :
  Next w = Ret (fst (pop (rand_ w))) (set_rand (snd (pop (rand_ w))) w).
Proof. unfold Next. now destruct (pop (rand_ w)). Qed.

Lemma OneIn_eq (n : N) (w : World) :
  exists b, OneIn n w = Ret b (set_rand (snd (pop (rand_ w))) w).
Proof.
  unfold OneIn, Uniform, bind. rewrite (Next_eq w). unfold ret.
  eexists. reflexivity.
Qed.

Lemma umod_eq (a : N) (w : World) :
  umod a (num_keys_ cfg) w = Ret (a mod num_keys_ cfg) w.
Proof.
  unfold umod. destruct (N.eqb_spec (num_keys_ cfg) 0); [lia|reflexivity].
Qed.

(** No pending write of another set hides a key. *)
Lemma pending_get_other_sets (s k : N) (p : list WriteOp) :
  s < 9999 ->
  Forall (fun w => exists s' k' v,
              w = WPut None (full_key s' k') v /\ s' < 9999 /\ s' <> s) p ->
  pending_get None (full_key s k) p = None.
Proof.
  intros Hs. induction 1 as [|w p (s' & k' & v & -> & Hs' & Hne) _ IH];
    [reflexivity|].
  cbn [pending_get].
  destruct (String.eqb_spec (full_key s k) (full_key s' k')) as [E|_].
  - apply full_key_inj in E; [|assumption|assumption]. destruct E. congruence.
  - exact IH.
Qed.

Definition in_range (p : N * N) : Prop :=
  fst p < num_sets_ cfg /\ snd p < num_keys_ cfg.

Lemma pending_of_picks (t : Table) (incr : N) (picks : list (N * N))
      (p : list WriteOp) (s k : N) :
  List.rev p = map (write_of t incr) picks ->
  Forall in_range picks ->
  s < num_sets_ cfg ->
  ~ In s (map fst picks) ->
  pending_get None (full_key s k) p = None.
Proof.
  intros Hp Hr Hs Hnin. apply pending_get_other_sets; [lia|].
  rewrite <- (rev_involutive p), Hp.
  apply Forall_rev. apply Forall_forall. intros w Hw.
  apply in_map_iff in Hw. destruct Hw as ([s' k'] & <- & Hin).
  rewrite Forall_forall in Hr. destruct (Hr _ Hin) as (A & _). cbn in A.
  eexists s', k', _. split; [reflexivity|]. split; [lia|].
  intros ->. apply Hnin. apply in_map_iff. now exists (s, k').
Qed.

(** What the loop of [DoInsert] keeps: the committed table, a store that
    answers, a snapshot that shows the committed table, and the writes so
    far, one per set visited. *)
Definition loop_inv (use_txn : bool) (t : Table) (incr : N)
           (picks : list (N * N)) (batch : list WriteOp) (w : World) : Prop :=
  table (db w) = t /\ faults (db w) = no_faults /\
  (read_snapshot w = None \/ exists fs, read_snapshot w = Some (t, fs)) /\
  (if use_txn
   then List.rev (pending (db w)) = map (write_of t incr) picks /\ batch = []
   else batch = map (write_of t incr) picks) /\
  Forall in_range picks.

Lemma loop_inv_view (use_txn : bool) (t : Table) (incr : N)
      (picks : list (N * N)) (batch : list WriteOp) (w : World) :
  loop_inv use_txn t incr picks batch w ->
  view (read_snapshot w) None (db w) = t.
Proof.
  intros (A & _ & [B|(fs & B)] & _); rewrite B; [exact A|reflexivity].
Qed.

Lemma insert_loop_ideal (use_txn is_optimistic : bool) (incr T : N)
      (t : Table) :
  balanced_ T t -> T < ULONG_MAX ->
  forall (set_vec : list N) (picks : list (N * N)) (s : Status) (ue : bool)
         (batch : list WriteOp) (w : World),
    loop_inv use_txn t incr picks batch w ->
    ok s = true ->
    (forall x, In x set_vec -> x < num_sets_ cfg) ->
    NoDup (map fst picks ++ set_vec) ->
    exists picks' s' batch' w',
      insert_loop cfg use_txn is_optimistic incr set_vec s ue batch w
      = Ret (s', ue, batch') w' /\
      ok s' = true /\
      loop_inv use_txn t incr picks' batch' w' /\
      map fst picks' = map fst picks ++ set_vec /\
      families (db w') = families (db w) /\
      read_snapshot w' = read_snapshot w /\
      (use_txn = false -> pending (db w') = pending (db w)).
Proof.
  intros Hb HT.
  induction set_vec as [|set_i rest IH];
    intros picks s ue batch w Hinv Hs Hin Hnd.
  - exists picks, s, batch, w. rewrite app_nil_r.
    split; [reflexivity|]. split; [exact Hs|]. split; [exact Hinv|].
    repeat split; auto.
  - cbn [insert_loop].
    rewrite (bind_eq _ _ _ _ _ (Next_eq w)).
    set (wa := set_rand (snd (pop (rand_ w))) w).
    rewrite (bind_eq _ _ _ _ _ (umod_eq _ wa)).
    set (rand_key := fst (pop (rand_ w)) mod num_keys_ cfg).
    assert (Hkey : rand_key < num_keys_ cfg) by (apply N.mod_lt; lia).
    assert (Hgfu : exists gfu wb,
               (if use_txn then OneIn 2 else ret false) wa = Ret gfu wb /\
               draws_only wa wb).
    { destruct use_txn.
      - destruct (OneIn_eq 2 wa) as (b & E). exists b. eexists.
        split; [exact E|]. eapply OneIn_draws; exact E.
      - exists false, wa. split; [reflexivity|apply draws_only_refl]. }
    destruct Hgfu as (gfu & wb & Egfu & Dgfu).
    rewrite (bind_eq _ _ _ _ _ Egfu).
    unfold get_world at 1. unfold bind at 1.
    pose proof (draws_only_frame _ _ Dgfu) as (B1 & B2 & B3 & B4 & _).
    destruct Hinv as (I1 & I2 & I3 & I4 & I5).
    assert (Hset : set_i < num_sets_ cfg) by (apply Hin; now left).
    assert (Hnew : ~ In set_i (map fst picks)).
    { intros Hx. apply NoDup_remove_2 in Hnd. apply Hnd.
      apply in_or_app. now left. }
    assert (Hview : view (read_snapshot wb) None (db wb) = t).
    { rewrite B3, B4. subst wa. cbn [read_snapshot set_rand db].
      destruct I3 as [->|(fs & ->)]; [exact I1|reflexivity]. }
    assert (Hfb : faults (db wb) = no_faults) by now rewrite B3.
    destruct (DBGet_ideal cfg Hsets use_txn (read_snapshot wb) set_i rand_key
                gfu 0 ue wb T Hfb Hset ltac:(now rewrite Hview) HT)
      as (wc & Eget & Sc & _ & _ & _).
    { intros ->. rewrite B3. subst wa. cbn [db set_rand].
      destruct I4 as (I4 & _).
      now apply (pending_of_picks t incr picks). }
    rewrite (bind_eq _ _ _ _ _ Eget). cbv beta iota.
    change (negb (ok Status.OK)) with false. cbv iota.
    rewrite Hview.
    set (key := full_key set_i rand_key).
    set (sum := ToString (add64 (numval (tget key t)) incr)).
    destruct Sc as (C1 & C2 & C3 & C4 & C5 & C6 & C7 & C8).
    assert (Hnd' : NoDup (map fst (picks ++ [(set_i, rand_key)]) ++ rest)).
    { rewrite map_app. cbn [map fst]. now rewrite <- app_assoc. }
    assert (Hr' : Forall in_range (picks ++ [(set_i, rand_key)])).
    { apply Forall_app. split; [exact I5|]. constructor; [|constructor].
      split; assumption. }
    assert (Hin' : forall x, In x rest -> x < num_sets_ cfg).
    { intros x Hx. apply Hin. now right. }
    assert (Hsnap : read_snapshot wc = None \/
                    exists fs, read_snapshot wc = Some (t, fs)).
    { rewrite C7, B4. subst wa. exact I3. }
    destruct use_txn.
    + destruct I4 as (I4 & ->).
      destruct (txn_put_ideal key sum (db wc) ltac:(now rewrite C4))
        as (d' & Eput & P1 & P2 & P3 & P4 & P5 & P6).
      rewrite (bind_eq _ _ _ _ _ (on_db_eq _ wc _ d' Eput)).
      change (IsBusy Status.OK || IsTimedOut Status.OK) with false.
      rewrite andb_false_r. change (negb (ok Status.OK)) with false.
      cbv iota. unfold ret at 1. unfold bind at 1.
      unfold on_stats, modify. unfold bind at 1.
      match goal with
      | |- context [insert_loop _ _ _ _ rest _ _ _ ?W] =>
          destruct (fun H => IH (picks ++ [(set_i, rand_key)]) Status.OK ue []
                                W H eq_refl Hin' Hnd')
          as (picks' & s' & batch' & w' & E' & Hs' & Hinv' & Hm & Hfam
              & Hrs & _)
      end.
      * unfold loop_inv. world_simpl.
        rewrite P1, P3, P4, C1, C3, B3. subst wa. cbn [db set_rand].
        repeat split; auto.
        cbn [List.rev]. rewrite I4, map_app. reflexivity.
      * exists picks', s', batch', w'.
        split; [exact E'|]. split; [exact Hs'|]. split; [exact Hinv'|].
        split; [rewrite Hm, map_app; cbn [map fst];
                now rewrite <- app_assoc|].
        split; [rewrite Hfam; world_simpl; rewrite P2, C2, B3;
                reflexivity|].
        split; [rewrite Hrs; world_simpl; rewrite C7, B4; reflexivity
               |discriminate].
    + unfold on_stats, modify. unfold bind at 1.
      match goal with
      | |- context [insert_loop _ _ _ _ rest _ _ _ ?W] =>
          destruct (fun H => IH (picks ++ [(set_i, rand_key)]) Status.OK ue
                                (batch ++ [WPut None key sum])
                                W H eq_refl Hin' Hnd')
          as (picks' & s' & batch' & w' & E' & Hs' & Hinv' & Hm & Hfam
              & Hrs & Hp)
      end.
      * unfold loop_inv. world_simpl.
        rewrite C1, C4, B3. subst wa. cbn [db set_rand].
        repeat split; auto.
        rewrite I4, map_app. reflexivity.
      * exists picks', s', batch', w'.
        split; [exact E'|]. split; [exact Hs'|]. split; [exact Hinv'|].
        split; [rewrite Hm, map_app; cbn [map fst];
                now rewrite <- app_assoc|].
        split; [rewrite Hfam; world_simpl; rewrite C2, B3; reflexivity|].
        split; [rewrite Hrs; world_simpl; rewrite C7, B4; reflexivity|].
        intros _. rewrite (Hp eq_refl). world_simpl.
        rewrite C3, B3. reflexivity.
Qed.

End IdealInsert.

Section IdealFinish.

Variable cfg : Config.

Lemma assert_true (w : World) : assert_ cfg (ret true) w = Ret tt w.
Proof. unfold assert_. now destruct (ndebug cfg). Qed.

(** The optional [Prepare] of lines 542-546, and what follows it. *)
Lemma prepare_ideal (is_optimistic : bool) (s : Status) (w : World) :
  faults (db w) = no_faults -> ok s = true ->
  exists s1 w1,
    (forall (B : Type) (K : Status -> M B),
        bind (if is_optimistic then ret false
              else bind (OneIn 10) (fun b => ret (negb b)))
             (fun with_prepare =>
                bind (if with_prepare
                      then bind (on_db txn_prepare)
                                (fun s' => bind (assert_ cfg (ret (ok s')))
                                                (fun _ => ret s'))
                      else ret s) K) w = K s1 w1) /\
    ok s1 = true /\
    table (db w1) = table (db w) /\ families (db w1) = families (db w) /\
    pending (db w1) = pending (db w) /\ faults (db w1) = no_faults /\
    read_snapshot w1 = read_snapshot w.
Proof.
  intros Hf Hs.
  assert (Hno : forall w0 : World,
             faults (db w0) = no_faults ->
             exists s1 w1,
               bind (on_db txn_prepare)
                    (fun s' => bind (assert_ cfg (ret (ok s')))
                                    (fun _ => ret s')) w0 = Ret s1 w1 /\
               ok s1 = true /\
               table (db w1) = table (db w0) /\
               families (db w1) = families (db w0) /\
               pending (db w1) = pending (db w0) /\
               faults (db w1) = no_faults /\
               read_snapshot w1 = read_snapshot w0).
  { intros w0 H0.
    destruct (txn_prepare_ideal (db w0) H0) as (d' & E & P1 & P2 & P3 & P4 & _).
    rewrite (bind_eq _ _ _ _ _ (on_db_eq _ w0 _ d' E)).
    change (ok Status.OK) with true.
    rewrite (bind_eq _ _ _ _ _ (assert_true _)).
    exists Status.OK. eexists. split; [reflexivity|].
    world_simpl. repeat split; auto. }
  destruct is_optimistic.
  - exists s, w. split; [reflexivity|]. repeat split; auto.
  - destruct (OneIn_eq 10 w) as (b & E).
    assert (E' : bind (OneIn 10) (fun b => ret (negb b)) w
                 = Ret (negb b) (set_rand (snd (pop (rand_ w))) w))
      by now rewrite (bind_eq _ _ _ _ _ E).
    destruct b; cbn [negb] in E'.
    + exists s. eexists. split.
      * intros B K. rewrite (bind_eq _ _ _ _ _ E'). reflexivity.
      * world_simpl. repeat split; auto.
    + destruct (Hno (set_rand (snd (pop (rand_ w))) w) Hf)
        as (s1 & w1 & E1 & A).
      exists s1, w1. split; [|exact A].
      intros B K. rewrite (bind_eq _ _ _ _ _ E').
      now rewrite (bind_eq _ _ _ _ _ E1).
Qed.

(** Lines 540-589, when the loop succeeded and the store answers: the
    writes are applied, by [Commit] or by [Write], or dropped by the
    deliberate [Rollback]. *)
Lemma finish_ideal (use_txn is_optimistic : bool) (s : Status) (ue : bool)
      (batch : list WriteOp) (w : World) (t' : Table) (fs' : list Table) :
  ok s = true ->
  faults (db w) = no_faults ->
  apply_batch (if use_txn then List.rev (pending (db w)) else batch)
              (table (db w), families (db w)) = (t', fs') ->
  exists s' w',
    finish cfg use_txn is_optimistic s ue batch w = Ret (s', ue) w' /\
    ok s' = true /\
    faults (db w') = no_faults /\
    read_snapshot w' = read_snapshot w /\
    ((table (db w') = t' /\
      exists rest,
        calls (db w')
        = ((if use_txn then OpCommit else OpWrite batch), s') :: rest) \/
     (table (db w') = table (db w) /\
      exists rest, calls (db w') = (OpRollback, s') :: rest)).
Proof.
  intros Hs Hf Ha. unfold finish. rewrite Hs. destruct use_txn.
  - destruct (prepare_ideal is_optimistic s w Hf Hs)
      as (s1 & w1 & E1 & _ & P1 & P2 & P3 & P4 & P5).
    rewrite E1.
    destruct (OneIn_eq 20 w1) as (b & E2).
    rewrite (bind_eq _ _ _ _ _ E2).
    set (w2 := set_rand (snd (pop (rand_ w1))) w1).
    destruct b; cbn [negb].
    + destruct (txn_rollback_ideal (db w2) P4)
        as (d' & E & R1 & R2 & R3 & R4 & _).
      assert (E' : bind (on_db txn_rollback)
                        (fun s' => bind (assert_ cfg (ret (ok s')))
                                        (fun _ => ret s')) w2
                   = Ret Status.OK (set_db d' w2)).
      { rewrite (bind_eq _ _ _ _ _ (on_db_eq _ w2 _ d' E)).
        change (ok Status.OK) with true.
        now rewrite (bind_eq _ _ _ _ _ (assert_true _)). }
      rewrite (bind_eq _ _ _ _ _ E').
      change (ok Status.OK) with true. rewrite orb_true_r.
      rewrite (bind_eq _ _ _ _ _ (assert_true _)).
      pose proof (txn_rollback_calls _ _ _ E) as Cl.
      exists Status.OK. eexists. split; [reflexivity|].
      subst w2. world_simpl.
      split; [reflexivity|]. split; [assumption|]. split; [congruence|].
      right. split; [congruence|]. eexists. exact Cl.
    + assert (Ha2 : apply_batch (List.rev (pending (db w2)))
                                (table (db w2), families (db w2)) = (t', fs')).
      { subst w2. cbn [db set_rand]. now rewrite P1, P2, P3. }
      destruct (txn_commit_ideal (db w2) t' fs' P4 Ha2)
        as (d' & E & R1 & R2 & R3 & R4 & _).
      rewrite (bind_eq _ _ _ _ _ (on_db_eq _ w2 _ d' E)).
      change (ok Status.OK) with true. rewrite orb_true_r.
      rewrite (bind_eq _ _ _ _ _ (assert_true _)).
      pose proof (txn_commit_calls _ _ _ E) as Cl.
      exists Status.OK. eexists. split; [reflexivity|].
      subst w2. world_simpl.
      split; [reflexivity|]. split; [assumption|]. split; [congruence|].
      left. split; [congruence|]. eexists. exact Cl.
  - destruct (db_write_ideal batch (db w) t' fs' Hf Ha)
      as (d' & E & R1 & R2 & R3 & R4 & _).
    rewrite (bind_eq _ _ _ _ _ (on_db_eq _ w _ d' E)).
    change (negb (ok Status.OK)) with false. cbv iota.
    pose proof (db_write_calls _ _ _ _ E) as Cl.
    exists Status.OK. eexists. split; [reflexivity|].
    world_simpl.
    split; [reflexivity|]. split; [assumption|]. split; [reflexivity|].
    left. split; [assumption|]. eexists. exact Cl.
Qed.

End IdealFinish.

(** How a transaction over sets that add up to [T] ended, by its last
    call, which answered OK: rolled back, with the table as it was and
    the total still [T], or committed (written, without a transaction),
    with the total at [T + incr]. *)
Definition settled (T T' incr : N) (w w' : World) : Prop :=
  exists op st rest,
    calls (db w') = (op, st) :: rest /\ ok st = true /\
    ((op = OpRollback /\ T' = T /\ table (db w') = table (db w)) \/
     ((op = OpCommit \/ exists b, op = OpWrite b) /\ T' = T + incr)).

Lemma settled_between (T T' incr : N) (w0 w1 w w' : World) :
  settled T T' incr w0 w1 ->
  table (db w0) = table (db w) ->
  calls (db w') = calls (db w1) -> table (db w') = table (db w1) ->
  settled T T' incr w w'.
Proof.
  intros (op & st & rest & C & Hok & H) Ht Hc Ht'.
  exists op, st, rest. rewrite Hc, Ht', <- Ht. auto.
Qed.

Section IdealTransaction.

Variable cfg : Config.
Hypothesis Hsets : num_sets_ cfg <= 9999.
Hypothesis Hkeys : 0 < num_keys_ cfg.

Let balanced_ := balanced (num_sets_ cfg) (num_keys_ cfg).

(** One [DoInsert] on a balanced store that answers: it returns [true],
    and every set has moved by the same amount, the increment or
    nothing. *)
Lemma DoInsert_ideal (use_txn is_optimistic : bool) (T : N) (w : World) :
  balanced_ T (table (db w)) ->
  T + 100 < ULONG_MAX ->
  faults (db w) = no_faults ->
  (read_snapshot w = None \/
   exists fs, read_snapshot w = Some (table (db w), fs)) ->
  (use_txn = true -> pending (db w) = []) ->
  exists w' T',
    DoInsert cfg use_txn is_optimistic w = Ret true w' /\
    balanced_ T' (table (db w')) /\ T <= T' <= T + 100 /\
    faults (db w') = no_faults /\
    read_snapshot w' = read_snapshot w /\
    settled T T' (first_draw w mod 100 + 1) w w'.
Proof.
  intros Hb HT Hf Hsn Hp.
  assert (Ht0 : table (db w) = table (db w)) by reflexivity.
  set (t := table (db w)) in Hb, Hsn, Ht0 |- *.
  unfold first_draw.
  set (wa := set_rand (snd (pop (rand_ w))) w).
  set (r := fst (pop (rand_ w))).
  assert (Hr : r mod 100 < 100) by (apply N.mod_lt; lia).
  assert (Hincr : add64 (r mod 100) 1 = r mod 100 + 1).
  { unfold add64, u64. apply N.mod_small. revert Hr.
    generalize (r mod 100). intros m Hm. lia. }
  set (incr := r mod 100 + 1).
  assert (Hi : 1 <= incr /\ incr <= 100).
  { unfold incr. revert Hr. generalize (r mod 100). intros m Hm. lia. }
  destruct Hi as (Hi1 & Hi2).
  assert (HTi : T + incr < ULONG_MAX) by lia.
  assert (HT0 : T < ULONG_MAX) by lia.
  destruct (std_shuffle_iota (num_sets_ cfg) wa) as (sv & wb & E1 & D1 & P1).
  pose proof (draws_only_frame _ _ D1) as (_ & _ & G & G' & _).
  assert (Hinv : loop_inv cfg use_txn t incr [] [] wb).
  { unfold loop_inv. rewrite G, G'. subst wa. world_simpl.
    split; [reflexivity|]. split; [exact Hf|]. split; [exact Hsn|].
    split; [|constructor].
    destruct use_txn; [|reflexivity]. rewrite (Hp eq_refl). now split. }
  destruct (insert_loop_ideal cfg Hsets Hkeys use_txn is_optimistic incr T t
              Hb HT0 sv [] Status.OK false [] wb Hinv eq_refl)
    as (picks & s1 & batch & wc & E2 & Hs1 & Hinv2 & Hm & Hfam & Hrs & Hpend).
  { intros x Hx. apply iota_In. eapply Permutation_in; eassumption. }
  { cbn. eapply Permutation_NoDup; [apply Permutation_sym; exact P1|].
    apply iota_NoDup. }
  assert (Ephase : insert_phase cfg use_txn is_optimistic w
                   = Ret (s1, false, batch) wc).
  { unfold insert_phase. rewrite (bind_eq _ _ _ _ _ (Next_eq w)).
    fold r. rewrite Hincr. fold incr. fold wa.
    now rewrite (bind_eq _ _ _ _ _ E1). }
  clearbody incr.
  destruct Hinv2 as (J1 & J2 & J3 & J4 & J5).
  cbn [map fst List.app] in Hm.
  assert (Hnd : NoDup (map fst picks)).
  { rewrite Hm. eapply Permutation_NoDup; [apply Permutation_sym; exact P1|].
    apply iota_NoDup. }
  destruct (apply_picks _ _ Hsets T incr t (families (db wc)) Hb
              HTi Hi1 picks Hnd J5) as (tc & Ea & Hpart).
  assert (Hbal : balanced_ (T + incr) tc).
  { eapply partly_all; [exact Hpart|]. intros s Hs. rewrite Hm.
    eapply Permutation_in; [apply Permutation_sym; exact P1|].
    now apply iota_In. }
  assert (Ha : apply_batch
                 (if use_txn then List.rev (pending (db wc)) else batch)
                 (table (db wc), families (db wc)) = (tc, families (db wc))).
  { rewrite J1. destruct use_txn.
    - destruct J4 as (-> & _). exact Ea.
    - rewrite J4. exact Ea. }
  destruct (finish_ideal cfg use_txn is_optimistic s1 false batch wc tc _
              Hs1 J2 Ha) as (s2 & wd & E3 & Hs2 & F1 & F2 & F3).
  assert (Erun : DoInsert cfg use_txn is_optimistic w =
                 Ret true
                     (set_last_status s2
                        (set_stats ((if ok s2 then add_success
                                     else add_failure) (stats wd)) wd))).
  { unfold DoInsert. rewrite (bind_eq _ _ _ _ _ Ephase). cbv beta iota.
    rewrite (bind_eq _ _ _ _ _ E3). cbv beta iota.
    now rewrite (bind_eq _ _ _ _ _ (tally_returns s2 wd)). }
  assert (Hsnap : read_snapshot wd = read_snapshot w).
  { rewrite F2, Hrs, G'. reflexivity. }
  destruct F3 as [(F3 & rest & Cl)|(F3 & rest & Cl)].
  - eexists. exists (T + incr). split; [exact Erun|]. world_simpl.
    rewrite F3. split; [exact Hbal|]. split; [lia|].
    split; [exact F1|]. split; [exact Hsnap|].
    eexists. exists s2, rest. world_simpl.
    split; [exact Cl|]. split; [exact Hs2|]. right.
    split; [|reflexivity]. destruct use_txn; eauto.
  - eexists. exists T. split; [exact Erun|]. world_simpl.
    rewrite F3, J1. split; [exact Hb|]. split; [lia|].
    split; [exact F1|]. split; [exact Hsnap|].
    exists OpRollback, s2, rest. world_simpl.
    split; [exact Cl|]. split; [exact Hs2|]. left.
    split; [reflexivity|]. split; [reflexivity|].
    rewrite F3, J1. symmetry. exact Ht0.
Qed.

End IdealTransaction.

(* ===================================================================== *)
(** * Sequences of transactions *)
(* ===================================================================== *)

(** The entry points that run the [Transaction] overload of [DoInsert]. *)
Inductive Entry : Type :=
| ViaTransactionDB
| ViaOptimisticTransactionDB
| ViaDB.

Definition run_entry (cfg : Config) (e : Entry) : M bool :=
  match e with
  | ViaTransactionDB => TransactionDBInsert cfg
  | ViaOptimisticTransactionDB => OptimisticTransactionDBInsert cfg
  | ViaDB => DBInsert cfg
  end.

(** One thread calling the entry points one after the other. *)
Fixpoint run_all (cfg : Config) (es : list Entry) : M (list bool) :=
  match es with
  | [] => ret []
  | e :: rest =>
      bind (run_entry cfg e)
           (fun b => bind (run_all cfg rest) (fun bs => ret (b :: bs)))
  end.

Section IdealSequence.

Variable cfg : Config.
Hypothesis Hsets : num_sets_ cfg <= 9999.
Hypothesis Hkeys : 0 < num_keys_ cfg.

(** Between transactions: a balanced table, a store that answers, no
    snapshot in the read options. *)
Definition good (T : N) (w : World) : Prop :=
  balanced (num_sets_ cfg) (num_keys_ cfg) T (table (db w)) /\
  faults (db w) = no_faults /\
  read_snapshot w = None.

(** The draw that gives the increment: the first of the run, after the
    draw for the snapshot in [TransactionDBInsert]. *)
Definition entry_increment (e : Entry) (w : World) : N :=
  match e with
  | ViaTransactionDB => second_draw w
  | _ => first_draw w
  end mod 100 + 1.

Lemma run_entry_ideal (e : Entry) (T : N) (w : World) :
  good T w -> T + 100 < ULONG_MAX ->
  exists w' T',
    run_entry cfg e w = Ret true w' /\ good T' w' /\ T <= T' <= T + 100 /\
    settled T T' (entry_increment e w) w w'.
Proof.
  intros (Hb & Hf & Hsn) HT. destruct e; cbn [run_entry].
  - unfold TransactionDBInsert.
    unfold on_db_ at 1. unfold modify at 1. unfold bind at 1.
    unfold modify at 1. unfold bind at 1.
    match goal with
    | |- context [bind (OneIn 2) _ ?W] => set (w0 := W)
    end.
    destruct (OneIn_eq 2 w0) as (b & E).
    rewrite (bind_eq _ _ _ _ _ E).
    set (w1 := set_rand (snd (pop (rand_ w0))) w0).
    assert (Hsnap : exists w2,
               (if b
                then bind get_world
                       (fun w => modify
                                   (set_read_snapshot
                                      (Some (table (db w), families (db w)))))
                else ret tt) w1 = Ret tt w2 /\
               table (db w2) = table (db w) /\
               faults (db w2) = no_faults /\
               pending (db w2) = [] /\
               (read_snapshot w2 = None \/
                exists fs, read_snapshot w2 = Some (table (db w2), fs)) /\
               (b = false -> read_snapshot w2 = None)).
    { destruct b.
      - eexists. split; [reflexivity|]. subst w1 w0. world_simpl.
        cbn [begin_transaction set_pending table faults pending families].
        repeat split; auto; [|discriminate]. right. eexists. reflexivity.
      - exists w1. split; [reflexivity|]. subst w1 w0. world_simpl.
        cbn [begin_transaction set_pending table faults pending].
        repeat split; auto. }
    destruct Hsnap as (w2 & E2 & A1 & A2 & A3 & A4 & A5).
    rewrite (bind_eq _ _ _ _ _ E2).
    destruct (DoInsert_ideal cfg Hsets Hkeys true false T w2
                ltac:(now rewrite A1) HT A2 A4 (fun _ => A3))
      as (w3 & T' & E3 & B1 & B2 & B3 & B4 & B5).
    rewrite (bind_eq _ _ _ _ _ E3).
    assert (Hd : first_draw w2 = second_draw w).
    { assert (R2 : rand_ w2 = rand_ w1).
      { destruct b; inversion E2; reflexivity. }
      unfold first_draw, second_draw. rewrite R2. reflexivity. }
    rewrite Hd in B5.
    destruct b.
    + eexists. exists T'. split; [reflexivity|].
      split; [unfold good; world_simpl; auto|]. split; [exact B2|].
      eapply settled_between; [exact B5|exact A1|reflexivity|reflexivity].
    + exists w3, T'. split; [reflexivity|]. split; [|split; [exact B2|]].
      * unfold good. split; [exact B1|]. split; [exact B3|].
        rewrite B4. now apply A5.
      * eapply settled_between; [exact B5|exact A1|reflexivity|reflexivity].
  - unfold OptimisticTransactionDBInsert.
    unfold on_db_ at 1. unfold modify at 1. unfold bind at 1.
    match goal with
    | |- context [DoInsert _ _ _ ?W] => set (w0 := W)
    end.
    destruct (DoInsert_ideal cfg Hsets Hkeys true true T w0)
      as (w3 & T' & E3 & B1 & B2 & B3 & B4 & B5); subst w0; world_simpl;
      cbn [begin_transaction set_pending table faults pending]; auto.
    exists w3, T'. split; [exact E3|]. split; [|split; [exact B2|]].
    + unfold good. split; [exact B1|]. split; [exact B3|].
      rewrite B4. exact Hsn.
    + eapply settled_between; [exact B5|reflexivity|reflexivity|reflexivity].
  - unfold DBInsert.
    destruct (DoInsert_ideal cfg Hsets Hkeys false false T w)
      as (w3 & T' & E3 & B1 & B2 & B3 & B4 & B5); auto; [discriminate|].
    exists w3, T'. split; [exact E3|]. split; [|split; [exact B2|exact B5]].
    unfold good. split; [exact B1|]. split; [exact B3|].
    rewrite B4. exact Hsn.
Qed.

Lemma run_all_ideal (es : list Entry) :
  forall (T : N) (w : World),
    good T w ->
    T + 100 * N.of_nat (List.length es) < ULONG_MAX ->
    exists bs w' T',
      run_all cfg es w = Ret bs w' /\
      Forall (fun b => b = true) bs /\
      good T' w' /\ T' < ULONG_MAX.
Proof.
  induction es as [|e rest IH]; intros T w Hg HT.
  - exists [], w, T. split; [reflexivity|]. split; [constructor|].
    split; [exact Hg|]. cbn [List.length] in HT.
    change (N.of_nat 0) with 0 in HT. lia.
  - cbn [run_all].
    cbn [List.length] in HT. rewrite Nat2N.inj_succ in HT.
    assert (HT1 : T + 100 < ULONG_MAX) by lia.
    destruct (run_entry_ideal e T w Hg HT1) as (w1 & T1 & E1 & G1 & B1 & _).
    rewrite (bind_eq _ _ _ _ _ E1).
    assert (HT2 : T1 + 100 * N.of_nat (List.length rest) < ULONG_MAX) by lia.
    destruct (IH T1 w1 G1 HT2) as (bs & w2 & T2 & E2 & F2 & G2 & B2).
    rewrite (bind_eq _ _ _ _ _ E2). unfold ret.
    exists (true :: bs), w2, T2. split; [reflexivity|].
    split; [now constructor|]. split; assumption.
Qed.

End IdealSequence.

Module Scenario5.

(** Three sets of ten keys, nothing stored yet, a store that answers;
    enough draws for three transactions. *)
Definition fresh : World :=
  world [1; 4; 3; 1; 6; 1; 2; 1; 1; 1;
         41; 7; 7; 7;
         9; 3; 0; 6; 1; 2; 0; 1]
        [0; 1; 1; 2; 0; 1]
        (store [] no_faults).

End Scenario5.

Import Scenario5.

(** X23.  Start from a key space where nothing is stored, with a store
    that answers every call, and run any sequence of transactions through
    the entry points of [DoInsert], one thread, fewer than 2^64 / 100 of
    them; [num_sets_] passes the assertion of [DBGet] and there is at
    least one key per set.  Every run returns [true], the values under
    the prefixes of any two sets add up to the same total, and [Verify],
    called for these sets and keys, with or without a snapshot, by range
    scan or by point lookup, whatever it draws, returns OK. *)
Theorem committed_transactions_keep_sets_equal
        (cfg : Config) (es : list Entry) (w : World) :
  num_sets_ cfg <= 9999 ->
  0 < num_keys_ cfg ->
  table (db w) = [] ->
  faults (db w) = no_faults ->
  read_snapshot w = None ->
  100 * N.of_nat (List.length es) < ULONG_MAX ->
  exists bs w1,
    run_all cfg es w = Ret bs w1 /\
    Forall (fun b => b = true) bs /\
    (exists T, forall s, s < num_sets_ cfg ->
                         set_sum s (table (db w1)) = T) /\
    (forall nkps take_snapshot has_rand rand dev,
        nkps = 0 \/ num_keys_ cfg <= nkps ->
        exists w2,
          Verify cfg (num_sets_ cfg) nkps take_snapshot has_rand
                 (set_device dev (set_rand rand w1))
          = Ret Status.OK w2).
Proof.
  intros Hsets Hkeys Ht Hf Hsn Hlen.
  assert (Hg : good cfg 0 w).
  { unfold good. rewrite Ht. repeat split; auto; constructor. }
  destruct (run_all_ideal cfg Hsets Hkeys es 0 w Hg Hlen)
    as (bs & w1 & T & E & Hall & (Hb & Hf1 & _) & HT).
  exists bs, w1. split; [exact E|]. split; [exact Hall|]. split.
  - exists T. apply Hb.
  - intros nkps take_snapshot has_rand rand dev Hn.
    destruct (Verify_ideal cfg Hsets nkps take_snapshot has_rand T
                (set_device dev (set_rand rand w1)) HT Hb Hf1 Hn)
      as (w2 & E2 & _).
    now exists w2.
Qed.

Lemma committed_transactions_keep_sets_equal_witness :
  exists bs w1,
    run_all (config false 3)
            [ViaTransactionDB; ViaDB; ViaOptimisticTransactionDB] fresh
      = Ret bs w1 /\
    Forall (fun b => b = true) bs /\
    (exists T, forall s, s < 3 -> set_sum s (table (db w1)) = T) /\
    (forall nkps take_snapshot has_rand rand dev,
        nkps = 0 \/ 10 <= nkps ->
        exists w2,
          Verify (config false 3) 3 nkps take_snapshot has_rand
                 (set_device dev (set_rand rand w1))
          = Ret Status.OK w2).
Proof.
  apply (committed_transactions_keep_sets_equal
           (config false 3)
           [ViaTransactionDB; ViaDB; ViaOptimisticTransactionDB] fresh);
    try reflexivity.
  cbn. discriminate.
Defined.

(** What that sequence leaves in the store. *)
Example three_transactions :
  option_map (fun w => table (db w))
    (final (run_all (config false 3)
                    [ViaTransactionDB; ViaDB; ViaOptimisticTransactionDB]
                    fresh))
  = Some [("00012", "15"); ("00017", "42"); ("00023", "15");
          ("00027", "42"); ("00036", "15"); ("00037", "42")].
Proof. vm_compute. reflexivity. Qed.

(* ===================================================================== *)
(** * Further properties: the order of the visit *)
(* ===================================================================== *)

Section Orders.

Lemma perm_iota_facts (n : N) (l : list N) :
  Permutation l (iota n) ->
  NoDup l /\ List.length l = N.to_nat n /\ (forall s, In s l <-> s < n).
Proof.
  intros P. split; [|split].
  - eapply Permutation_NoDup; [apply Permutation_sym; exact P|].
    apply iota_NoDup.
  - rewrite (Permutation_length P). unfold iota, upto.
    now rewrite length_map, length_seq.
  - intros s. rewrite <- iota_In. split; apply Permutation_in;
      [exact P|now apply Permutation_sym].
Qed.

Lemma random_shuffle_iota (n : N) (w : World) :
  exists set_vec w',
    random_shuffle (iota n) w = Ret set_vec w' /\ draws_only w w' /\
    Permutation set_vec (iota n).
Proof.
  destruct (shuffle_loop_total Uniform Uniform_total
              (List.length (iota n) - 1) 1 (iota n) w) as (sv & w' & H).
  exists sv, w'. split; [exact H|]. split.
  - eapply random_shuffle_draws; exact H.
  - eapply shuffle_loop_perm; exact H.
Qed.

End Orders.

(** X1.  The order in which [Verify] and both overloads of [DoInsert]
    go through the sets: [iota] followed by [std::shuffle] with the random
    device, or by [std::random_shuffle] with [rand_->Uniform].  Whatever
    the device and the generator return, the shuffle returns, it uses
    nothing but draws, and the vector holds every set below [n] exactly
    once. *)
Theorem every_set_is_visited_once (n : N) (take_snapshot : bool) (w : World) :
  (exists sn set_vec w',
      verify_begin n take_snapshot w = Ret (sn, set_vec) w' /\
      NoDup set_vec /\ List.length set_vec = N.to_nat n /\
      (forall s, In s set_vec <-> s < n)) /\
  (exists set_vec w',
      std_shuffle (iota n) w = Ret set_vec w' /\ draws_only w w' /\
      NoDup set_vec /\ List.length set_vec = N.to_nat n /\
      (forall s, In s set_vec <-> s < n)) /\
  (exists set_vec w',
      random_shuffle (iota n) w = Ret set_vec w' /\ draws_only w w' /\
      NoDup set_vec /\ List.length set_vec = N.to_nat n /\
      (forall s, In s set_vec <-> s < n)).
Proof.
  split; [|split].
  - unfold verify_begin.
    destruct take_snapshot.
    + unfold bind at 1. unfold bind at 1. unfold on_db, get_snapshot.
      cbv beta iota zeta. unfold ret at 1.
      match goal with
      | |- context [bind (std_shuffle (iota n)) _ ?W] =>
          destruct (std_shuffle_iota n W) as (sv & w' & E & _ & P)
      end.
      rewrite (bind_eq _ _ _ _ _ E). unfold ret.
      do 3 eexists. split; [reflexivity|]. now apply perm_iota_facts.
    + unfold bind at 1. unfold ret at 1.
      destruct (std_shuffle_iota n w) as (sv & w' & E & _ & P).
      rewrite (bind_eq _ _ _ _ _ E). unfold ret.
      do 3 eexists. split; [reflexivity|]. now apply perm_iota_facts.
  - destruct (std_shuffle_iota n w) as (sv & w' & E & D & P).
    exists sv, w'. split; [exact E|]. split; [exact D|].
    now apply perm_iota_facts.
  - destruct (random_shuffle_iota n w) as (sv & w' & E & D & P).
    exists sv, w'. split; [exact E|]. split; [exact D|].
    now apply perm_iota_facts.
Qed.

(* ===================================================================== *)
(** * Further properties: what never returns *)
(* ===================================================================== *)

Lemma bind_never {A B : Type} (c : M A) (k : A -> M B) (w : World) :
  (forall a w1, returned (k a w1) = None) -> returned (bind c k w) = None.
Proof. intros H. unfold bind. destruct (c w); [apply H|reflexivity]. Qed.

(** X2.  [RandomGenerator()] appends the empty [piece] to the empty
    [data_] until [data_] holds 1048576 characters: the loop never ends,
    however long it is run.  So neither [DoWriteRandom], which constructs
    a generator first, nor [TOTransactionDBWriteRandom], which calls it,
    ever returns. *)
Theorem write_random_never_returns
        (cfg : Config) (fuel num_handles : nat) (w : World) :
  RandomGenerator_fill fuel "" "" = None /\
  RandomGenerator_new fuel w = Stop OutOfFuel /\
  DoWriteRandom cfg fuel num_handles w = Stop OutOfFuel /\
  returned (TOTransactionDBWriteRandom cfg fuel num_handles w) = None.
Proof.
  assert (G : RandomGenerator_new fuel = fun _ => Stop OutOfFuel).
  { unfold RandomGenerator_new. now rewrite RandomGenerator_fill_empty. }
  split; [apply RandomGenerator_fill_empty|].
  split; [now rewrite G|].
  split; [unfold DoWriteRandom, bind; now rewrite G|].
  unfold TOTransactionDBWriteRandom, DoWriteRandom. rewrite G.
  repeat first [ reflexivity | apply bind_never; intros ].
Qed.

(* ===================================================================== *)
(** * Further properties: [DBGet] *)
(* ===================================================================== *)

(** What a read of [key] finds when the store answers it: the write of
    the open transaction, if there is one, before the view. *)
Definition found (use_txn : bool) (sn : option Snapshot) (key : string)
           (d : DB) : option string :=
  if use_txn then
    match pending_get None key (pending d) with
    | Some f => f
    | None => tget key (view sn None d)
    end
  else tget key (view sn None d).

(** The store answers the next [Get]: no failure is scripted for it. *)
Definition get_answers (d : DB) : Prop :=
  fst (next_fault (f_get (faults d))) = None.

Section Reads.

Variable cfg : Config.

Lemma read_answers (use_txn gfu : bool) (sn : option Snapshot) (key : string)
      (d : DB) :
  get_answers d ->
  exists d',
    (if use_txn then txn_get gfu sn None key else db_get sn None key) d
    = (answer (found use_txn sn key d), d') /\
    table d' = table d /\ families d' = families d /\
    pending d' = pending d /\
    live_snapshots d' = live_snapshots d /\
    live_iterators d' = live_iterators d.
Proof.
  unfold get_answers, found. intros H. destruct use_txn.
  - unfold txn_get. destruct (next_fault (f_get (faults d))) as [flt q].
    cbn [fst] in H. subst flt. cbn [pending set_faults].
    rewrite view_set_faults.
    destruct (pending_get None key (pending d));
      (eexists; split; [reflexivity|]; repeat split).
  - unfold db_get. destruct (next_fault (f_get (faults d))) as [flt q].
    cbn [fst] in H. subst flt. rewrite view_set_faults.
    eexists. split; [reflexivity|]. repeat split.
Qed.

(** The first steps of [DBGet], up to the answer of the store. *)
Lemma DBGet_answered (use_txn : bool) (sn : option Snapshot) (set_i ikey : N)
      (gfu : bool) (iv : N) (ue : bool) (w : World) :
  ndebug cfg = true \/ set_i < 9999 ->
  get_answers (db w) ->
  exists d',
    DBGet cfg use_txn sn set_i ikey gfu iv ue w =
    (let key := full_key set_i ikey in
     let '(s, value) := answer (found use_txn sn key (db w)) in
     if ok s then
       bind (stoull_ value) (fun v =>
         if (v =? 0) || (v =? ULONG_MAX)
         then bind (fprintf (GetUnexpectedValue value))
                   (fun _ => ret (Status.Corruption, v, key, true))
         else ret (s, v, key, ue))
     else if IsNotFound s then ret (Status.OK, 0, key, ue)
     else ret (s, iv, key, ue)) (set_db d' w) /\
    table d' = table (db w) /\ families d' = families (db w) /\
    pending d' = pending (db w) /\
    live_snapshots d' = live_snapshots (db w) /\
    live_iterators d' = live_iterators (db w).
Proof.
  intros Hset Hget. unfold DBGet.
  rewrite (bind_eq _ _ _ _ _ (assert_set_passes cfg set_i w Hset)).
  destruct (read_answers use_txn gfu sn (full_key set_i ikey) (db w) Hget)
    as (d' & E & H).
  exists d'. split; [|exact H].
  rewrite (bind_eq _ _ _ _ _ (on_db_eq _ w _ d' E)).
  cbv zeta. now destruct (answer _).
Qed.

End Reads.

(** X3.  [DBGet] on a read the store answers: a key that is not there
    reads as zero with status OK, the NotFound of the store being turned
    into OK, and a key that holds the text [ToString] gives for a number
    strictly between 0 and [ULONG_MAX] reads as that number.  In both
    cases [*full_key] is the key of the set, [*unexpected_error] is left
    as it came in, nothing is printed and nothing stored changes. *)
Theorem DBGet_reads_stored_number
        (cfg : Config) (use_txn : bool) (sn : option Snapshot) (set_i ikey : N)
        (get_for_update : bool) (int_value : N) (unexpected_error : bool)
        (w : World) :
  ndebug cfg = true \/ set_i < 9999 ->
  get_answers (db w) ->
  (found use_txn sn (full_key set_i ikey) (db w) = None ->
   exists w',
     DBGet cfg use_txn sn set_i ikey get_for_update int_value
           unexpected_error w
     = Ret (Status.OK, 0, full_key set_i ikey, unexpected_error) w' /\
     console w' = console w /\ table (db w') = table (db w) /\
     pending (db w') = pending (db w)) /\
  (forall n,
     0 < n < ULONG_MAX ->
     found use_txn sn (full_key set_i ikey) (db w) = Some (ToString n) ->
     exists w',
       DBGet cfg use_txn sn set_i ikey get_for_update int_value
             unexpected_error w
       = Ret (Status.OK, n, full_key set_i ikey, unexpected_error) w' /\
       console w' = console w /\ table (db w') = table (db w) /\
       pending (db w') = pending (db w)).
Proof.
  intros Hset Hget.
  destruct (DBGet_answered cfg use_txn sn set_i ikey get_for_update int_value
              unexpected_error w Hset Hget) as (d' & E & T & _ & P & _).
  rewrite E. cbv zeta. split.
  - intros ->. exists (set_db d' w). repeat split; assumption.
  - intros n Hn ->. cbn [answer]. cbv zeta iota beta.
    change (ok Status.OK) with true. cbv iota.
    unfold stoull_. rewrite stoull_ToString by lia.
    unfold bind at 1. unfold ret at 1.
    assert (E0 : (n =? 0) || (n =? ULONG_MAX) = false).
    { apply orb_false_iff. split; apply N.eqb_neq; lia. }
    rewrite E0. exists (set_db d' w). repeat split; assumption.
Qed.

Lemma DBGet_reads_stored_number_witness :
  (exists w',
     DBGet (config false 1) false None 0 7 false 9 false (single "41")
     = Ret (Status.OK, 0, "00017", false) w') /\
  (exists w',
     DBGet (config false 1) false None 0 0 false 9 false (single "41")
     = Ret (Status.OK, 41, "00010", false) w').
Proof.
  split.
  - destruct (proj1 (DBGet_reads_stored_number
                       (config false 1) false None 0 7 false 9 false
                       (single "41") (or_intror eq_refl) eq_refl) eq_refl)
      as (w' & E & _).
    exists w'. exact E.
  - destruct (proj2 (DBGet_reads_stored_number
                       (config false 1) false None 0 0 false 9 false
                       (single "41") (or_intror eq_refl) eq_refl)
                    41 (conj eq_refl eq_refl) eq_refl)
      as (w' & E & _).
    exists w'. exact E.
Defined.

(** X4.  [DBGet] on a stored value that [std::stoull] reads as 0 or as
    [ULONG_MAX]: the status is replaced by [Status::Corruption()],
    [*unexpected_error] is set, the value is printed, and [*int_value]
    holds the number that was read. *)
Theorem DBGet_sentinel_is_corruption
        (cfg : Config) (use_txn : bool) (sn : option Snapshot) (set_i ikey : N)
        (get_for_update : bool) (int_value : N) (unexpected_error : bool)
        (w : World) (value : string) (n : N) :
  ndebug cfg = true \/ set_i < 9999 ->
  get_answers (db w) ->
  found use_txn sn (full_key set_i ikey) (db w) = Some value ->
  stoull value = inr n ->
  n = 0 \/ n = ULONG_MAX ->
  exists w',
    DBGet cfg use_txn sn set_i ikey get_for_update int_value
          unexpected_error w
    = Ret (Status.Corruption, n, full_key set_i ikey, true) w' /\
    console w' = GetUnexpectedValue value :: console w /\
    table (db w') = table (db w).
Proof.
  intros Hset Hget Hf Hv Hn.
  destruct (DBGet_answered cfg use_txn sn set_i ikey get_for_update int_value
              unexpected_error w Hset Hget) as (d' & E & T & _).
  rewrite E. cbv zeta. rewrite Hf. cbn [answer]. cbv iota beta.
  change (ok Status.OK) with true. cbv iota.
  unfold stoull_. rewrite Hv. unfold bind at 1. unfold ret at 1.
  assert (E0 : (n =? 0) || (n =? ULONG_MAX) = true).
  { destruct Hn as [->| ->]; [reflexivity|].
    apply orb_true_iff. right. apply N.eqb_refl. }
  rewrite E0. eexists. split; [reflexivity|]. split; [reflexivity|exact T].
Qed.

Lemma DBGet_sentinel_is_corruption_witness :
  exists w',
    DBGet (config false 1) false None 0 0 false 9 false (single " +0x")
    = Ret (Status.Corruption, 0, "00010", true) w' /\
    console w' = [GetUnexpectedValue " +0x"].
Proof.
  destruct (DBGet_sentinel_is_corruption
              (config false 1) false None 0 0 false 9 false (single " +0x")
              " +0x" 0 (or_intror eq_refl) eq_refl eq_refl eq_refl
              (or_introl eq_refl))
    as (w' & E & C & _).
  exists w'. split; [exact E|exact C].
Defined.

(** X5.  A stored value in which [std::stoull] finds no number, or a
    number above [ULLONG_MAX], makes it throw, and neither [DBGet] nor
    the scan of [Verify] catches anything: the exception leaves the
    harness. *)
Theorem unreadable_value_throws
        (cfg : Config) (value : string) (e : exn) :
  stoull value = inl e ->
  (forall use_txn sn set_i ikey get_for_update int_value unexpected_error w,
      ndebug cfg = true \/ set_i < 9999 ->
      get_answers (db w) ->
      found use_txn sn (full_key set_i ikey) (db w) = Some value ->
      DBGet cfg use_txn sn set_i ikey get_for_update int_value
            unexpected_error w
      = Stop (Thrown e)) /\
  (forall set_i key rest total w,
      has_prefix set_i key = true ->
      iterate set_i ((key, value) :: rest) total w = Stop (Thrown e)).
Proof.
  intros Hv. split.
  - intros use_txn sn set_i ikey gfu iv ue w Hset Hget Hf.
    destruct (DBGet_answered cfg use_txn sn set_i ikey gfu iv ue w Hset Hget)
      as (d' & E & _).
    rewrite E. cbv zeta. rewrite Hf. cbn [answer]. cbv iota beta.
    change (ok Status.OK) with true. cbv iota.
    unfold stoull_. rewrite Hv. reflexivity.
  - intros set_i key rest total w Hp. cbn [iterate]. rewrite Hp.
    cbn [negb]. unfold stoull_. rewrite Hv. reflexivity.
Qed.

Lemma unreadable_value_throws_witness :
  DBGet (config false 1) false None 0 0 false 9 false (single "")
  = Stop (Thrown invalid_argument) /\
  iterate 0 [("00010", "18446744073709551616")] 0 (single "")
  = Stop (Thrown out_of_range).
Proof.
  split.
  - apply (proj1 (unreadable_value_throws (config false 1) ""
                    invalid_argument eq_refl));
      [right; reflexivity|reflexivity|reflexivity].
  - apply (proj2 (unreadable_value_throws (config false 1)
                    "18446744073709551616" out_of_range eq_refl)).
    reflexivity.
Defined.

(* ===================================================================== *)
(** * Further properties: the key space past the assertion *)
(* ===================================================================== *)

Section PastTheAssertion.

(** The sets a [uint16_t] can number which [assert(set_i + 1 <= 9999)]
    refuses: 9999 to 65535. *)
Fixpoint count_from (start : N) (n : nat) : list N :=
  match n with
  | O => []
  | S n' => start :: count_from (N.succ start) n'
  end.

Definition high_sets : list N :=
  count_from 9999 (Nat.of_num_uint 55537%uint).

(** For such a set, ["%.4u"] prints five digits, and the first four are
    the prefix of the set numbered by them. *)
Definition five_digits (set_i : N) : bool :=
  Nat.eqb (String.length (prefix_buf set_i)) 5 &&
  String.eqb (prefix_buf set_i) (ToString (set_i + 1)) &&
  String.eqb (substring 0 4 (prefix_buf set_i))
             (prefix_buf ((set_i + 1) / 10 - 1)).

Lemma five_digits_all : forallb five_digits high_sets = true.
Proof. vm_compute. reflexivity. Qed.

Lemma count_from_In (n : nat) :
  forall start x : N,
    start <= x < start + N.of_nat n -> In x (count_from start n).
Proof.
  induction n as [|n IH]; intros start x H; [lia|].
  cbn [count_from]. destruct (N.eq_dec start x) as [->|Hne].
  - now left.
  - right. apply IH. lia.
Qed.

Lemma five_digits_each (set_i : N) :
  9999 <= set_i <= 65535 -> five_digits set_i = true.
Proof.
  intros H. pose proof five_digits_all as A.
  rewrite forallb_forall in A. apply A. unfold high_sets.
  apply count_from_In.
  replace (N.of_nat (Nat.of_num_uint 55537%uint)) with 55537
    by (vm_compute; reflexivity).
  lia.
Qed.

Lemma substring_length_le (n : nat) :
  forall s : string, (String.length (substring 0 n s) <= n)%nat.
Proof.
  induction n as [|n IH]; intros s.
  - destruct s; cbn; lia.
  - destruct s as [|c s]; cbn; [lia|]. specialize (IH s). lia.
Qed.

Lemma substring_app_left (n : nat) :
  forall a b : string,
    (n <= String.length a)%nat ->
    substring 0 n (a ++ b) = substring 0 n a.
Proof.
  induction n as [|n IH]; intros a b H.
  - destruct a, b; reflexivity.
  - destruct a as [|c a]; cbn in H; [lia|]. cbn. f_equal. apply IH. lia.
Qed.

End PastTheAssertion.

(** X6.  What [assert(set_i + 1 <= 9999)] guards.  In a build without
    assertions, for a set from 9999 on, [snprintf] with ["%.4u"] leaves
    five digits in [prefix_buf].  The test of line 649 compares the first
    four characters of a key with all of [prefix_buf], so no key at all
    passes it for that set, and the keys [DBGet] builds for the set pass
    it for the set numbered by their first four digits. *)
Theorem sets_past_9999_collide (set_i ikey : N) :
  9999 <= set_i <= 65535 ->
  full_key set_i ikey = (ToString (set_i + 1) ++ ToString ikey)%string /\
  String.length (prefix_buf set_i) = 5%nat /\
  (forall key, has_prefix set_i key = false) /\
  (set_i + 1) / 10 - 1 < 9999 /\
  (set_i + 1) / 10 - 1 <> set_i /\
  has_prefix ((set_i + 1) / 10 - 1) (full_key set_i ikey) = true.
Proof.
  intros H. pose proof (five_digits_each set_i H) as F.
  unfold five_digits in F.
  apply andb_prop in F. destruct F as [F F3].
  apply andb_prop in F. destruct F as [F1 F2].
  apply Nat.eqb_eq in F1. apply String.eqb_eq in F2, F3.
  assert (Hdiv : (set_i + 1) / 10 < 6554).
  { apply N.Div0.div_lt_upper_bound. lia. }
  assert (Hdiv2 : 1000 <= (set_i + 1) / 10).
  { apply N.div_le_lower_bound; lia. }
  split; [|split; [|split; [|split; [|split]]]].
  - unfold full_key. now rewrite F2.
  - exact F1.
  - intros key. unfold has_prefix. apply String.eqb_neq. intros E.
    pose proof (substring_length_le 4 key) as L. rewrite E, F1 in L. lia.
  - lia.
  - lia.
  - unfold has_prefix, full_key.
    rewrite substring_app_left by (rewrite F1; lia).
    rewrite F3. apply String.eqb_refl.
Qed.

Lemma sets_past_9999_collide_witness :
  full_key 9999 5 = "100005" /\
  has_prefix 9999 "100005" = false /\
  has_prefix 999 (full_key 9999 5) = true.
Proof.
  destruct (sets_past_9999_collide 9999 5 ltac:(split; discriminate))
    as (A & _ & B & _ & _ & C).
  split; [rewrite A; reflexivity|]. split; [apply B|exact C].
Defined.

(* ===================================================================== *)
(** * Further properties: [RandomGenerator::Generate] *)
(* ===================================================================== *)

Section Slices.

Lemma substring_length (n : nat) :
  forall (m : nat) (s : string),
    (n + m <= String.length s)%nat ->
    String.length (substring n m s) = m.
Proof.
  induction n as [|n IH]; intros m s H.
  - revert s H. induction m as [|m IHm]; intros s H.
    + destruct s; reflexivity.
    + destruct s as [|c s]; cbn in H; [lia|]. cbn. f_equal.
      apply IHm. cbn. lia.
  - destruct s as [|c s]; cbn in H; [lia|]. cbn. apply IH. lia.
Qed.

(** A generator whose position is inside its data serves every length
    its data can serve, and stays such a generator. *)
Lemma Generate_fits (cfg : Config) (len : N) (g : RandomGenerator) :
  len <= strlen (data_ g) ->
  pos_ g <= strlen (data_ g) ->
  strlen (data_ g) < 2 ^ 31 ->
  exists value g',
    (forall w, Generate cfg len g w = Ret (value, g') w) /\
    data_ g' = data_ g /\ pos_ g' <= strlen (data_ g).
Proof.
  intros Hlen Hpos Hsize.
  assert (P : 2 ^ 31 + 2 ^ 31 = 2 ^ 32) by reflexivity.
  assert (U : u32 (pos_ g + len) = pos_ g + len).
  { unfold u32. apply N.mod_small. lia. }
  assert (U0 : u32 (0 + len) = len).
  { unfold u32. apply N.mod_small. lia. }
  assert (A : forall w,
             assert_ cfg (ret (len <=? strlen (data_ g))) w = Ret tt w).
  { intros w. unfold assert_, bind, ret. destruct (ndebug cfg); [reflexivity|].
    now rewrite (proj2 (N.leb_le _ _) Hlen). }
  destruct (strlen (data_ g) <? pos_ g + len) eqn:E.
  - exists (substring (N.to_nat (len - len)) (N.to_nat len) (data_ g)),
           (mkGen (data_ g) len).
    split; [|split; [reflexivity|exact Hlen]].
    intros w. unfold Generate. rewrite (bind_eq _ _ _ _ _ (A w)).
    cbv zeta. rewrite U, E, U0.
    rewrite (proj2 (N.leb_le _ _) (N.le_refl len)),
            (proj2 (N.leb_le _ _) Hlen). reflexivity.
  - apply N.ltb_ge in E.
    exists (substring (N.to_nat (pos_ g + len - len)) (N.to_nat len)
                      (data_ g)),
           (mkGen (data_ g) (pos_ g + len)).
    split; [|split; [reflexivity|exact E]].
    intros w. unfold Generate. rewrite (bind_eq _ _ _ _ _ (A w)).
    cbv zeta. rewrite U, (proj2 (N.ltb_ge _ _) E), U.
    rewrite (proj2 (N.leb_le len (pos_ g + len)) ltac:(lia)),
            (proj2 (N.leb_le _ _) E). reflexivity.
Qed.

End Slices.

(** X7.  [Generate(len)] on a generator whose position is inside its
    data, for a length the data can serve: it returns, also with
    assertions, a slice of exactly [len] characters of [data_], the one
    that ends at the new position; the position starts again from zero
    when the slice would not fit, and it stays inside the data. *)
Theorem Generate_returns_len_bytes
        (cfg : Config) (len : N) (g : RandomGenerator) (w : World) :
  len <= strlen (data_ g) ->
  pos_ g <= strlen (data_ g) ->
  strlen (data_ g) < 2 ^ 31 ->
  exists value g',
    Generate cfg len g w = Ret (value, g') w /\
    strlen value = len /\
    data_ g' = data_ g /\
    pos_ g' = (if strlen (data_ g) <? pos_ g + len then len
               else pos_ g + len) /\
    pos_ g' <= strlen (data_ g) /\
    value = substring (N.to_nat (pos_ g' - len)) (N.to_nat len) (data_ g).
Proof.
  intros Hlen Hpos Hsize. unfold Generate.
  assert (A : assert_ cfg (ret (len <=? strlen (data_ g))) w = Ret tt w).
  { unfold assert_, bind, ret. destruct (ndebug cfg); [reflexivity|].
    now rewrite (proj2 (N.leb_le _ _) Hlen). }
  rewrite (bind_eq _ _ _ _ _ A). cbv zeta. unfold ret.
  assert (P : 2 ^ 31 + 2 ^ 31 = 2 ^ 32) by reflexivity.
  assert (U : u32 (pos_ g + len) = pos_ g + len).
  { unfold u32. apply N.mod_small. lia. }
  rewrite U.
  assert (U0 : u32 (0 + len) = len).
  { unfold u32. apply N.mod_small. lia. }
  destruct (strlen (data_ g) <? pos_ g + len) eqn:E.
  - rewrite U0.
    rewrite (proj2 (N.leb_le _ _) (N.le_refl len)),
            (proj2 (N.leb_le _ _) Hlen). cbn [andb].
    do 2 eexists. split; [reflexivity|]. cbn [data_ pos_].
    repeat split; try assumption.
    unfold strlen in *. rewrite substring_length; lia.
  - rewrite U. apply N.ltb_ge in E.
    rewrite (proj2 (N.leb_le len (pos_ g + len)) ltac:(lia)),
            (proj2 (N.leb_le _ _) E). cbn [andb].
    do 2 eexists. split; [reflexivity|]. cbn [data_ pos_].
    repeat split; try assumption.
    unfold strlen in *. rewrite substring_length; lia.
Qed.

Lemma Generate_returns_len_bytes_witness :
  exists g',
    Generate (config false 1) 4 (mkGen "0123456789" 8) (single "1")
    = Ret ("0123", g') (single "1") /\
    pos_ g' = 4.
Proof.
  destruct (Generate_returns_len_bytes
              (config false 1) 4 (mkGen "0123456789" 8) (single "1")
              ltac:(discriminate) ltac:(discriminate) ltac:(reflexivity))
    as (value & g' & E & _ & _ & P & _ & V).
  exists g'. cbn in P. split; [|exact P].
  rewrite E. rewrite V, P. reflexivity.
Defined.

(* ===================================================================== *)
(** * Further properties: what a transaction leaves in the store *)
(* ===================================================================== *)

(** The committed data and the handles of the store are as they were. *)
Definition stable (d d' : DB) : Prop :=
  table d' = table d /\ families d' = families d /\
  live_snapshots d' = live_snapshots d /\
  live_iterators d' = live_iterators d.

Section StoreFrames.

Lemma stable_refl (d : DB) : stable d d.
Proof. repeat split. Qed.

Lemma stable_trans (d1 d2 d3 : DB) :
  stable d1 d2 -> stable d2 d3 -> stable d1 d3.
Proof.
  unfold stable. intros (A1 & A2 & A3 & A4) (B1 & B2 & B3 & B4).
  repeat split; congruence.
Qed.

Lemma next_fault_fails (q : list Status) (s : Status) (r : list Status) :
  next_fault q = (Some s, r) -> ok s = false.
Proof.
  destruct q as [|x q]; cbn [next_fault]; [discriminate|].
  unfold is_failure. destruct (ok x) eqn:E; cbn [negb andb];
    [discriminate|].
  destruct (IsNotFound x); cbn [negb]; [discriminate|].
  now intros [= <- _].
Qed.

Lemma db_get_stable (sn : option Snapshot) (cf : option nat) (k : string)
      (d : DB) (r : Status * string) (d' : DB) :
  db_get sn cf k d = (r, d') -> stable d d' /\ pending d' = pending d.
Proof.
  unfold db_get. destruct (next_fault _) as [flt q].
  intros [= _ <-]. repeat split.
Qed.

Lemma txn_get_stable (fu : bool) (sn : option Snapshot) (cf : option nat)
      (k : string) (d : DB) (r : Status * string) (d' : DB) :
  txn_get fu sn cf k d = (r, d') -> stable d d' /\ pending d' = pending d.
Proof.
  unfold txn_get. destruct (next_fault _) as [flt q].
  intros [= _ <-]. repeat split.
Qed.

Lemma txn_put_stable (cf : option nat) (k v : string) (d : DB) (s : Status)
      (d' : DB) :
  txn_put cf k v d = (s, d') -> stable d d'.
Proof.
  unfold txn_put. destruct (next_fault _) as [[flt|] q];
    intros [= _ <-]; repeat split.
Qed.

Lemma txn_delete_stable (cf : option nat) (k : string) (d : DB) (s : Status)
      (d' : DB) :
  txn_delete cf k d = (s, d') -> stable d d'.
Proof.
  unfold txn_delete. destruct (next_fault _) as [[flt|] q];
    intros [= _ <-]; repeat split.
Qed.

Lemma txn_prepare_stable (d : DB) (s : Status) (d' : DB) :
  txn_prepare d = (s, d') -> stable d d' /\ pending d' = pending d.
Proof.
  unfold txn_prepare. destruct (next_fault _) as [[flt|] q];
    intros [= _ <-]; repeat split.
Qed.

Lemma txn_rollback_stable (d : DB) (s : Status) (d' : DB) :
  txn_rollback d = (s, d') ->
  stable d d' /\ calls d' = (OpRollback, s) :: calls d /\
  (ok s = true -> pending d' = []).
Proof.
  unfold txn_rollback. destruct (next_fault _) as [[flt|] q] eqn:E.
  - intros [= <- <-]. apply next_fault_fails in E.
    repeat split. intros H. congruence.
  - intros [= <- <-]. repeat split.
Qed.

Lemma txn_commit_stable (d : DB) (s : Status) (d' : DB) :
  txn_commit d = (s, d') ->
  calls d' = (OpCommit, s) :: calls d /\
  (ok s = false -> stable d d' /\ pending d' = pending d) /\
  (ok s = true ->
   (table d', families d')
   = apply_batch (List.rev (pending d)) (table d, families d)) /\
  live_snapshots d' = live_snapshots d /\
  live_iterators d' = live_iterators d.
Proof.
  unfold txn_commit. destruct (next_fault _) as [[flt|] q] eqn:E.
  - intros [= <- <-]. apply next_fault_fails in E.
    repeat split. intros H. congruence.
  - destruct (apply_batch _ _) as [t fs] eqn:A. intros [= <- <-].
    repeat split; discriminate.
Qed.

Lemma db_write_stable (b : list WriteOp) (d : DB) (s : Status) (d' : DB) :
  db_write b d = (s, d') ->
  calls d' = (OpWrite b, s) :: calls d /\
  (ok s = false -> stable d d') /\
  (ok s = true ->
   (table d', families d') = apply_batch b (table d, families d)) /\
  live_snapshots d' = live_snapshots d /\
  live_iterators d' = live_iterators d.
Proof.
  unfold db_write. destruct (next_fault _) as [[flt|] q] eqn:E.
  - intros [= <- <-]. apply next_fault_fails in E.
    repeat split. intros H. congruence.
  - destruct (apply_batch _ _) as [t fs] eqn:A. intros [= <- <-].
    repeat split; discriminate.
Qed.

Lemma txn_set_timestamp_stable (o : Op) (d : DB) (s : Status) (d' : DB) :
  txn_set_timestamp o d = (s, d') -> stable d d' /\ pending d' = pending d.
Proof.
  unfold txn_set_timestamp. destruct (next_fault _) as [[flt|] q];
    intros [= _ <-]; repeat split.
Qed.

End StoreFrames.

(** Use what is known of the store operations that a run went through. *)
Ltac store_facts :=
  repeat match goal with
         | E : db_get _ _ _ _ = _ |- _ => apply db_get_stable in E
         | E : txn_get _ _ _ _ _ = _ |- _ => apply txn_get_stable in E
         | E : txn_put _ _ _ _ = _ |- _ => apply txn_put_stable in E
         | E : txn_delete _ _ _ = _ |- _ => apply txn_delete_stable in E
         | E : txn_prepare _ = _ |- _ => apply txn_prepare_stable in E
         | E : txn_rollback _ = _ |- _ => apply txn_rollback_stable in E
         | E : txn_commit _ = _ |- _ => apply txn_commit_stable in E
         | E : db_write _ _ = _ |- _ => apply db_write_stable in E
         | E : txn_set_timestamp _ _ = _ |- _ =>
             apply txn_set_timestamp_stable in E
         end.

(** What the loops of the harness leave as it was: the committed data,
    the handles, the snapshot of the read options and the transaction
    counter. *)
Definition steady (w w' : World) : Prop :=
  stable (db w) (db w') /\ read_snapshot w' = read_snapshot w /\
  txn_id_ w' = txn_id_ w /\ clock w' = clock w.

Ltac steady_auto :=
  store_facts; unfold steady, stable in *; world_simpl;
  intuition (try congruence).

Section LoopFrames.

Variable cfg : Config.

Lemma steady_refl (w : World) : steady w w.
Proof. repeat split. Qed.

Lemma steady_trans (w1 w2 w3 : World) :
  steady w1 w2 -> steady w2 w3 -> steady w1 w3.
Proof. intros H1 H2. steady_auto. Qed.

Lemma draws_only_steady (w w' : World) : draws_only w w' -> steady w w'.
Proof. unfold draws_only. intros ->. repeat split. Qed.

Lemma insert_loop_steady (use_txn is_optimistic : bool) (incr : N)
      (set_vec : list N) :
  forall (s : Status) (ue : bool) (batch : list WriteOp) (w : World)
         (s' : Status) (ue' : bool) (batch' : list WriteOp) (w' : World),
    insert_loop cfg use_txn is_optimistic incr set_vec s ue batch w
      = Ret (s', ue', batch') w' ->
    steady w w'.
Proof.
  induction set_vec as [|set_i rest IH]; intros s ue batch w s' ue' batch' w' H.
  - cbn [insert_loop] in H. run_cases H. close_run H. apply steady_refl.
  - cbn [insert_loop] in H. unfold DBGet in H.
    run_cases H;
      first [ close_run H | apply IH in H ];
      steady_auto.
Qed.

Lemma insert_loop_TO_steady (use_txn : bool) (incr : N) (set_vec : list N) :
  forall (s : Status) (ue : bool) (w : World)
         (s' : Status) (ue' : bool) (w' : World),
    insert_loop_TO cfg use_txn incr set_vec s ue w = Ret (s', ue') w' ->
    steady w w'.
Proof.
  induction set_vec as [|set_i rest IH]; intros s ue w s' ue' w' H.
  - cbn [insert_loop_TO] in H. run_cases H. close_run H. apply steady_refl.
  - cbn [insert_loop_TO] in H. unfold DBGet_TO, DBGet in H.
    run_cases H;
      first [ close_run H | apply IH in H ];
      steady_auto.
Qed.

Lemma insert_phase_steady (use_txn is_optimistic : bool) (w : World)
      (s' : Status) (ue' : bool) (batch' : list WriteOp) (w' : World) :
  insert_phase cfg use_txn is_optimistic w = Ret (s', ue', batch') w' ->
  steady w w'.
Proof.
  intros H. unfold insert_phase in H.
  apply bind_Ret in H. destruct H as (r & w1 & H1 & H).
  apply bind_Ret in H. destruct H as (sv & w2 & H2 & H).
  apply Next_draws, draws_only_steady in H1.
  apply std_shuffle_draws, draws_only_steady in H2.
  apply insert_loop_steady in H.
  eapply steady_trans; [exact H1|]. eapply steady_trans; eassumption.
Qed.

Lemma insert_phase_TO_steady (use_txn : bool) (w : World)
      (s' : Status) (ue' : bool) (w' : World) :
  insert_phase_TO cfg use_txn w = Ret (s', ue') w' -> steady w w'.
Proof.
  intros H. unfold insert_phase_TO in H.
  apply bind_Ret in H. destruct H as (r & w1 & H1 & H).
  apply bind_Ret in H. destruct H as (sv & w2 & H2 & H).
  apply Next_draws, draws_only_steady in H1.
  apply random_shuffle_draws, draws_only_steady in H2.
  apply insert_loop_TO_steady in H.
  eapply steady_trans; [exact H1|]. eapply steady_trans; eassumption.
Qed.

End LoopFrames.

Section FinishFrames.

Variable cfg : Config.

(** The end of [DoInsert]: the table can only differ after a [Commit] or
    a [Write] that answered OK. *)
Lemma finish_effect (use_txn is_optimistic : bool) (s : Status) (ue : bool)
      (batch : list WriteOp) (w : World) (s' : Status) (ue' : bool)
      (w' : World) :
  finish cfg use_txn is_optimistic s ue batch w = Ret (s', ue') w' ->
  read_snapshot w' = read_snapshot w /\ txn_id_ w' = txn_id_ w /\
  live_snapshots (db w') = live_snapshots (db w) /\
  live_iterators (db w') = live_iterators (db w) /\
  (stable (db w) (db w') \/
   (ok s = true /\ ok s' = true /\
    exists op rest, calls (db w') = (op, s') :: rest /\
                    (op = OpCommit \/ op = OpWrite batch))).
Proof.
  intros H. unfold finish in H.
  run_cases H; close_run H; store_facts; world_simpl.
  all: repeat split; try (unfold stable in *; intuition congruence).
  all: destruct (ok s') eqn:Hok;
    first [ left; unfold stable in *; solve [intuition congruence]
          | right; split; [reflexivity|]; split; [reflexivity|];
            solve [intuition eauto] ].
Qed.

End FinishFrames.

Section MoreFrames.

Variable cfg : Config.

Lemma finish_TO_effect (use_txn : bool) (s : Status) (w : World)
      (s' : Status) (w' : World) :
  finish_TO cfg use_txn s w = Ret s' w' ->
  read_snapshot w' = read_snapshot w /\
  live_snapshots (db w') = live_snapshots (db w) /\
  live_iterators (db w') = live_iterators (db w) /\
  txn_id_ w' = (if ok s && use_txn then txn_id_ w + 1 else txn_id_ w) /\
  (stable (db w) (db w') \/
   (ok s = true /\ ok s' = true /\
    exists rest, calls (db w') = (OpCommit, s') :: rest)).
Proof.
  intros H. unfold finish_TO in H.
  run_cases H; close_run H; store_facts; world_simpl.
  all: repeat split; try (unfold stable in *; intuition congruence).
  all: destruct (ok s') eqn:Hok;
    first [ left; unfold stable in *; solve [intuition congruence]
          | right; split; [reflexivity|]; split; [reflexivity|];
            solve [intuition eauto] ].
Qed.

Lemma write_turn_steady (h : nat) (set_i : N) (t : Turn) (w : World)
      (leave : bool) (t' : Turn) (w' : World) :
  write_turn cfg h set_i t w = Ret (leave, t') w' -> steady w w'.
Proof.
  intros H. unfold write_turn, end_of_turn, Generate in H.
  run_cases H; close_run H; steady_auto.
Qed.

Lemma write_loop_steady (h : nat) (set_vec : list N) :
  forall (t : Turn) (w : World) (t' : Turn) (w' : World),
    write_loop cfg h set_vec t w = Ret t' w' -> steady w w'.
Proof.
  induction set_vec as [|set_i rest IH]; intros t w t' w' H.
  - cbn [write_loop] in H. run_cases H. close_run H. apply steady_refl.
  - cbn [write_loop] in H. apply bind_Ret in H.
    destruct H as ([leave t1] & w1 & H1 & H).
    apply write_turn_steady in H1. destruct leave.
    + run_cases H. close_run H. exact H1.
    + apply IH in H. eapply steady_trans; eassumption.
Qed.

(** The end of [DoWriteRandom]: [last_status_] is the answer of the last
    call, and a run that returns [false] has changed nothing. *)
Lemma write_finish_effect (t : Turn) (w : World) (b : bool) (w' : World) :
  write_finish cfg t w = Ret b w' ->
  read_snapshot w' = read_snapshot w /\
  live_snapshots (db w') = live_snapshots (db w) /\
  live_iterators (db w') = live_iterators (db w) /\
  (exists op rest, calls (db w') = (op, last_status_ w') :: rest /\
                   op = (if b then OpCommit else OpRollback)) /\
  (b = true -> ok (last_status_ w') = true) /\
  (b = false -> stable (db w) (db w')).
Proof.
  intros H. unfold write_finish in H.
  run_cases H; close_run H; store_facts; world_simpl.
  all: repeat split; try discriminate;
    try (unfold stable in *; intuition congruence).
  all: try solve [intuition eauto].
Qed.

End MoreFrames.

Lemma DoWriteRandom_body_effect (cfg : Config) (h : nat)
      (gen : RandomGenerator) (w : World) (b : bool) (w' : World) :
  DoWriteRandom_body cfg h gen w = Ret b w' ->
  (exists op rest, calls (db w') = (op, last_status_ w') :: rest /\
                   op = (if b then OpCommit else OpRollback)) /\
  (b = true -> ok (last_status_ w') = true) /\
  (b = false -> stable (db w) (db w')).
Proof.
  intros H. unfold DoWriteRandom_body in H.
  apply bind_Ret in H. destruct H as (sv & w1 & H1 & H).
  apply bind_Ret in H. destruct H as (t & w2 & H2 & H).
  apply choose_sets_draws, draws_only_steady in H1.
  apply write_loop_steady in H2.
  pose proof (steady_trans _ _ _ H1 H2) as (S12 & _).
  apply write_finish_effect in H.
  destruct H as (_ & _ & _ & C & Ht & Hf).
  split; [exact C|]. split; [exact Ht|].
  intros Hb. eapply stable_trans; [exact S12|]. now apply Hf.
Qed.

(** X8.  A run of [DoInsert], of either overload, or of the code of
    [DoWriteRandom] after the generator, that returns: either the tables
    of the store and its counts of live snapshots and iterators are as
    they were before the run, or the last call of the run is a [Commit]
    (a [Write], without a transaction) that answered OK.  So a run whose
    last status is a failure, and a run that rolled back, have written
    nothing, whatever the store answered on the way. *)
Theorem table_changes_only_on_commit (cfg : Config) :
  (forall use_txn is_optimistic w b w',
      DoInsert cfg use_txn is_optimistic w = Ret b w' ->
      stable (db w) (db w') \/
      (ok (last_status_ w') = true /\
       exists op rest,
         calls (db w') = (op, last_status_ w') :: rest /\
         (op = OpCommit \/ exists batch, op = OpWrite batch))) /\
  (forall use_txn w b w',
      DoInsert_TO cfg use_txn w = Ret b w' ->
      stable (db w) (db w') \/
      (ok (last_status_ w') = true /\
       exists rest, calls (db w') = (OpCommit, last_status_ w') :: rest)) /\
  (forall num_handles gen w b w',
      DoWriteRandom_body cfg num_handles gen w = Ret b w' ->
      stable (db w) (db w') \/
      (b = true /\ ok (last_status_ w') = true /\
       exists rest, calls (db w') = (OpCommit, last_status_ w') :: rest)).
Proof.
  split; [|split].
  - intros use_txn is_optimistic w b w' H. apply DoInsert_returns in H.
    destruct H as (s & ue & batch & w1 & s' & ue' & w2 & H1 & H2 & -> & ->).
    apply insert_phase_steady in H1. destruct H1 as (S1 & _).
    apply finish_effect in H2.
    destruct H2 as (_ & _ & _ & _ & [S2|(_ & Hok & op & rest & C & Hop)]);
      world_simpl.
    + left. eapply stable_trans; eassumption.
    + right. split; [exact Hok|]. exists op, rest. split; [exact C|].
      destruct Hop as [->| ->]; eauto.
  - intros use_txn w b w' H. apply DoInsert_TO_returns in H.
    destruct H as (s & ue & w1 & s' & w2 & H1 & H2 & -> & ->).
    apply insert_phase_TO_steady in H1. destruct H1 as (S1 & _).
    apply finish_TO_effect in H2.
    destruct H2 as (_ & _ & _ & _ & [S2|(_ & Hok & rest & C)]); world_simpl.
    + left. eapply stable_trans; eassumption.
    + right. eauto.
  - intros h gen w b w' H. apply DoWriteRandom_body_effect in H.
    destruct H as ((op & rest & C & Hop) & Ht & Hf).
    destruct b.
    + right. subst op. split; [reflexivity|]. split; [now apply Ht|].
      now exists rest.
    + left. now apply Hf.
Qed.

Lemma table_changes_only_on_commit_witness :
  exists w',
    DoInsert (config true 2) true false commit_expires = Ret true w' /\
    ok (last_status_ w') = false /\
    stable (db commit_expires) (db w').
Proof.
  assert (H : {w' | DoInsert (config true 2) true false commit_expires
                    = Ret true w'}).
  { eexists. vm_compute. reflexivity. }
  destruct H as [w' H]. exists w'. split; [exact H|].
  assert (L : ok (last_status_ w') = false).
  { vm_compute in H. injection H as <-. reflexivity. }
  split; [exact L|].
  destruct (proj1 (table_changes_only_on_commit (config true 2))
                  true false commit_expires true w' H)
    as [S|(Hok & _)]; [exact S|].
  rewrite L in Hok. discriminate Hok.
Defined.

(** X9.  When the code of [DoWriteRandom] after the generator returns
    [false], the failure counter has moved, nothing was written, the last
    call is the [Rollback] of line 381, and [last_status_] is the answer
    of that [Rollback]: the status of the operation that failed is not
    kept. *)
Theorem write_random_failure_keeps_rollback_status
        (cfg : Config) (num_handles : nat) (gen : RandomGenerator)
        (w w' : World) :
  DoWriteRandom_body cfg num_handles gen w = Ret false w' ->
  (exists rest, calls (db w') = (OpRollback, last_status_ w') :: rest) /\
  failure_count_ (stats w') = failure_count_ (stats w) + 1 /\
  success_count_ (stats w') = success_count_ (stats w) /\
  stable (db w) (db w').
Proof.
  intros H.
  pose proof (DoWriteRandom_body_returns cfg _ _ _ _ _ H) as R.
  apply DoWriteRandom_body_effect in H.
  destruct H as ((op & rest & C & ->) & _ & Hf).
  split; [now exists rest|].
  destruct R as [(D & _)|(_ & A & B & _)]; [discriminate D|].
  split; [exact B|]. split; [exact A|]. now apply Hf.
Qed.

Lemma write_random_failure_keeps_rollback_status_witness :
  exists w',
    DoWriteRandom_body (config false 1) 0 some_generator busy_put
      = Ret false w' /\
    history w' = [(OpPut None "00013" "0123456789", Status.kBusy);
                  (OpRollback, Status.kOk)] /\
    last_status_ w' = Status.OK /\
    (exists rest, calls (db w') = (OpRollback, last_status_ w') :: rest).
Proof.
  assert (H : {w' | DoWriteRandom_body (config false 1) 0 some_generator
                                       busy_put = Ret false w'}).
  { eexists. vm_compute. reflexivity. }
  destruct H as [w' H]. exists w'. split; [exact H|].
  pose proof (write_random_failure_keeps_rollback_status
                (config false 1) 0 some_generator busy_put w' H)
    as (C & _).
  vm_compute in H. injection H as <-.
  split; [reflexivity|]. split; [reflexivity|]. exact C.
Defined.

Module Scenario6.

(** A pessimistic transaction over two sets: the first set is read and
    written, the [Get] of the second answers [Busy]. *)
Definition second_get_busy : World :=
  world [4; 3; 1; 6; 1; 1; 1] [0]
        (store [] (mkFaults [Status.OK; Busy] [] [] [] [] [] [] [])).

End Scenario6.

Import Scenario6.

(** X10.  [DoInsert] with a transaction whose loop ended on a failed
    status [s].  The rollback of line 587 is the argument of an [assert]:
    in a build without assertions it is not evaluated, the store is left
    as the loop left it, with the writes of the sets already visited
    still pending in the transaction, and the run returns.  With
    assertions the run ends with one [Rollback] that answered OK and an
    empty transaction, or it stops on the assertion.  In both builds
    [last_status_] is [s] and the value returned is what the loop
    decided. *)
Theorem failed_loop_rolls_back_only_with_assertions
        (cfg : Config) (is_optimistic : bool) (w : World) (s : Status)
        (ue : bool) (batch : list WriteOp) (w1 : World) :
  insert_phase cfg true is_optimistic w = Ret (s, ue, batch) w1 ->
  ok s = false ->
  (ndebug cfg = true ->
   exists w',
     DoInsert cfg true is_optimistic w = Ret (negb ue) w' /\
     db w' = db w1 /\ last_status_ w' = s) /\
  (ndebug cfg = false ->
   match DoInsert cfg true is_optimistic w with
   | Ret b w' =>
       b = negb ue /\ last_status_ w' = s /\ pending (db w') = [] /\
       exists st, ok st = true /\
                  calls (db w') = (OpRollback, st) :: calls (db w1)
   | Stop f => f = AssertionFailed
   end).
Proof.
  intros Hloop Hs. unfold DoInsert.
  rewrite (bind_eq _ _ _ _ _ Hloop). cbv beta iota.
  split; intros Hnd.
  - assert (F : finish cfg true is_optimistic s ue batch w1
                = Ret (s, ue) w1).
    { unfold finish, assert_. rewrite Hs, Hnd. reflexivity. }
    rewrite (bind_eq _ _ _ _ _ F). cbv beta iota.
    eexists. split; [reflexivity|]. split; reflexivity.
  - destruct (txn_rollback (db w1)) as [st d] eqn:E.
    destruct (ok st) eqn:Hst.
    + assert (F : finish cfg true is_optimistic s ue batch w1
                  = Ret (s, ue) (set_db d w1)).
      { unfold finish, assert_, bind, on_db, ret.
        rewrite Hs, Hnd, E, Hst. reflexivity. }
      rewrite (bind_eq _ _ _ _ _ F). cbv beta iota.
      apply txn_rollback_stable in E. destruct E as (_ & C & P).
      cbn. repeat split; auto. exists st. auto.
    + assert (F : finish cfg true is_optimistic s ue batch w1
                  = Stop AssertionFailed).
      { unfold finish, assert_, bind, on_db, ret, stop.
        rewrite Hs, Hnd, E, Hst. reflexivity. }
      rewrite (bind_stop _ _ _ _ F). reflexivity.
Qed.

Lemma failed_loop_rolls_back_only_with_assertions_witness :
  (exists w',
     DoInsert (config true 2) true false second_get_busy = Ret true w' /\
     history w' = [(OpGet false None "00023", Status.kNotFound);
                   (OpPut None "00023" "5", Status.kOk);
                   (OpGet false None "00016", Status.kBusy)] /\
     pending (db w') = [WPut None "00023" "5"]) /\
  (exists w',
     DoInsert (config false 2) true false second_get_busy = Ret true w' /\
     history w' = [(OpGet false None "00023", Status.kNotFound);
                   (OpPut None "00023" "5", Status.kOk);
                   (OpGet false None "00016", Status.kBusy);
                   (OpRollback, Status.kOk)] /\
     pending (db w') = []).
Proof.
  assert (P : forall nd,
             {x : unit * list WriteOp * World |
               insert_phase (config nd 2) true false second_get_busy
               = Ret (Busy, false, snd (fst x)) (snd x)}).
  { intros []; eexists (tt, [], _); vm_compute; reflexivity. }
  split.
  - destruct (P true) as [[[u batch] w1] H]. cbn [fst snd] in H.
    destruct (proj1 (failed_loop_rolls_back_only_with_assertions
                       (config true 2) false second_get_busy Busy false
                       batch w1 H eq_refl) eq_refl) as (w' & E & _).
    exists w'. split; [exact E|].
    vm_compute in E. injection E as <-. split; reflexivity.
  - destruct (P false) as [[[u batch] w1] H]. cbn [fst snd] in H.
    assert (D : {w' | DoInsert (config false 2) true false second_get_busy
                      = Ret true w'}).
    { eexists. vm_compute. reflexivity. }
    destruct D as [w' E]. exists w'. split; [exact E|].
    pose proof (proj2 (failed_loop_rolls_back_only_with_assertions
                         (config false 2) false second_get_busy Busy false
                         batch w1 H eq_refl) eq_refl) as R.
    rewrite E in R. destruct R as (_ & _ & Pd & _).
    split; [|exact Pd].
    vm_compute in E. injection E as <-. reflexivity.
Defined.

(* ===================================================================== *)
(** * Further properties: what [Verify] holds on to *)
(* ===================================================================== *)

(** Nothing was written: the tables and the open transaction are as they
    were, and so is the count of live snapshots. *)
Definition unwritten (d d' : DB) : Prop :=
  table d' = table d /\ families d' = families d /\
  pending d' = pending d /\ live_snapshots d' = live_snapshots d.

Ltac unwritten_auto :=
  store_facts; unfold unwritten, stable in *; world_simpl;
  cbn [new_iterator delete_iterator get_snapshot release_snapshot
       set_iterators set_snapshots table families pending live_snapshots
       live_iterators Nat.pred] in *;
  intuition (try congruence).

Section VerifyFrames.

Variable cfg : Config.

Lemma point_lookups_unwritten (sn : option Snapshot) (set_i : N)
      (count : nat) :
  forall (k total : N) (w : World) (r : N) (w' : World),
    point_lookups cfg sn set_i count k total w = Ret r w' ->
    unwritten (db w) (db w') /\
    live_iterators (db w') = live_iterators (db w).
Proof.
  induction count as [|c IH]; intros k total w r w' H.
  - cbn [point_lookups] in H. run_cases H. close_run H. repeat split.
  - cbn [point_lookups] in H. unfold DBGet in H.
    run_cases H; apply IH in H; unwritten_auto.
Qed.

Lemma iterate_unwritten (set_i : N) (it : Table) :
  forall (total : N) (w : World) (r : option N) (w' : World),
    iterate set_i it total w = Ret r w' -> db w' = db w.
Proof.
  induction it as [|[key value] rest IH]; intros total w r w' H.
  - cbn [iterate] in H. run_cases H. close_run H. reflexivity.
  - cbn [iterate] in H.
    run_cases H; first [ close_run H; reflexivity | now apply IH in H ].
Qed.

(** The total of one set: the iterator is deleted when a total comes
    back, and is still there after the early return. *)
Lemma set_total_unwritten (sn : option Snapshot) (nkps : N) (has_rand : bool)
      (set_i : N) (w : World) (r : option N) (w' : World) :
  set_total cfg sn nkps has_rand set_i w = Ret r w' ->
  unwritten (db w) (db w') /\
  live_iterators (db w')
  = match r with
    | Some _ => live_iterators (db w)
    | None => S (live_iterators (db w))
    end.
Proof.
  intros H. unfold set_total in H.
  apply bind_Ret in H. destruct H as ([] & w0 & H0 & H).
  assert (E0 : w0 = w) by (run_cases H0; now close_run H0). subst w0.
  apply bind_Ret in H. destruct H as (point & w1 & H1 & H).
  assert (D1 : db w1 = db w).
  { unfold use_point_lookup in H1.
    run_cases H1; close_run H1; reflexivity. }
  destruct point.
  - apply bind_Ret in H. destruct H as (total & w2 & H2 & H).
    apply point_lookups_unwritten in H2. unfold ret in H. close_run H.
    rewrite D1 in H2. exact H2.
  - apply bind_Ret in H. destruct H as (it & w2 & H2 & H).
    apply bind_Ret in H. destruct H as (r0 & w3 & H3 & H).
    apply iterate_unwritten in H3.
    unfold on_db, new_iterator in H2. close_run H2.
    destruct r0 as [total|]; run_cases H; close_run H;
      rewrite ?H3; world_simpl; rewrite ?H3, ?D1;
      cbn [delete_iterator set_iterators db set_db table families pending
           live_snapshots live_iterators Nat.pred];
      repeat split.
Qed.

Lemma verify_sets_unwritten (sn : option Snapshot) (nkps : N)
      (has_rand : bool) (set_vec : list N) :
  forall (p : Prev) (w : World) (r : Status + Prev) (w' : World),
    verify_sets cfg sn nkps has_rand set_vec p w = Ret r w' ->
    unwritten (db w) (db w') /\
    match r with
    | inr _ => live_iterators (db w') = live_iterators (db w)
    | inl s =>
        s = Status.Corruption /\
        (live_iterators (db w') = live_iterators (db w) \/
         live_iterators (db w') = S (live_iterators (db w)))
    end.
Proof.
  induction set_vec as [|set_i rest IH]; intros p w r w' H.
  - cbn [verify_sets] in H. unfold ret in H. close_run H. repeat split.
  - cbn [verify_sets] in H.
    apply bind_Ret in H. destruct H as (r0 & w1 & H1 & H).
    apply set_total_unwritten in H1. destruct H1 as (U1 & I1).
    destruct r0 as [total|].
    + destruct (prev_assigned p && negb (total =? prev_total p)).
      * run_cases H. close_run H. world_simpl.
        split; [exact U1|]. split; [reflexivity|]. now left.
      * apply IH in H. destruct H as (U2 & I2).
        split; [unfold unwritten in *; intuition congruence|].
        destruct r as [s|p']; [|congruence].
        destruct I2 as (-> & [I2|I2]); split; auto;
          [left|right]; congruence.
    + unfold ret in H. close_run H.
      split; [exact U1|]. split; [reflexivity|]. now right.
Qed.

End VerifyFrames.

(** X11.  Every run of [Verify] that returns, on any store and by either
    path, returns [Status::OK()] or [Status::Corruption()] and has written
    nothing.  When it returns OK the store has as many live snapshots and
    iterators as before the call; when it returns Corruption the snapshot
    it took, if it took one, is still live, and at most one iterator
    is. *)
Theorem Verify_releases_exactly_on_OK
        (cfg : Config) (num_sets nkps : N) (take_snapshot has_rand : bool)
        (w : World) (st : Status) (w' : World) :
  Verify cfg num_sets nkps take_snapshot has_rand w = Ret st w' ->
  table (db w') = table (db w) /\ families (db w') = families (db w) /\
  pending (db w') = pending (db w) /\
  ((st = Status.OK /\
    live_snapshots (db w') = live_snapshots (db w) /\
    live_iterators (db w') = live_iterators (db w)) \/
   (st = Status.Corruption /\
    live_snapshots (db w')
    = (if take_snapshot then S (live_snapshots (db w))
       else live_snapshots (db w)) /\
    (live_iterators (db w') = live_iterators (db w) \/
     live_iterators (db w') = S (live_iterators (db w))))).
Proof.
  intros H. unfold Verify in H.
  apply bind_Ret in H. destruct H as ([sn sv] & w0 & H0 & H).
  apply bind_Ret in H. destruct H as (r & w1 & H1 & H).
  apply verify_sets_unwritten in H1. destruct H1 as (U & I).
  assert (B : table (db w0) = table (db w) /\
              families (db w0) = families (db w) /\
              pending (db w0) = pending (db w) /\
              live_iterators (db w0) = live_iterators (db w) /\
              live_snapshots (db w0)
              = (if take_snapshot then S (live_snapshots (db w))
                 else live_snapshots (db w))).
  { unfold verify_begin in H0.
    apply bind_Ret in H0. destruct H0 as (sn0 & wa & Ha & H0).
    apply bind_Ret in H0. destruct H0 as (sv0 & wb & Hb & H0).
    unfold ret in H0. close_run H0.
    apply std_shuffle_draws, draws_only_frame in Hb.
    destruct Hb as (_ & _ & -> & _).
    unfold get_snapshot in Ha.
    destruct take_snapshot; run_cases Ha; close_run Ha; repeat split. }
  destruct B as (B1 & B2 & B3 & B4 & B5).
  destruct U as (U1 & U2 & U3 & U4).
  destruct r as [s|p].
  - unfold ret in H. close_run H. destruct I as (-> & I).
    repeat split; try congruence.
    right. split; [reflexivity|]. split; [congruence|].
    destruct I as [I|I]; [left|right]; congruence.
  - destruct take_snapshot; run_cases H; close_run H; world_simpl;
      cbn [release_snapshot set_snapshots table families pending
           live_snapshots live_iterators];
      (repeat split; try congruence);
      left; (split; [reflexivity|]); split; try congruence.
    rewrite U4, B5. reflexivity.
Qed.

Lemma Verify_releases_exactly_on_OK_witness :
  exists w',
    Verify (config false 2) 2 0 true false (unequal "5" "6")
      = Ret Status.Corruption w' /\
    table (db w') = [("00010", "5"); ("00020", "6")] /\
    live_snapshots (db w') = 1%nat.
Proof.
  assert (H : {w' | Verify (config false 2) 2 0 true false (unequal "5" "6")
                    = Ret Status.Corruption w'}).
  { eexists. vm_compute. reflexivity. }
  destruct H as [w' H]. exists w'. split; [exact H|].
  destruct (Verify_releases_exactly_on_OK
              (config false 2) 2 0 true false (unequal "5" "6") _ w' H)
    as (T & _ & _ & [(D & _)|(_ & S & _)]); [discriminate D|].
  split; [exact T|exact S].
Defined.

(* ===================================================================== *)
(** * Further properties: what the scan of [Verify] decides *)
(* ===================================================================== *)

(** A stored pair the scan accepts: its value reads as a number that is
    neither 0 nor [ULONG_MAX]. *)
Definition readable (kv : string * string) : Prop :=
  exists n, stoull (snd kv) = inr n /\ n <> 0 /\ n <> ULONG_MAX.

(** The total of a set as [Verify] holds it, in a [uint64_t]. *)
Definition scan_sum (set_i : N) (t : Table) : N := u64 (set_sum set_i t).

(** The comparisons of lines 664-673 over the totals of the sets in the
    order of the visit: each total against the one before it. *)
Fixpoint agree (prev : option N) (totals : list N) : bool :=
  match totals with
  | [] => true
  | x :: r =>
      match prev with Some y => x =? y | None => true end && agree (Some x) r
  end.

Section Agreement.

Lemma agree_some (c : N) (l : list N) :
  agree (Some c) l = true <-> forall x, In x l -> x = c.
Proof.
  revert c. induction l as [|a l IH]; intros c; cbn [agree].
  - split; [intros _ x []|reflexivity].
  - rewrite andb_true_iff, N.eqb_eq, IH. split.
    + intros [-> H] x [<-|Hx]; [reflexivity|now apply H].
    + intros H. assert (a = c) by (apply H; now left). subst a.
      split; [reflexivity|]. intros x Hx. apply H. now right.
Qed.

Lemma agree_none (l : list N) :
  agree None l = true <-> forall x y, In x l -> In y l -> x = y.
Proof.
  destruct l as [|a l]; cbn [agree andb].
  - split; [intros _ x y []|reflexivity].
  - rewrite agree_some. split.
    + intros H x y Hx Hy.
      assert (Ex : x = a) by (destruct Hx as [<-|Hx]; auto).
      assert (Ey : y = a) by (destruct Hy as [<-|Hy]; auto).
      congruence.
    + intros H x Hx. apply H; [now right|now left].
Qed.

End Agreement.

Section ScanAnyTable.

Variable cfg : Config.

Lemma iterate_readable (s : N) :
  s < 9999 ->
  forall (t : Table) (total : N) (w : World),
    sorted t ->
    Forall (not_below (prefix_buf s)) t ->
    Forall readable t ->
    iterate s t (u64 total) w = Ret (Some (u64 (total + set_sum s t))) w.
Proof.
  intros H9. unfold sorted.
  induction t as [|[k v] r IH]; intros total w Hsort Hlo Hrd.
  - cbn. now rewrite N.add_0_r.
  - inversion Hsort as [|? ? Hr Hall]; subst.
    inversion Hlo as [|? ? Hk Hlo']; subst.
    inversion Hrd as [|? ? Hkv Hrd']; subst.
    cbn [iterate set_sum].
    destruct (has_prefix s k) eqn:P; cbn [negb].
    + destruct Hkv as (n & Sv & Hn0 & Hn1). cbn [snd] in Sv.
      unfold stoull_, bind. rewrite Sv. unfold ret.
      assert (E : (n =? 0) || (n =? ULONG_MAX) = false).
      { apply orb_false_iff. split; now apply N.eqb_neq. }
      rewrite E. rewrite add64_u64. cbn [numval]. rewrite Sv.
      rewrite (IH (total + n) w Hr Hlo' Hrd'). now rewrite N.add_assoc.
    + unfold ret. rewrite set_sum_none; [now rewrite !N.add_0_r|].
      rewrite Forall_forall in Hall. apply Forall_forall. intros [k2 v2] Hin.
      cbn [fst]. rewrite (has_prefix_prefix s k2 H9).
      destruct (String.prefix (prefix_buf s) k2) eqn:P2; [|reflexivity].
      rewrite (has_prefix_prefix s k H9) in P.
      rewrite (prefix_convex (prefix_buf s) k k2 P2 Hk (Hall _ Hin)) in P.
      discriminate.
Qed.

End ScanAnyTable.

Section ScanDecides.

Variable cfg : Config.

Lemma view_unwritten (sn : option Snapshot) (d d' : DB) :
  unwritten d d' -> view sn None d' = view sn None d.
Proof.
  intros (T & _). destruct sn as [[? ?]|]; [reflexivity|exact T].
Qed.

(** The range scan of one set, over any table in key order whose values
    it accepts. *)
Lemma set_total_scan (sn : option Snapshot) (nkps : N) (has_rand : bool)
      (s : N) (w : World) :
  s < 9999 ->
  nkps = 0 \/ has_rand = false ->
  sorted (view sn None (db w)) ->
  Forall readable (view sn None (db w)) ->
  exists w',
    set_total cfg sn nkps has_rand s w
    = Ret (Some (scan_sum s (view sn None (db w)))) w'.
Proof.
  intros H9 Hpath Hsort Hrd. unfold set_total.
  rewrite (bind_eq _ _ _ _ _ (assert_set_passes cfg s w (or_intror H9))).
  assert (Hp : use_point_lookup nkps has_rand w = Ret false w).
  { unfold use_point_lookup. destruct Hpath as [->| ->]; [reflexivity|].
    now destruct (nkps =? 0). }
  rewrite (bind_eq _ _ _ _ _ Hp).
  unfold bind at 1. unfold on_db, new_iterator.
  set (t := view sn None (db w)) in *.
  destruct (seek_spec 9999 (N.le_refl _) s t H9 Hsort) as (A & B & C & D).
  rewrite (seek_target_prefix_buf s H9) in *.
  unfold bind at 1. change 0 with (u64 0) at 1.
  rewrite (iterate_readable s H9 _ 0 _ A B).
  - unfold bind, on_db_, modify, ret. rewrite C. cbn [N.add].
    eexists. reflexivity.
  - apply Forall_forall. intros x Hx. rewrite Forall_forall in Hrd.
    now apply Hrd, D.
Qed.

Definition prev_of (p : Prev) : option N :=
  if prev_assigned p then Some (prev_total p) else None.

(** The loop of [Verify] on the scan path returns from the inside exactly
    when two totals that follow each other differ. *)
Lemma verify_sets_scan (sn : option Snapshot) (nkps : N) (has_rand : bool)
      (t : Table) :
  nkps = 0 \/ has_rand = false ->
  sorted t -> Forall readable t ->
  forall (set_vec : list N) (p : Prev) (w : World),
    (forall s, In s set_vec -> s < 9999) ->
    view sn None (db w) = t ->
    exists r w',
      verify_sets cfg sn nkps has_rand set_vec p w = Ret r w' /\
      if agree (prev_of p) (map (fun s => scan_sum s t) set_vec)
      then exists p', r = inr p'
      else r = inl Status.Corruption.
Proof.
  intros Hpath Hsort Hrd.
  induction set_vec as [|s rest IH]; intros p w Hin Hv.
  - exists (inr p), w. split; [reflexivity|]. cbn. now exists p.
  - cbn [verify_sets map agree].
    destruct (set_total_scan sn nkps has_rand s w
                (Hin s (or_introl eq_refl)) Hpath
                ltac:(now rewrite Hv) ltac:(now rewrite Hv)) as (w1 & E).
    rewrite (bind_eq _ _ _ _ _ E). cbv beta iota. rewrite Hv.
    apply set_total_unwritten in E. destruct E as (U & _).
    unfold prev_of at 1.
    destruct (prev_assigned p) eqn:Pa; cbn [andb].
    + destruct (scan_sum s t =? prev_total p) eqn:Q; cbn [negb andb].
      * destruct (IH (mkPrev (scan_sum s t) s true) w1
                     (fun x Hx => Hin x (or_intror Hx)))
          as (r & w2 & E2 & R).
        { rewrite (view_unwritten sn _ _ U). exact Hv. }
        exists r, w2. split; [exact E2|exact R].
      * unfold bind, fprintf, modify, ret. eexists _, _.
        split; reflexivity.
    + destruct (IH (mkPrev (scan_sum s t) s true) w1
                   (fun x Hx => Hin x (or_intror Hx)))
        as (r & w2 & E2 & R).
      { rewrite (view_unwritten sn _ _ U). exact Hv. }
      exists r, w2. split; [exact E2|exact R].
Qed.

End ScanDecides.

(** X12.  [Verify] by range scan (no point lookups: [num_keys_per_set]
    is 0 or no generator is passed), over at most 9999 sets, on a table
    in key order in which every value reads as a number other than 0 and
    [ULONG_MAX]: it returns, whatever order the device gives, and it
    returns OK exactly when all the sets have the same total, the totals
    being sums in [uint64_t]; otherwise it returns Corruption. *)
Theorem Verify_scan_decides_equal_totals
        (cfg : Config) (num_sets nkps : N) (take_snapshot has_rand : bool)
        (w : World) :
  num_sets <= 9999 ->
  nkps = 0 \/ has_rand = false ->
  sorted (table (db w)) ->
  Forall readable (table (db w)) ->
  exists st w',
    Verify cfg num_sets nkps take_snapshot has_rand w = Ret st w' /\
    (st = Status.OK \/ st = Status.Corruption) /\
    (st = Status.OK <->
     forall s1 s2, s1 < num_sets -> s2 < num_sets ->
                   scan_sum s1 (table (db w)) = scan_sum s2 (table (db w))).
Proof.
  intros Hsets Hpath Hsort Hrd. unfold Verify.
  set (t := table (db w)) in *.
  assert (Hbegin : exists sn sv w0,
             verify_begin num_sets take_snapshot w = Ret (sn, sv) w0 /\
             Permutation sv (iota num_sets) /\
             view sn None (db w0) = t).
  { unfold verify_begin. destruct take_snapshot.
    - unfold bind at 1. unfold bind at 1. unfold on_db, get_snapshot.
      cbv beta iota zeta. unfold ret at 1.
      match goal with
      | |- context [bind (std_shuffle (iota num_sets)) _ ?W] =>
          destruct (std_shuffle_iota num_sets W) as (sv & w0 & E & D & P)
      end.
      rewrite (bind_eq _ _ _ _ _ E). unfold ret.
      do 3 eexists. split; [reflexivity|]. split; [exact P|reflexivity].
    - unfold bind at 1. unfold ret at 1.
      destruct (std_shuffle_iota num_sets w) as (sv & w0 & E & D & P).
      rewrite (bind_eq _ _ _ _ _ E). unfold ret.
      do 3 eexists. split; [reflexivity|]. split; [exact P|].
      apply draws_only_frame in D. destruct D as (_ & _ & -> & _).
      reflexivity. }
  destruct Hbegin as (sn & sv & w0 & E0 & P & Hv).
  rewrite (bind_eq _ _ _ _ _ E0). cbv beta iota.
  assert (Hin : forall s, In s sv <-> s < num_sets).
  { intros s. rewrite <- iota_In. split; apply Permutation_in;
      [exact P|now apply Permutation_sym]. }
  destruct (verify_sets_scan cfg sn nkps has_rand t Hpath Hsort Hrd sv
              (mkPrev 0 0 false) w0
              (fun s Hs => N.lt_le_trans _ _ _ (proj1 (Hin s) Hs) Hsets) Hv)
    as (r & w1 & E1 & R).
  rewrite (bind_eq _ _ _ _ _ E1).
  change (prev_of (mkPrev 0 0 false)) with (@None N) in R.
  assert (Hall : agree None (map (fun s => scan_sum s t) sv) = true <->
                 forall s1 s2, s1 < num_sets -> s2 < num_sets ->
                               scan_sum s1 t = scan_sum s2 t).
  { rewrite agree_none. split.
    - intros H s1 s2 H1 H2. apply H; apply in_map_iff;
        [exists s1|exists s2]; split; auto; now apply Hin.
    - intros H x y Hx Hy. apply in_map_iff in Hx, Hy.
      destruct Hx as (s1 & <- & H1), Hy as (s2 & <- & H2).
      apply H; now apply Hin. }
  destruct (agree None (map (fun s => scan_sum s t) sv)).
  - destruct R as (p' & ->).
    assert (Hend : exists w2,
               ((if take_snapshot then on_db_ release_snapshot
                 else ret tt) ;; ret Status.OK)%harness w1
               = Ret Status.OK w2).
    { destruct take_snapshot; eexists; reflexivity. }
    destruct Hend as (w2 & E2). exists Status.OK, w2.
    split; [exact E2|]. split; [now left|].
    split; [intros _; now apply Hall|reflexivity].
  - subst r. exists Status.Corruption, w1.
    split; [reflexivity|]. split; [now right|].
    split; [discriminate|].
    intros H. apply Hall in H. discriminate H.
Qed.

Lemma Verify_scan_decides_equal_totals_witness :
  exists st w',
    Verify (config false 2) 2 0 true false (unequal "5" "6") = Ret st w' /\
    (st = Status.OK \/ st = Status.Corruption) /\
    (st = Status.OK <->
     forall s1 s2, s1 < 2 -> s2 < 2 ->
                   scan_sum s1 [("00010", "5"); ("00020", "6")]
                   = scan_sum s2 [("00010", "5"); ("00020", "6")]).
Proof.
  apply (Verify_scan_decides_equal_totals
           (config false 2) 2 0 true false (unequal "5" "6")).
  - discriminate.
  - now left.
  - repeat constructor.
  - repeat constructor.
    + exists 5. repeat split; discriminate.
    + exists 6. repeat split; discriminate.
Defined.

(* ===================================================================== *)
(** * Further properties: a read that fails *)
(* ===================================================================== *)

(** What lines 507-516 make of a failed read: unexpected for an
    optimistic transaction, and for any status that is not a conflict. *)
Definition unexpected_on_get (is_optimistic : bool) (s : Status) : bool :=
  is_optimistic || negb (IsBusy s || IsTimedOut s || IsTryAgain s).

Section FailedRead.

Variable cfg : Config.

Lemma is_failure_not_ok (s : Status) :
  is_failure s = true -> ok s = false /\ IsNotFound s = false.
Proof.
  unfold is_failure. destruct (ok s), (IsNotFound s); cbn; auto; discriminate.
Qed.

Lemma read_fails (use_txn gfu : bool) (sn : option Snapshot) (key : string)
      (d : DB) (s : Status) (q : list Status) :
  f_get (faults d) = s :: q -> is_failure s = true ->
  exists d',
    (if use_txn then txn_get gfu sn None key else db_get sn None key) d
    = ((s, ""), d') /\
    stable d d' /\ pending d' = pending d.
Proof.
  intros Hq Hs. destruct use_txn.
  - unfold txn_get. rewrite Hq. cbn [next_fault]. rewrite Hs.
    eexists. split; [reflexivity|]. repeat split.
  - unfold db_get. rewrite Hq. cbn [next_fault]. rewrite Hs.
    eexists. split; [reflexivity|]. repeat split.
Qed.

Lemma DBGet_fails (use_txn : bool) (sn : option Snapshot) (set_i ikey : N)
      (gfu : bool) (iv : N) (ue : bool) (w : World) (s : Status)
      (q : list Status) :
  ndebug cfg = true \/ set_i < 9999 ->
  f_get (faults (db w)) = s :: q -> is_failure s = true ->
  exists d',
    DBGet cfg use_txn sn set_i ikey gfu iv ue w
    = Ret (s, iv, full_key set_i ikey, ue) (set_db d' w) /\
    stable (db w) d' /\ pending d' = pending (db w).
Proof.
  intros Hset Hq Hs. unfold DBGet.
  rewrite (bind_eq _ _ _ _ _ (assert_set_passes cfg set_i w Hset)).
  destruct (read_fails use_txn gfu sn (full_key set_i ikey) (db w) s q Hq Hs)
    as (d' & E & H).
  exists d'. split; [|exact H].
  rewrite (bind_eq _ _ _ _ _ (on_db_eq _ w _ d' E)). cbv beta iota zeta.
  destruct (is_failure_not_ok s Hs) as (-> & ->). reflexivity.
Qed.

(** The first turn of the loop of [DoInsert] when the read fails. *)
Lemma insert_loop_read_fails (use_txn is_optimistic : bool) (incr : N)
      (set_i : N) (rest : list N) (s0 : Status) (ue : bool)
      (batch : list WriteOp) (w : World) (s : Status) (q : list Status) :
  0 < num_keys_ cfg ->
  ndebug cfg = true \/ set_i < 9999 ->
  f_get (faults (db w)) = s :: q -> is_failure s = true ->
  exists w',
    insert_loop cfg use_txn is_optimistic incr (set_i :: rest) s0 ue batch w
    = Ret (s, unexpected_on_get is_optimistic s || ue, batch) w' /\
    stable (db w) (db w') /\ pending (db w') = pending (db w) /\
    stats w' = stats w.
Proof.
  intros Hkeys Hset Hq Hs. cbn [insert_loop].
  rewrite (bind_eq _ _ _ _ _ (Next_eq w)).
  assert (Hu : forall a w0, umod a (num_keys_ cfg) w0
                            = Ret (a mod num_keys_ cfg) w0).
  { intros a w0. unfold umod.
    destruct (N.eqb_spec (num_keys_ cfg) 0); [lia|reflexivity]. }
  rewrite (bind_eq _ _ _ _ _ (Hu _ _)).
  assert (Hg : exists gfu w1,
             (if use_txn then OneIn 2 else ret false)
               (set_rand (snd (pop (rand_ w))) w) = Ret gfu w1 /\
             db w1 = db w /\ stats w1 = stats w).
  { destruct use_txn.
    - destruct (OneIn_eq 2 (set_rand (snd (pop (rand_ w))) w)) as (b & E).
      do 2 eexists. split; [exact E|]. split; reflexivity.
    - do 2 eexists. split; [reflexivity|]. split; reflexivity. }
  destruct Hg as (gfu & w1 & Eg & D1 & S1).
  rewrite (bind_eq _ _ _ _ _ Eg).
  change (bind get_world ?k w1) with (k w1 w1). cbv beta.
  destruct (DBGet_fails use_txn (read_snapshot w1) set_i
              (fst (pop (rand_ w)) mod num_keys_ cfg) gfu 0 ue w1 s q Hset
              ltac:(now rewrite D1) Hs) as (d' & E & St & Pd).
  rewrite (bind_eq _ _ _ _ _ E). cbv beta iota.
  destruct (is_failure_not_ok s Hs) as (Hok & _). rewrite Hok. cbn [negb].
  unfold unexpected_on_get.
  destruct (is_optimistic || negb (IsBusy s || IsTimedOut s || IsTryAgain s)).
  - unfold bind, fprintf, modify, ret. eexists. split; [reflexivity|].
    world_simpl. rewrite <- D1, <- S1. unfold stable in *.
    intuition congruence.
  - unfold ret. eexists. split; [reflexivity|].
    world_simpl. rewrite <- D1, <- S1. unfold stable in *.
    intuition congruence.
Qed.

End FailedRead.

Module Scenario7.

(** The first read of the run answers [Busy]. *)
Definition first_get_busy : World :=
  world [4; 3; 1; 6; 1; 1; 1] [0]
        (store [] (mkFaults [Busy] [] [] [] [] [] [] [])).

End Scenario7.

Import Scenario7.

(** X13.  [DoInsert] when the first read of the run fails with a status
    [s] that is not NotFound: the loop is left at once, [last_status_] is
    [s], the failure counter moves, nothing is written, and the run
    returns [true] exactly when the transaction is not optimistic and [s]
    is Busy, TimedOut or TryAgain.  The only other way out is the
    assertion on the rollback, with a transaction and in a build with
    assertions. *)
Theorem failed_read_is_classified
        (cfg : Config) (use_txn is_optimistic : bool) (w : World)
        (s : Status) (q : list Status) :
  0 < num_sets_ cfg -> 0 < num_keys_ cfg ->
  ndebug cfg = true \/ num_sets_ cfg <= 9999 ->
  f_get (faults (db w)) = s :: q -> is_failure s = true ->
  match DoInsert cfg use_txn is_optimistic w with
  | Ret b w' =>
      b = negb (unexpected_on_get is_optimistic s) /\
      last_status_ w' = s /\ counted false w w' /\
      stable (db w) (db w')
  | Stop f => f = AssertionFailed /\ ndebug cfg = false /\ use_txn = true
  end.
Proof.
  intros Hsets Hkeys Hbound Hq Hs.
  destruct (is_failure_not_ok s Hs) as (Hok & _).
  assert (Hphase : exists w1,
             insert_phase cfg use_txn is_optimistic w
             = Ret (s, unexpected_on_get is_optimistic s, []) w1 /\
             stable (db w) (db w1) /\ stats w1 = stats w).
  { unfold insert_phase. rewrite (bind_eq _ _ _ _ _ (Next_eq w)).
    destruct (std_shuffle_iota (num_sets_ cfg)
                (set_rand (snd (pop (rand_ w))) w)) as (sv & w2 & E & D & P).
    rewrite (bind_eq _ _ _ _ _ E).
    destruct (perm_iota_facts _ _ P) as (_ & L & Hin).
    destruct sv as [|set_i rest]; [cbn in L; lia|].
    apply draws_only_frame in D. destruct D as (D1 & _ & D2 & _).
    destruct (insert_loop_read_fails cfg use_txn is_optimistic
                (add64 (fst (pop (rand_ w)) mod 100) 1) set_i rest
                Status.OK false [] w2 s q Hkeys)
      as (w1 & E1 & St & _ & S1).
    - destruct Hbound as [Hb|Hb]; [now left|right].
      assert (set_i < num_sets_ cfg) by (apply Hin; now left). lia.
    - rewrite D2. exact Hq.
    - exact Hs.
    - exists w1. rewrite E1, orb_false_r. split; [reflexivity|].
      rewrite D2 in St. split; [exact St|]. now rewrite S1, D1. }
  destruct Hphase as (w1 & E1 & St1 & S1).
  unfold DoInsert. rewrite (bind_eq _ _ _ _ _ E1). cbv beta iota.
  set (ue := unexpected_on_get is_optimistic s).
  destruct (finish cfg use_txn is_optimistic s ue [] w1)
    as [[s' ue'] w2|f] eqn:F.
  - rewrite (bind_eq _ _ _ _ _ F). cbv beta iota.
    rewrite (bind_eq _ _ _ _ _ (tally_returns s' w2)). unfold ret.
    pose proof (finish_returns cfg _ _ _ _ _ _ _ _ _ F) as (S2 & R).
    rewrite Hok in R. destruct R as (-> & ->).
    apply finish_effect in F.
    destruct F as (_ & _ & _ & _ & [St2|(C & _)]); [|congruence].
    rewrite Hok. unfold counted. world_simpl. rewrite S2, S1.
    repeat split; unfold stable in *; intuition congruence.
  - rewrite (bind_stop _ _ _ _ F).
    pose proof (finish_stops cfg _ _ _ _ _ _ _ F) as (-> & Hnd).
    split; [reflexivity|]. split; [exact Hnd|].
    destruct use_txn; [reflexivity|].
    unfold finish in F. rewrite Hok in F. discriminate F.
Qed.

Lemma failed_read_is_classified_witness :
  (exists w',
     DoInsert (config false 2) true false first_get_busy = Ret true w' /\
     counts w' = (0, 1)) /\
  (exists w',
     DoInsert (config false 2) true true first_get_busy = Ret false w' /\
     counts w' = (0, 1)).
Proof.
  assert (H1 : 0 < num_sets_ (config false 2)) by reflexivity.
  assert (H2 : 0 < num_keys_ (config false 2)) by reflexivity.
  assert (H3 : ndebug (config false 2) = true \/
               num_sets_ (config false 2) <= 9999) by (right; discriminate).
  assert (H4 : f_get (faults (db first_get_busy)) = [Busy]) by reflexivity.
  assert (H5 : is_failure Busy = true) by reflexivity.
  split.
  - assert (D : {w' | DoInsert (config false 2) true false first_get_busy
                      = Ret true w'}).
    { eexists. vm_compute. reflexivity. }
    destruct D as [w' E]. exists w'. split; [exact E|].
    pose proof (failed_read_is_classified
                  (config false 2) true false first_get_busy Busy []
                  H1 H2 H3 H4 H5) as R.
    rewrite E in R. destruct R as (_ & _ & (A & B) & _).
    unfold counts. rewrite A, B. reflexivity.
  - assert (D : {w' | DoInsert (config false 2) true true first_get_busy
                      = Ret false w'}).
    { eexists. vm_compute. reflexivity. }
    destruct D as [w' E]. exists w'. split; [exact E|].
    pose proof (failed_read_is_classified
                  (config false 2) true true first_get_busy Busy []
                  H1 H2 H3 H4 H5) as R.
    rewrite E in R. destruct R as (_ & _ & (A & B) & _).
    unfold counts. rewrite A, B. reflexivity.
Defined.

(* ===================================================================== *)
(** * Further properties: the entry points *)
(* ===================================================================== *)

Section EntryPoints.

Variable cfg : Config.

Lemma DoInsert_keeps_options (use_txn is_optimistic : bool) (w : World)
      (b : bool) (w' : World) :
  DoInsert cfg use_txn is_optimistic w = Ret b w' ->
  read_snapshot w' = read_snapshot w /\ txn_id_ w' = txn_id_ w.
Proof.
  intros H. apply DoInsert_returns in H.
  destruct H as (s & ue & batch & w1 & s' & ue' & w2 & H1 & H2 & -> & ->).
  apply insert_phase_steady in H1. destruct H1 as (_ & R1 & I1 & _).
  apply finish_effect in H2. destruct H2 as (R2 & I2 & _).
  world_simpl. split; congruence.
Qed.

Lemma DoInsert_TO_keeps_options (use_txn : bool) (w : World)
      (b : bool) (w' : World) :
  DoInsert_TO cfg use_txn w = Ret b w' ->
  read_snapshot w' = read_snapshot w /\
  (txn_id_ w' = txn_id_ w \/ txn_id_ w' = txn_id_ w + 1).
Proof.
  intros H. apply DoInsert_TO_returns in H.
  destruct H as (s & ue & w1 & s' & w2 & H1 & H2 & -> & ->).
  apply insert_phase_TO_steady in H1. destruct H1 as (_ & R1 & I1 & _).
  apply finish_TO_effect in H2. destruct H2 as (R2 & _ & _ & I2 & _).
  world_simpl. split; [congruence|].
  rewrite I2, I1. destruct (ok s && use_txn); auto.
Qed.

End EntryPoints.

(** X14.  The entry points and the fields they own.  A call of
    [TransactionDBInsert] that returns has used one transaction number,
    and [read_options_.snapshot] is afterwards null or what it was before
    the call, null if it was null: the snapshot the call may have set is
    taken out again.  [OptimisticTransactionDBInsert] and [DBInsert]
    touch neither field, and [TOTransactionDBInsert] uses at most one
    number and leaves the snapshot alone. *)
Theorem entry_points_keep_their_fields (cfg : Config) (w : World) (b : bool)
        (w' : World) :
  (TransactionDBInsert cfg w = Ret b w' ->
   txn_id_ w' = txn_id_ w + 1 /\
   (read_snapshot w' = None \/ read_snapshot w' = read_snapshot w) /\
   (read_snapshot w = None -> read_snapshot w' = None)) /\
  (OptimisticTransactionDBInsert cfg w = Ret b w' ->
   txn_id_ w' = txn_id_ w /\ read_snapshot w' = read_snapshot w) /\
  (DBInsert cfg w = Ret b w' ->
   txn_id_ w' = txn_id_ w /\ read_snapshot w' = read_snapshot w) /\
  (TOTransactionDBInsert cfg w = Ret b w' ->
   (txn_id_ w' = txn_id_ w \/ txn_id_ w' = txn_id_ w + 1) /\
   read_snapshot w' = read_snapshot w).
Proof.
  split; [|split; [|split]].
  - intros H. unfold TransactionDBInsert in H.
    apply bind_Ret in H. destruct H as ([] & w1 & H1 & H).
    apply bind_Ret in H. destruct H as ([] & w2 & H2 & H).
    apply bind_Ret in H. destruct H as (ts & w3 & H3 & H).
    apply bind_Ret in H. destruct H as ([] & w4 & H4 & H).
    apply bind_Ret in H. destruct H as (res & w5 & H5 & H).
    apply bind_Ret in H. destruct H as ([] & w6 & H6 & H).
    unfold ret in H. close_run H.
    unfold on_db_, modify in H1, H2. close_run H1. close_run H2.
    apply OneIn_draws, draws_only_frame in H3.
    destruct H3 as (_ & _ & _ & R3 & _ & I3 & _).
    apply DoInsert_keeps_options in H5. destruct H5 as (R5 & I5).
    world_simpl.
    destruct ts; run_cases H4; close_run H4; run_cases H6; close_run H6;
      world_simpl; (split; [congruence|]); split; try (now left);
      try (right; congruence); intros Hn; congruence.
  - intros H. unfold OptimisticTransactionDBInsert in H.
    apply bind_Ret in H. destruct H as ([] & w1 & H1 & H).
    unfold on_db_, modify in H1. close_run H1.
    apply DoInsert_keeps_options in H. world_simpl. tauto.
  - intros H. unfold DBInsert in H.
    apply DoInsert_keeps_options in H. tauto.
  - intros H. unfold TOTransactionDBInsert in H.
    apply bind_Ret in H. destruct H as ([] & w1 & H1 & H).
    apply bind_Ret in H. destruct H as (s & w2 & H2 & H).
    apply bind_Ret in H. destruct H as ([] & w3 & H3 & H).
    unfold on_db_, modify in H1. close_run H1.
    run_cases H2. close_run H2.
    assert (E3 : w3 = set_db d (set_db (begin_transaction (db w)) w)).
    { run_cases H3; now close_run H3. }
    subst w3. apply DoInsert_TO_keeps_options in H. world_simpl. tauto.
Qed.

Lemma entry_points_keep_their_fields_witness :
  exists w',
    TransactionDBInsert (config false 2)
      (world [0; 4; 3; 1; 6; 1; 1; 1] [0] (store [] no_faults))
    = Ret true w' /\
    txn_id_ w' = 1 /\ read_snapshot w' = None.
Proof.
  assert (D : {w' | TransactionDBInsert (config false 2)
                      (world [0; 4; 3; 1; 6; 1; 1; 1] [0]
                             (store [] no_faults))
                    = Ret true w'}).
  { eexists. vm_compute. reflexivity. }
  destruct D as [w' E]. exists w'. split; [exact E|].
  destruct (proj1 (entry_points_keep_their_fields (config false 2) _ _ _) E)
    as (A & _ & B).
  split; [exact A|]. apply B. reflexivity.
Defined.

(* ===================================================================== *)
(** * Further properties: degenerate configurations *)
(* ===================================================================== *)

(** X15.  With [num_keys_] zero and at least one set, both overloads of
    [DoInsert] reach [rand_->Next() % num_keys_] in the first turn of
    their loop, before any call to the store: a division by zero. *)
Theorem zero_keys_divide_by_zero
        (cfg : Config) (use_txn is_optimistic : bool) (w : World) :
  num_keys_ cfg = 0 -> 0 < num_sets_ cfg ->
  DoInsert cfg use_txn is_optimistic w = Stop DivisionByZero /\
  DoInsert_TO cfg use_txn w = Stop DivisionByZero.
Proof.
  intros Hk Hs.
  assert (Hne : forall sv, Permutation sv (iota (num_sets_ cfg)) ->
                           exists set_i rest, sv = set_i :: rest).
  { intros sv P. destruct (perm_iota_facts _ _ P) as (_ & L & _).
    destruct sv as [|set_i rest]; [cbn in L; lia|eauto]. }
  split.
  - unfold DoInsert. apply bind_stop.
    unfold insert_phase. rewrite (bind_eq _ _ _ _ _ (Next_eq w)).
    destruct (std_shuffle_iota (num_sets_ cfg)
                (set_rand (snd (pop (rand_ w))) w)) as (sv & w2 & E & _ & P).
    rewrite (bind_eq _ _ _ _ _ E).
    destruct (Hne sv P) as (set_i & rest & ->).
    cbn [insert_loop]. rewrite (bind_eq _ _ _ _ _ (Next_eq w2)).
    apply bind_stop. unfold umod. now rewrite Hk.
  - unfold DoInsert_TO. apply bind_stop.
    unfold insert_phase_TO. rewrite (bind_eq _ _ _ _ _ (Next_eq w)).
    destruct (random_shuffle_iota (num_sets_ cfg)
                (set_rand (snd (pop (rand_ w))) w)) as (sv & w2 & E & _ & P).
    rewrite (bind_eq _ _ _ _ _ E).
    destruct (Hne sv P) as (set_i & rest & ->).
    cbn [insert_loop_TO]. rewrite (bind_eq _ _ _ _ _ (Next_eq w2)).
    apply bind_stop. unfold umod. now rewrite Hk.
Qed.

Lemma zero_keys_divide_by_zero_witness :
  DoInsert (mkConfig false 0 2 0 0 0 10) true false rolls_back
  = Stop DivisionByZero /\
  DoInsert_TO (mkConfig false 0 2 0 0 0 10) true rolls_back
  = Stop DivisionByZero.
Proof.
  apply (zero_keys_divide_by_zero (mkConfig false 0 2 0 0 0 10));
    reflexivity.
Defined.

(** X16.  With [num_sets_] zero, the code of [DoWriteRandom] after the
    generator, [DoWriteRandom_body], given any generator, divides by zero
    at [rand_->Next() % num_sets_] (line 267; the function as written
    does not get past its generator), while [DoInsert] has no set to
    visit:
    on a store that answers, with nothing pending, it ends an empty
    transaction (or writes an empty batch), counts a success and returns
    [true], and the tables are as they were. *)
Theorem zero_sets_is_an_empty_transaction (cfg : Config) :
  num_sets_ cfg = 0 ->
  (forall num_handles gen w,
      DoWriteRandom_body cfg num_handles gen w = Stop DivisionByZero) /\
  (forall use_txn is_optimistic w,
      faults (db w) = no_faults -> pending (db w) = [] ->
      exists w',
        DoInsert cfg use_txn is_optimistic w = Ret true w' /\
        counted true w w' /\ table (db w') = table (db w)).
Proof.
  intros Hs. split.
  - intros h gen w. unfold DoWriteRandom_body. apply bind_stop.
    unfold choose_sets. rewrite (bind_eq _ _ _ _ _ (Next_eq w)).
    apply bind_stop. unfold umod. now rewrite Hs.
  - intros use_txn is_optimistic w Hf Hp.
    assert (Hphase : insert_phase cfg use_txn is_optimistic w
                     = Ret (Status.OK, false, [])
                           (set_rand (snd (pop (rand_ w))) w)).
    { unfold insert_phase. rewrite (bind_eq _ _ _ _ _ (Next_eq w)).
      rewrite Hs. reflexivity. }
    unfold DoInsert. rewrite (bind_eq _ _ _ _ _ Hphase). cbv beta iota.
    set (w1 := set_rand (snd (pop (rand_ w))) w).
    destruct (finish_ideal cfg use_txn is_optimistic Status.OK false [] w1
                (table (db w)) (families (db w)) eq_refl Hf)
      as (s' & w2 & E & Hok & _ & _ & Ht).
    { cbn [db w1 set_rand]. rewrite Hp. now destruct use_txn. }
    rewrite (bind_eq _ _ _ _ _ E). cbv beta iota.
    rewrite (bind_eq _ _ _ _ _ (tally_returns s' w2)). unfold ret.
    pose proof (finish_returns cfg _ _ _ _ _ _ _ _ _ E) as (S2 & _).
    eexists. split; [reflexivity|].
    rewrite Hok. unfold counted. world_simpl. rewrite S2.
    split; [split; reflexivity|].
    destruct Ht as [(Ht & _)|(Ht & _)]; exact Ht.
Qed.

Lemma zero_sets_is_an_empty_transaction_witness :
  DoWriteRandom_body (config false 0) 0 some_generator rolls_back
  = Stop DivisionByZero /\
  exists w',
    DoInsert (config false 0) true false rolls_back = Ret true w' /\
    table (db w') = [].
Proof.
  destruct (zero_sets_is_an_empty_transaction (config false 0) eq_refl)
    as (A & B).
  split; [apply A|].
  destruct (B true false rolls_back eq_refl eq_refl) as (w' & E & _ & T).
  exists w'. split; [exact E|exact T].
Defined.

(* ===================================================================== *)
(** * Further properties: one turn of [DoWriteRandom] *)
(* ===================================================================== *)

Section Turns.

Variable cfg : Config.

(** The loop of lines 281-283 divides by ten [conflict_level_] times. *)
Lemma divide_by_ten_pow (n : nat) :
  forall k, divide_by_ten n k = k / 10 ^ N.of_nat n.
Proof.
  induction n as [|n IH]; intros k.
  - cbn. now rewrite N.div_1_r.
  - cbn [divide_by_ten]. rewrite IH, Nat2N.inj_succ, N.pow_succ_r'.
    apply N.Div0.div_div.
Qed.

Lemma txn_get_calls (fu : bool) (sn : option Snapshot) (cf : option nat)
      (k : string) (d : DB) (r : Status * string) (d' : DB) :
  txn_get fu sn cf k d = (r, d') ->
  calls d' = (OpGet fu cf k, fst r) :: calls d.
Proof.
  unfold txn_get. destruct (next_fault _) as [flt q].
  intros [= <- <-]. reflexivity.
Qed.

Lemma txn_put_calls (cf : option nat) (k v : string) (d : DB) (s : Status)
      (d' : DB) :
  txn_put cf k v d = (s, d') -> calls d' = (OpPut cf k v, s) :: calls d.
Proof.
  unfold txn_put. destruct (next_fault _) as [[flt|] q];
    intros [= <- <-]; reflexivity.
Qed.

Lemma txn_delete_calls (cf : option nat) (k : string) (d : DB) (s : Status)
      (d' : DB) :
  txn_delete cf k d = (s, d') -> calls d' = (OpDelete cf k, s) :: calls d.
Proof.
  unfold txn_delete. destruct (next_fault _) as [[flt|] q];
    intros [= <- <-]; reflexivity.
Qed.

(** The key and the column family of a turn, from the second draw [r]. *)
Definition turn_key (r : N) : N :=
  divide_by_ten (Z.to_nat (conflict_level_ cfg)) (r mod num_keys_ cfg).

Definition turn_handle (num_handles : nat) (r : N) : option nat :=
  match num_handles with
  | O => None
  | _ => Some (N.to_nat (turn_key r mod N.of_nat num_handles))
  end.

(** The one call a turn makes, from its two draws: the first, modulo
    100, chooses among [Get], [Delete] and [Put] (lines 310, 324, 332),
    the second gives the key and the column family. *)
Definition turn_call (num_handles : nat) (set_i : N) (r1 r2 : N) (op : Op)
  : Prop :=
  let rand_value := Z.of_N (r1 mod 100) in
  let key := (prefix_buf set_i ++ ToString (turn_key r2))%string in
  let cf := turn_handle num_handles r2 in
  if (rand_value <? readpercent_ cfg)%Z then op = OpGet false cf key
  else if (rand_value <? readpercent_ cfg + deletepercent_ cfg)%Z
       then op = OpDelete cf key
       else exists v, op = OpPut cf key v.

Lemma write_turn_calls (h : nat) (set_i : N) (t : Turn) (w : World)
      (leave : bool) (t' : Turn) (w' : World) :
  write_turn cfg h set_i t w = Ret (leave, t') w' ->
  num_keys_ cfg <> 0 /\
  exists op st,
    calls (db w') = (op, st) :: calls (db w) /\
    turn_call h set_i (first_draw w) (second_draw w) op.
Proof.
  intros H. unfold write_turn in H.
  rewrite (bind_eq _ _ _ _ _ (Next_eq w)) in H.
  rewrite (bind_eq _ _ _ _ _ (Next_eq _)) in H.
  cbn [rand_ set_rand] in H.
  fold (first_draw w) in H. fold (second_draw w) in H.
  set (r := second_draw w) in *.
  unfold umod in H at 1.
  destruct (N.eqb_spec (num_keys_ cfg) 0) as [E|E];
    [discriminate H|].
  split; [exact E|].
  unfold ret in H at 1. unfold bind in H at 1.
  fold (turn_key r) in H.
  change (match h with
          | O => None
          | S _ => Some (N.to_nat (turn_key r mod N.of_nat h))
          end) with (turn_handle h r) in H.
  unfold end_of_turn, Generate in H.
  run_cases H; close_run H; world_simpl;
    repeat match goal with
           | E : txn_get _ _ _ _ _ = _ |- _ => apply txn_get_calls in E
           | E : txn_put _ _ _ _ = _ |- _ => apply txn_put_calls in E
           | E : txn_delete _ _ _ = _ |- _ => apply txn_delete_calls in E
           end;
    world_simpl;
    do 2 eexists; (split; [eassumption|]);
    unfold turn_call; cbv zeta;
    repeat match goal with
           | E : (_ <? _)%Z = _ |- _ => rewrite E
           end;
    eauto.
Qed.

End Turns.

Section TurnBounds.

Variable cfg : Config.

Lemma divide_by_ten_le (n : nat) : forall k, divide_by_ten n k <= k.
Proof.
  induction n as [|n IH]; intros k; cbn [divide_by_ten]; [lia|].
  apply N.le_trans with (k / 10); [apply IH|].
  apply N.Div0.div_le_upper_bound. lia.
Qed.

Lemma turn_handle_in_range (h : nat) (r : N) :
  match turn_handle cfg h r with
  | None => h = O
  | Some i => (i < h)%nat
  end.
Proof.
  unfold turn_handle. destruct h as [|h]; [reflexivity|].
  assert (B : turn_key cfg r mod N.of_nat (S h) < N.of_nat (S h))
    by (apply N.mod_lt; lia).
  revert B. generalize (turn_key cfg r mod N.of_nat (S h)). intros m B. lia.
Qed.

End TurnBounds.

Module Scenario8.

(** A hundred keys, conflict level 1, one set. *)
Definition narrow : Config := mkConfig false 100 1 0 0 1 10.

(** Draws 50 (a put, the percentages being zero) and 37 (the key). *)
Definition one_put : World := world [50; 37] [] (store [] no_faults).

End Scenario8.

Import Scenario8.

(** X17.  One turn of the loop of [DoWriteRandom] that returns makes
    exactly one call to the store.  The first draw of the turn, modulo
    100, chooses it: a [Get] below [readpercent_], a [Delete] below
    [readpercent_ + deletepercent_], a [Put] otherwise.  Its key is the
    prefix of the set followed by the second draw of the turn modulo
    [num_keys_] divided by ten [conflict_level_] times, a number below
    [num_keys_]; with column families it goes to
    [handles[rand_key % handles.size()]], an index inside [handles], and
    without them to the default family. *)
Theorem write_turn_key_and_handle
        (cfg : Config) (num_handles : nat) (set_i : N) (t : Turn) (w : World)
        (leave : bool) (t' : Turn) (w' : World) :
  write_turn cfg num_handles set_i t w = Ret (leave, t') w' ->
  let r := second_draw w in
  (exists op st,
      calls (db w') = (op, st) :: calls (db w) /\
      turn_call cfg num_handles set_i (first_draw w) r op) /\
  turn_key cfg r
  = (r mod num_keys_ cfg) / 10 ^ N.of_nat (Z.to_nat (conflict_level_ cfg)) /\
  turn_key cfg r < num_keys_ cfg /\
  match turn_handle cfg num_handles r with
  | None => num_handles = O
  | Some i => (i < num_handles)%nat
  end.
Proof.
  intros H r. apply write_turn_calls in H.
  destruct H as (Hk & op & st & C & T).
  split; [exists op, st; split; [exact C|exact T]|].
  split; [apply divide_by_ten_pow|].
  split; [|apply turn_handle_in_range].
  unfold turn_key.
  eapply N.le_lt_trans; [apply divide_by_ten_le|].
  apply N.mod_lt. exact Hk.
Qed.

Lemma write_turn_key_and_handle_witness :
  exists t' w',
    write_turn narrow 3 0 (mkTurn Status.OK 0 0 some_generator) one_put
    = Ret (false, t') w' /\
    calls (db w') = [(OpPut (Some O) "00013" "0123456789", Status.OK)] /\
    second_draw one_put = 37 /\ turn_key narrow 37 = 3.
Proof.
  assert (D : {x : Turn * World |
                write_turn narrow 3 0 (mkTurn Status.OK 0 0 some_generator)
                           one_put = Ret (false, fst x) (snd x)}).
  { eexists (_, _). vm_compute. reflexivity. }
  destruct D as [[t' w'] E]. cbn [fst snd] in E. exists t', w'.
  split; [exact E|].
  destruct (write_turn_key_and_handle narrow 3 0 _ one_put false t' w' E)
    as ((op & st & C & _) & _).
  vm_compute in E. injection E as <- <-.
  repeat split; reflexivity.
Defined.

(* ===================================================================== *)
(** * Further properties: the [TOTransaction] overload keeps the balance *)
(* ===================================================================== *)

Section IdealTO.

Variable cfg : Config.
Hypothesis Hsets : num_sets_ cfg <= 9999.
Hypothesis Hkeys : 0 < num_keys_ cfg.

Let balanced_ := balanced (num_sets_ cfg) (num_keys_ cfg).

Lemma txn_set_timestamp_ideal (o : Op) (d : DB) :
  faults d = no_faults ->
  exists d',
    txn_set_timestamp o d = (Status.OK, d') /\
    table d' = table d /\ families d' = families d /\
    pending d' = pending d /\ faults d' = no_faults.
Proof.
  intros H. unfold txn_set_timestamp. rewrite H.
  cbn [f_timestamp no_faults next_fault].
  eexists. split; [reflexivity|]. repeat split.
Qed.

(** The loop of the [TOTransaction] overload on a balanced store that
    answers: one write per set, each the value read plus the
    increment. *)
Lemma insert_loop_TO_ideal (incr T : N) (t : Table) :
  balanced_ T t -> T < ULONG_MAX ->
  forall (set_vec : list N) (picks : list (N * N)) (s : Status) (ue : bool)
         (w : World),
    loop_inv cfg true t incr picks [] w ->
    ok s = true ->
    (forall x, In x set_vec -> x < num_sets_ cfg) ->
    NoDup (map fst picks ++ set_vec) ->
    exists picks' s' w',
      insert_loop_TO cfg true incr set_vec s ue w = Ret (s', ue) w' /\
      ok s' = true /\
      loop_inv cfg true t incr picks' [] w' /\
      map fst picks' = map fst picks ++ set_vec /\
      families (db w') = families (db w) /\
      read_snapshot w' = read_snapshot w.
Proof.
  intros Hb HT.
  induction set_vec as [|set_i rest IH]; intros picks s ue w Hinv Hs Hin Hnd.
  - exists picks, s, w. rewrite app_nil_r.
    split; [reflexivity|]. split; [exact Hs|]. split; [exact Hinv|].
    repeat split; auto.
  - cbn [insert_loop_TO].
    rewrite (bind_eq _ _ _ _ _ (Next_eq w)).
    set (wa := set_rand (snd (pop (rand_ w))) w).
    rewrite (bind_eq _ _ _ _ _ (umod_eq cfg Hsets Hkeys _ wa)).
    set (rand_key := fst (pop (rand_ w)) mod num_keys_ cfg).
    assert (Hkey : rand_key < num_keys_ cfg) by (apply N.mod_lt; lia).
    unfold get_world at 1. unfold bind at 1.
    destruct Hinv as (I1 & I2 & I3 & I4 & I5).
    assert (Hset : set_i < num_sets_ cfg) by (apply Hin; now left).
    assert (Hnew : ~ In set_i (map fst picks)).
    { intros Hx. apply NoDup_remove_2 in Hnd. apply Hnd.
      apply in_or_app. now left. }
    assert (Hview : view (read_snapshot wa) None (db wa) = t).
    { subst wa. cbn [read_snapshot set_rand db].
      destruct I3 as [->|(fs & ->)]; [exact I1|reflexivity]. }
    unfold DBGet_TO.
    destruct (DBGet_ideal cfg Hsets true (read_snapshot wa) set_i rand_key
                false 0 ue wa T I2 Hset ltac:(now rewrite Hview) HT)
      as (wc & Eget & Sc & _ & _ & _).
    { intros _. subst wa. cbn [db set_rand].
      destruct I4 as (I4 & _).
      now apply (pending_of_picks cfg Hsets Hkeys t incr picks). }
    rewrite (bind_eq _ _ _ _ _ Eget). cbv beta iota.
    change (negb (ok Status.OK)) with false. cbv iota.
    rewrite Hview.
    set (key := full_key set_i rand_key).
    set (sum := ToString (add64 (numval (tget key t)) incr)).
    destruct Sc as (C1 & C2 & C3 & C4 & C5 & C6 & C7 & C8).
    assert (Hnd' : NoDup (map fst (picks ++ [(set_i, rand_key)]) ++ rest)).
    { rewrite map_app. cbn [map fst]. now rewrite <- app_assoc. }
    assert (Hr' : Forall (in_range cfg) (picks ++ [(set_i, rand_key)])).
    { apply Forall_app. split; [exact I5|]. constructor; [|constructor].
      split; assumption. }
    assert (Hin' : forall x, In x rest -> x < num_sets_ cfg).
    { intros x Hx. apply Hin. now right. }
    destruct I4 as (I4 & _).
    destruct (txn_put_ideal key sum (db wc) ltac:(now rewrite C4))
      as (d' & Eput & P1 & P2 & P3 & P4 & P5 & P6).
    rewrite (bind_eq _ _ _ _ _ (on_db_eq _ wc _ d' Eput)).
    change (IsBusy Status.OK || IsTimedOut Status.OK) with false.
    change (negb (ok Status.OK)) with false.
    cbv iota. unfold ret at 1. unfold bind at 1.
    unfold on_stats, modify. unfold bind at 1.
    match goal with
    | |- context [insert_loop_TO _ _ _ rest _ _ ?W] =>
        destruct (fun H => IH (picks ++ [(set_i, rand_key)]) Status.OK ue
                              W H eq_refl Hin' Hnd')
        as (picks' & s' & w' & E' & Hs' & Hinv' & Hm & Hfam & Hrs)
    end.
    + unfold loop_inv. world_simpl.
      rewrite P1, P3, P4, C1, C3. subst wa. cbn [db set_rand].
      repeat split; auto.
      * rewrite C7. exact I3.
      * cbn [List.rev]. rewrite I4, map_app. reflexivity.
    + exists picks', s', w'.
      split; [exact E'|]. split; [exact Hs'|]. split; [exact Hinv'|].
      split; [rewrite Hm, map_app; cbn [map fst];
              now rewrite <- app_assoc|].
      split; [rewrite Hfam; world_simpl; rewrite P2, C2; reflexivity|].
      rewrite Hrs. world_simpl. rewrite C7. reflexivity.
Qed.

End IdealTO.

Section IdealTOFinish.

Variable cfg : Config.
Hypothesis Hsets : num_sets_ cfg <= 9999.
Hypothesis Hkeys : 0 < num_keys_ cfg.

Let balanced_ := balanced (num_sets_ cfg) (num_keys_ cfg).

(** Lines 446-470 when the loop succeeded and the store answers. *)
Lemma finish_TO_ideal (s : Status) (w : World) (t' : Table)
      (fs' : list Table) :
  ok s = true ->
  faults (db w) = no_faults ->
  apply_batch (List.rev (pending (db w))) (table (db w), families (db w))
  = (t', fs') ->
  exists s' w',
    finish_TO cfg true s w = Ret s' w' /\
    ok s' = true /\
    faults (db w') = no_faults /\
    read_snapshot w' = read_snapshot w /\
    pending (db w') = [] /\
    ((table (db w') = t' /\
      exists rest, calls (db w') = (OpCommit, s') :: rest) \/
     (table (db w') = table (db w) /\
      exists rest, calls (db w') = (OpRollback, s') :: rest)).
Proof.
  intros Hs Hf Ha. unfold finish_TO. rewrite Hs.
  unfold modify at 1. unfold bind at 1.
  unfold get_world at 1. unfold bind at 1.
  set (w0 := set_txn_id (txn_id_ w + 1) w).
  destruct (txn_set_timestamp_ideal (OpSetCommitTimeStamp (clock w0)) (db w0)
              Hf) as (d1 & E1 & T1 & F1 & P1 & Q1).
  rewrite (bind_eq _ _ _ _ _ (on_db_eq _ w0 _ d1 E1)).
  set (w1 := set_db d1 w0).
  destruct (OneIn_eq 20 w1) as (b & E2).
  rewrite (bind_eq _ _ _ _ _ E2).
  set (w2 := set_rand (snd (pop (rand_ w1))) w1).
  assert (Hf2 : faults (db w2) = no_faults) by exact Q1.
  destruct b; cbn [negb].
  - destruct (txn_rollback_ideal (db w2) Hf2)
      as (d' & E & R1 & R2 & R3 & R4 & _).
    assert (E' : bind (on_db txn_rollback)
                      (fun s' => bind (assert_ cfg (ret (ok s')))
                                      (fun _ => ret s')) w2
                 = Ret Status.OK (set_db d' w2)).
    { rewrite (bind_eq _ _ _ _ _ (on_db_eq _ w2 _ d' E)).
      change (ok Status.OK) with true.
      now rewrite (bind_eq _ _ _ _ _ (assert_true cfg _)). }
    rewrite (bind_eq _ _ _ _ _ E').
    change (ok Status.OK) with true.
    rewrite (bind_eq _ _ _ _ _ (assert_true cfg _)).
    pose proof (txn_rollback_calls _ _ _ E) as Cl.
    exists Status.OK. eexists. split; [reflexivity|].
    subst w2 w1 w0. world_simpl. cbn [db set_db set_rand set_txn_id] in *.
    split; [reflexivity|]. split; [assumption|]. split; [reflexivity|].
    split; [assumption|].
    right. split; [congruence|]. eexists. exact Cl.
  - assert (Ha2 : apply_batch (List.rev (pending (db w2)))
                              (table (db w2), families (db w2)) = (t', fs')).
    { subst w2 w1 w0. cbn [db set_rand set_db set_txn_id].
      now rewrite T1, F1, P1. }
    destruct (txn_commit_ideal (db w2) t' fs' Hf2 Ha2)
      as (d' & E & R1 & R2 & R3 & R4 & _).
    rewrite (bind_eq _ _ _ _ _ (on_db_eq _ w2 _ d' E)).
    change (ok Status.OK) with true.
    rewrite (bind_eq _ _ _ _ _ (assert_true cfg _)).
    pose proof (txn_commit_calls _ _ _ E) as Cl.
    exists Status.OK. eexists. split; [reflexivity|].
    subst w2 w1 w0. world_simpl.
    split; [reflexivity|]. split; [assumption|]. split; [reflexivity|].
    split; [assumption|].
    left. split; [assumption|]. eexists. exact Cl.
Qed.

(** One [DoInsert] of the [TOTransaction] overload on a balanced store
    that answers. *)
Lemma DoInsert_TO_ideal (T : N) (w : World) :
  balanced_ T (table (db w)) ->
  T + 100 < ULONG_MAX ->
  faults (db w) = no_faults ->
  read_snapshot w = None ->
  pending (db w) = [] ->
  exists w' T',
    DoInsert_TO cfg true w = Ret true w' /\
    balanced_ T' (table (db w')) /\ T <= T' <= T + 100 /\
    faults (db w') = no_faults /\ read_snapshot w' = None /\
    pending (db w') = [] /\
    settled T T' (first_draw w mod 100 + 1) w w'.
Proof.
  intros Hb HT Hf Hsn Hp.
  assert (Ht0 : table (db w) = table (db w)) by reflexivity.
  set (t := table (db w)) in Hb, Ht0 |- *.
  unfold first_draw.
  set (wa := set_rand (snd (pop (rand_ w))) w).
  set (r := fst (pop (rand_ w))).
  assert (Hr : r mod 100 < 100) by (apply N.mod_lt; lia).
  assert (Hincr : add64 (r mod 100) 1 = r mod 100 + 1).
  { unfold add64, u64. apply N.mod_small. revert Hr.
    generalize (r mod 100). intros m Hm. lia. }
  set (incr := r mod 100 + 1).
  assert (Hi : 1 <= incr /\ incr <= 100).
  { unfold incr. revert Hr. generalize (r mod 100). intros m Hm. lia. }
  destruct Hi as (Hi1 & Hi2).
  assert (HTi : T + incr < ULONG_MAX) by lia.
  assert (HT0 : T < ULONG_MAX) by lia.
  destruct (random_shuffle_iota (num_sets_ cfg) wa)
    as (sv & wb & E1 & D1 & P1).
  pose proof (draws_only_frame _ _ D1) as (_ & _ & G & G' & _).
  assert (Hinv : loop_inv cfg true t incr [] [] wb).
  { unfold loop_inv. rewrite G, G'. subst wa. world_simpl.
    split; [reflexivity|]. split; [exact Hf|]. split; [now left|].
    split; [|constructor]. rewrite Hp. now split. }
  destruct (insert_loop_TO_ideal cfg Hsets Hkeys incr T t
              Hb HT0 sv [] Status.OK false wb Hinv eq_refl)
    as (picks & s1 & wc & E2 & Hs1 & Hinv2 & Hm & Hfam & Hrs).
  { intros x Hx. apply iota_In. eapply Permutation_in; eassumption. }
  { cbn. eapply Permutation_NoDup; [apply Permutation_sym; exact P1|].
    apply iota_NoDup. }
  assert (Ephase : insert_phase_TO cfg true w = Ret (s1, false) wc).
  { unfold insert_phase_TO. rewrite (bind_eq _ _ _ _ _ (Next_eq w)).
    fold r. rewrite Hincr. fold incr. fold wa.
    now rewrite (bind_eq _ _ _ _ _ E1). }
  clearbody incr.
  destruct Hinv2 as (J1 & J2 & J3 & J4 & J5).
  cbn [map fst List.app] in Hm.
  assert (Hnd : NoDup (map fst picks)).
  { rewrite Hm. eapply Permutation_NoDup; [apply Permutation_sym; exact P1|].
    apply iota_NoDup. }
  destruct (apply_picks _ _ Hsets T incr t (families (db wc)) Hb
              HTi Hi1 picks Hnd J5) as (tc & Ea & Hpart).
  assert (Hbal : balanced_ (T + incr) tc).
  { eapply partly_all; [exact Hpart|]. intros s Hs. rewrite Hm.
    eapply Permutation_in; [apply Permutation_sym; exact P1|].
    now apply iota_In. }
  assert (Ha : apply_batch (List.rev (pending (db wc)))
                           (table (db wc), families (db wc))
               = (tc, families (db wc))).
  { rewrite J1. destruct J4 as (-> & _). exact Ea. }
  destruct (finish_TO_ideal s1 wc tc _ Hs1 J2 Ha)
    as (s2 & wd & E3 & Hs2 & F1 & F2 & F4 & F3).
  assert (Erun : DoInsert_TO cfg true w =
                 Ret true
                     (set_last_status s2
                        (set_stats ((if ok s2 then add_success
                                     else add_failure) (stats wd)) wd))).
  { unfold DoInsert_TO. rewrite (bind_eq _ _ _ _ _ Ephase). cbv beta iota.
    rewrite (bind_eq _ _ _ _ _ E3).
    now rewrite (bind_eq _ _ _ _ _ (tally_returns s2 wd)). }
  assert (Hsnap : read_snapshot wd = None).
  { rewrite F2, Hrs, G'. subst wa. exact Hsn. }
  destruct F3 as [(F3 & rest & Cl)|(F3 & rest & Cl)].
  - eexists. exists (T + incr). split; [exact Erun|]. world_simpl.
    rewrite F3. split; [exact Hbal|]. split; [lia|].
    split; [exact F1|]. split; [exact Hsnap|]. split; [exact F4|].
    exists OpCommit, s2, rest. world_simpl.
    split; [exact Cl|]. split; [exact Hs2|]. right.
    split; [now left|reflexivity].
  - eexists. exists T. split; [exact Erun|]. world_simpl.
    rewrite F3, J1. split; [exact Hb|]. split; [lia|].
    split; [exact F1|]. split; [exact Hsnap|]. split; [exact F4|].
    exists OpRollback, s2, rest. world_simpl.
    split; [exact Cl|]. split; [exact Hs2|]. left.
    split; [reflexivity|]. split; [reflexivity|].
    rewrite F3, J1. symmetry. exact Ht0.
Qed.

End IdealTOFinish.

Module Scenario9.

(** Two sets that both add up to 5, and draws for one transaction: the
    increment 5, the order, two keys, and no rollback. *)
Definition level : World :=
  world [4; 3; 6; 1; 1] [0]
        (store [("00010", "5"); ("00020", "5")] no_faults).

End Scenario9.

Import Scenario9.

(** X18.  From any state in which the sets are balanced (the table is in
    key order, holds only keys of the sets with values between 1 and the
    common total [T], and every set adds up to [T]), on a store that
    answers and with no snapshot set: each of the four entry points that
    run [DoInsert], the [TOTransaction] one included, returns [true] and
    leaves a state of the same kind.  Its last call answered OK and
    tells the new total: after [Rollback] (the deliberate one) the table
    is as it was and the total is [T] again; after [Commit], or [Write]
    without a transaction, the total is [T] plus the increment of the
    run, [rand_->Next() % 100 + 1] of its first draw (of its second draw
    in [TransactionDBInsert], which draws for the snapshot first). *)
Theorem every_insert_entry_point_keeps_the_balance
        (cfg : Config) (T : N) (w : World) :
  num_sets_ cfg <= 9999 -> 0 < num_keys_ cfg ->
  good cfg T w -> T + 100 < ULONG_MAX ->
  let keeps (run : M bool) (draw : N) :=
    exists w' T',
      run w = Ret true w' /\ good cfg T' w' /\ T <= T' <= T + 100 /\
      settled T T' (draw mod 100 + 1) w w' in
  keeps (TransactionDBInsert cfg) (second_draw w) /\
  keeps (OptimisticTransactionDBInsert cfg) (first_draw w) /\
  keeps (DBInsert cfg) (first_draw w) /\
  keeps (TOTransactionDBInsert cfg) (first_draw w).
Proof.
  intros Hsets Hkeys Hg HT keeps. subst keeps. cbv beta.
  split; [exact (run_entry_ideal cfg Hsets Hkeys ViaTransactionDB T w Hg HT)|].
  split; [exact (run_entry_ideal cfg Hsets Hkeys ViaOptimisticTransactionDB
                                 T w Hg HT)|].
  split; [exact (run_entry_ideal cfg Hsets Hkeys ViaDB T w Hg HT)|].
  destruct Hg as (Hb & Hf & Hsn).
  unfold TOTransactionDBInsert.
  unfold on_db_ at 1. unfold modify at 1. unfold bind at 1.
  set (w0 := set_db (begin_transaction (db w)) w).
  assert (Hf0 : faults (db w0) = no_faults) by exact Hf.
  destruct (txn_set_timestamp_ideal (OpSetReadTimeStamp (2 ^ 64 - 1)) (db w0)
              Hf0) as (d1 & E1 & T1 & F1 & P1 & Q1).
  rewrite (bind_eq _ _ _ _ _ (on_db_eq _ w0 _ d1 E1)).
  change (ok Status.OK) with true.
  rewrite (bind_eq _ _ _ _ _ (assert_true cfg _)).
  destruct (DoInsert_TO_ideal cfg Hsets Hkeys T (set_db d1 w0))
    as (w' & T' & E & B1 & B2 & B3 & B4 & _ & B6).
  - cbn [db set_db]. rewrite T1. exact Hb.
  - exact HT.
  - exact Q1.
  - exact Hsn.
  - cbn [db set_db]. rewrite P1. reflexivity.
  - exists w', T'. split; [exact E|]. split; [|split; [exact B2|]].
    + split; [exact B1|]. split; assumption.
    + eapply settled_between; [exact B6| |reflexivity|reflexivity].
      cbn [db set_db]. exact T1.
Qed.

Lemma every_insert_entry_point_keeps_the_balance_witness :
  first_draw level = 4 /\
  exists w',
    TOTransactionDBInsert (config false 2) level = Ret true w' /\
    good (config false 2) 10 w'.
Proof.
  assert (H1 : num_sets_ (config false 2) <= 9999) by discriminate.
  assert (H2 : 0 < num_keys_ (config false 2)) by reflexivity.
  assert (H3 : good (config false 2) 5 level).
  { split; [|split; reflexivity]. split; [|split].
    - repeat constructor.
    - repeat constructor.
      + exists 0, 0, 5. repeat split; discriminate.
      + exists 1, 0, 5. repeat split; discriminate.
    - intros s Hs. change (num_sets_ (config false 2)) with 2 in Hs.
      assert (Hc : s = 0 \/ s = 1) by lia.
      destruct Hc as [->| ->]; reflexivity. }
  assert (H4 : 5 + 100 < ULONG_MAX) by reflexivity.
  split; [reflexivity|].
  destruct (proj2 (proj2 (proj2
              (every_insert_entry_point_keeps_the_balance
                 (config false 2) 5 level H1 H2 H3 H4))))
    as (w' & T' & E & G & _ & (op & st & rest & C & _ & S)).
  exists w'. split; [exact E|].
  destruct S as [(Hop & _)|(_ & HT')].
  - exfalso. subst op. vm_compute in E. injection E as <-.
    vm_compute in C. discriminate C.
  - change (first_draw level mod 100 + 1) with 5 in HT'.
    change (5 + 5) with 10 in HT'. rewrite <- HT'. exact G.
Defined.

(* ===================================================================== *)
(** * Further properties: [DoWriteRandom] on a store that answers *)
(* ===================================================================== *)

Section AnsweringStore.

Lemma txn_get_answers (fu : bool) (sn : option Snapshot) (cf : option nat)
      (k : string) (d : DB) (s : Status) (v : string) (d' : DB) :
  faults d = no_faults ->
  txn_get fu sn cf k d = ((s, v), d') ->
  (ok s = true \/ (ok s = false /\ IsNotFound s = true)) /\
  faults d' = no_faults.
Proof.
  intros Hf. unfold txn_get. rewrite Hf. cbn [f_get no_faults next_fault].
  destruct (pending_get cf k _) as [[x|]|]; [| |destruct (tget k _)];
    cbn [answer fst]; intros [= <- <- <-]; split; auto.
Qed.

Lemma txn_put_answers (cf : option nat) (k v : string) (d : DB) (s : Status)
      (d' : DB) :
  faults d = no_faults ->
  txn_put cf k v d = (s, d') -> s = Status.OK /\ faults d' = no_faults.
Proof.
  intros Hf. unfold txn_put. rewrite Hf. cbn [f_put no_faults next_fault].
  intros [= <- <-]. split; reflexivity.
Qed.

Lemma txn_delete_answers (cf : option nat) (k : string) (d : DB) (s : Status)
      (d' : DB) :
  faults d = no_faults ->
  txn_delete cf k d = (s, d') -> s = Status.OK /\ faults d' = no_faults.
Proof.
  intros Hf. unfold txn_delete. rewrite Hf.
  cbn [f_delete no_faults next_fault].
  intros [= <- <-]. split; reflexivity.
Qed.

End AnsweringStore.

Section WriteRandomCommits.

Variable cfg : Config.

(** What a turn keeps when the store answers: a status that is OK, a
    store that still answers, and a generator over the same data whose
    position is inside it. *)
Definition turn_fine (data : string) (t : Turn) (w : World) : Prop :=
  ok (t_status t) = true /\ faults (db w) = no_faults /\
  data_ (t_gen t) = data /\ pos_ (t_gen t) <= strlen data.

Lemma write_turn_fine (h : nat) (set_i : N) (data : string) (t : Turn)
      (w : World) :
  0 < num_keys_ cfg ->
  ndebug cfg = true \/ set_i < 9999 ->
  value_size_ cfg <= strlen data -> strlen data < 2 ^ 31 ->
  turn_fine data t w ->
  exists leave t' w',
    write_turn cfg h set_i t w = Ret (leave, t') w' /\ turn_fine data t' w'.
Proof.
  intros Hkeys Hset Hlen Hsize (Hok & Hf & Hd & Hp).
  destruct (Generate_fits cfg (value_size_ cfg) (t_gen t))
    as (value & g' & HG & Hd' & Hp');
    [now rewrite Hd|now rewrite Hd|now rewrite Hd|].
  rewrite Hd in Hp'. rewrite Hd in Hd'.
  destruct (write_turn cfg h set_i t w) as [[leave t'] w'|f] eqn:H.
  - exists leave, t', w'. split; [reflexivity|].
    unfold write_turn, end_of_turn in H.
    run_cases H;
      repeat match goal with
             | G : Generate _ _ _ _ = _ |- _ =>
                 rewrite HG in G; inversion G; subst; clear G
             end;
      close_run H; unfold turn_fine; world_simpl;
      cbn [t_status t_gen data_ pos_ db set_db] in *;
      repeat match goal with
             | E : txn_get _ _ _ _ _ = _ |- _ =>
                 apply txn_get_answers in E; [|assumption]
             | E : txn_put _ _ _ _ = _ |- _ =>
                 apply txn_put_answers in E; [|assumption]
             | E : txn_delete _ _ _ = _ |- _ =>
                 apply txn_delete_answers in E; [|assumption]
             end;
      repeat match goal with
             | E : _ /\ _ |- _ => destruct E
             | E : _ \/ _ |- _ => destruct E
             end;
      subst; cbn [negb andb] in *;
      try (repeat split; solve [assumption | reflexivity | congruence]);
      try congruence.
    all: match goal with
         | E1 : ok ?x = false, E2 : IsNotFound ?x = true,
           E3 : negb (ok ?x) && negb (IsNotFound ?x) = true |- _ =>
             rewrite E1, E2 in E3; discriminate E3
         end.
  - exfalso. unfold write_turn, end_of_turn in H.
    run_cases H;
      repeat match goal with
             | G : Generate _ _ _ _ = _ |- _ =>
                 rewrite HG in G; inversion G; subst; clear G
             end;
      try close_run H.
    all: try match goal with
             | E : (_ =? 0) = true |- _ => apply N.eqb_eq in E; lia
             end.
    all: destruct Hset as [Hset|Hset]; [discriminate Hset|];
      match goal with
      | E : (_ <=? _) = false |- _ => apply N.leb_gt in E; lia
      end.
Qed.

Lemma write_loop_fine (h : nat) (data : string) (set_vec : list N) :
  0 < num_keys_ cfg ->
  (forall s, In s set_vec -> ndebug cfg = true \/ s < 9999) ->
  value_size_ cfg <= strlen data -> strlen data < 2 ^ 31 ->
  forall (t : Turn) (w : World),
    turn_fine data t w ->
    exists t' w',
      write_loop cfg h set_vec t w = Ret t' w' /\ turn_fine data t' w'.
Proof.
  intros Hkeys Hset Hlen Hsize.
  induction set_vec as [|set_i rest IH]; intros t w Hfine.
  - exists t, w. split; [reflexivity|exact Hfine].
  - cbn [write_loop].
    destruct (write_turn_fine h set_i data t w Hkeys
                (Hset set_i (or_introl eq_refl)) Hlen Hsize Hfine)
      as (leave & t1 & w1 & E & F1).
    rewrite (bind_eq _ _ _ _ _ E). cbv beta iota.
    destruct leave.
    + exists t1, w1. split; [reflexivity|exact F1].
    + apply IH; [|exact F1]. intros s Hs. apply Hset. now right.
Qed.

End WriteRandomCommits.

Section WriteRandomEnds.

Variable cfg : Config.

Lemma write_finish_fine (data : string) (t : Turn) (w : World) :
  turn_fine data t w -> exists w', write_finish cfg t w = Ret true w'.
Proof.
  intros (Hok & Hf & _). unfold write_finish. cbv zeta. rewrite Hok.
  unfold on_stats, modify, on_db, assert_, bind, ret.
  cbn [db set_stats set_txn_id].
  unfold txn_commit. rewrite Hf. cbn [f_commit no_faults next_fault].
  destruct (apply_batch _ _) as [tb fs].
  change (ok Status.OK) with true.
  destruct (ndebug cfg); eexists; reflexivity.
Qed.

Lemma choose_sets_in_range (w : World) :
  0 < num_sets_ cfg ->
  exists set_vec w',
    choose_sets cfg w = Ret set_vec w' /\ draws_only w w' /\
    forall s, In s set_vec -> s < num_sets_ cfg.
Proof.
  intros Hs. unfold choose_sets.
  rewrite (bind_eq _ _ _ _ _ (Next_eq w)).
  set (wa := set_rand (snd (pop (rand_ w))) w).
  set (r := fst (pop (rand_ w))).
  assert (Hm : r mod num_sets_ cfg < num_sets_ cfg) by (apply N.mod_lt; lia).
  assert (Hu : umod r (num_sets_ cfg) wa = Ret (r mod num_sets_ cfg) wa).
  { unfold umod. destruct (N.eqb_spec (num_sets_ cfg) 0); [lia|reflexivity]. }
  rewrite (bind_eq _ _ _ _ _ Hu). cbv zeta.
  destruct (random_shuffle_iota (u16 (r mod num_sets_ cfg + 1)) wa)
    as (sv & w' & E & D & P).
  exists sv, w'. split; [exact E|]. split.
  - eapply draws_only_trans; [|exact D]. unfold draws_only, wa.
    now destruct w.
  - intros s Hin. apply (Permutation_in _ P), iota_In in Hin.
    assert (Hle : u16 (r mod num_sets_ cfg + 1) <= r mod num_sets_ cfg + 1).
    { unfold u16. apply N.Div0.mod_le. }
    revert Hin Hle Hm. generalize (u16 (r mod num_sets_ cfg + 1)).
    generalize (r mod num_sets_ cfg). intros a b H1 H2 H3. lia.
Qed.

End WriteRandomEnds.

Module Scenario10.

(** [DoWriteRandom] past the generator: one set, a [Put], a store that
    answers. *)
Definition plain_put : World := world [0; 50; 3] [] (store [] no_faults).

End Scenario10.

Import Scenario10.

(** X19.  The code of [DoWriteRandom] after the generator, on a store
    that answers every call, with at least one set and one key, no more
    than 9999 sets, and a generator whose data is at least [value_size_]
    long (and shorter than 2^31) with its position inside the data:
    whatever it draws, reads that find nothing and a loop left on the
    budget of 15,000,000 bytes included, it commits, counts a success
    and returns [true]. *)
Theorem write_random_commits_when_the_store_answers
        (cfg : Config) (num_handles : nat) (gen : RandomGenerator)
        (w : World) :
  0 < num_sets_ cfg -> 0 < num_keys_ cfg ->
  ndebug cfg = true \/ num_sets_ cfg <= 9999 ->
  value_size_ cfg <= strlen (data_ gen) ->
  pos_ gen <= strlen (data_ gen) ->
  strlen (data_ gen) < 2 ^ 31 ->
  faults (db w) = no_faults ->
  exists w',
    DoWriteRandom_body cfg num_handles gen w = Ret true w' /\
    counted true w w' /\
    ok (last_status_ w') = true /\
    exists rest, calls (db w') = (OpCommit, last_status_ w') :: rest.
Proof.
  intros Hsets Hkeys Hbound Hlen Hpos Hsize Hf.
  assert (Hrun : exists w',
             DoWriteRandom_body cfg num_handles gen w = Ret true w').
  { unfold DoWriteRandom_body.
    destruct (choose_sets_in_range cfg w Hsets) as (sv & w1 & E1 & D1 & Hin).
    rewrite (bind_eq _ _ _ _ _ E1).
    apply draws_only_frame in D1. destruct D1 as (_ & _ & D1 & _).
    destruct (write_loop_fine cfg num_handles (data_ gen) sv Hkeys)
      with (t := mkTurn Status.OK 0 0 gen) (w := w1)
      as (t' & w2 & E2 & F2).
    - intros s Hs. destruct Hbound as [Hb|Hb]; [now left|right].
      specialize (Hin s Hs). lia.
    - exact Hlen.
    - exact Hsize.
    - split; [reflexivity|]. split; [now rewrite D1|].
      split; [reflexivity|exact Hpos].
    - rewrite (bind_eq _ _ _ _ _ E2).
      exact (write_finish_fine cfg (data_ gen) t' w2 F2). }
  destruct Hrun as (w' & E). exists w'. split; [exact E|].
  pose proof (DoWriteRandom_body_returns cfg _ _ _ _ _ E) as R.
  pose proof (DoWriteRandom_body_effect cfg _ _ _ _ _ E)
    as ((op & rest & C & ->) & Hok & _).
  destruct R as [(_ & A & B & _)|(D & _)]; [|discriminate D].
  split; [split; assumption|]. split; [now apply Hok|].
  now exists rest.
Qed.

Lemma write_random_commits_when_the_store_answers_witness :
  exists w',
    DoWriteRandom_body (config false 1) 0 some_generator plain_put
    = Ret true w' /\
    counted true plain_put w'.
Proof.
  assert (H1 : 0 < num_sets_ (config false 1)) by reflexivity.
  assert (H2 : 0 < num_keys_ (config false 1)) by reflexivity.
  assert (H3 : ndebug (config false 1) = true \/
               num_sets_ (config false 1) <= 9999) by (right; discriminate).
  assert (H4 : value_size_ (config false 1) <= strlen (data_ some_generator))
    by discriminate.
  assert (H5 : pos_ some_generator <= strlen (data_ some_generator))
    by discriminate.
  assert (H6 : strlen (data_ some_generator) < 2 ^ 31) by reflexivity.
  assert (H7 : faults (db plain_put) = no_faults) by reflexivity.
  destruct (write_random_commits_when_the_store_answers
              (config false 1) 0 some_generator plain_put
              H1 H2 H3 H4 H5 H6 H7)
    as (w' & E & C & _).
  exists w'. split; [exact E|exact C].
Defined.

(* ===================================================================== *)
(** * Further properties: the calls [DoInsert] makes *)
(* ===================================================================== *)

(** The operations [DoInsert] uses, by kind of backend: reads, with
    [GetForUpdate] only in a transaction; [Put], [Commit] and [Rollback]
    in a transaction; [Prepare] in a transaction that is not optimistic;
    one [Write] of the batch without a transaction. *)
Definition allowed (use_txn is_optimistic : bool) (op : Op) : bool :=
  match op with
  | OpGet for_update None _ => use_txn || negb for_update
  | OpPut None _ _ => use_txn
  | OpPrepare => use_txn && negb is_optimistic
  | OpCommit | OpRollback => use_txn
  | OpWrite _ => negb use_txn
  | _ => false
  end.

(** The calls from one state of the store to a later one. *)
Definition extends (use_txn is_optimistic : bool) (d d' : DB) : Prop :=
  exists new,
    calls d' = new ++ calls d /\
    Forall (fun c => allowed use_txn is_optimistic (fst c) = true) new.

Section Calls.

Lemma extends_refl (u o : bool) (d : DB) : extends u o d d.
Proof. exists []. split; [reflexivity|constructor]. Qed.

Lemma extends_trans (u o : bool) (d1 d2 d3 : DB) :
  extends u o d1 d2 -> extends u o d2 d3 -> extends u o d1 d3.
Proof.
  intros (n1 & E1 & F1) (n2 & E2 & F2). exists (n2 ++ n1). split.
  - rewrite E2, E1. apply app_assoc.
  - apply Forall_app. now split.
Qed.

Lemma extends_one (u o : bool) (d d' : DB) (c : Op * Status) :
  calls d' = c :: calls d -> allowed u o (fst c) = true -> extends u o d d'.
Proof.
  intros E A. exists [c]. split; [exact E|]. now repeat constructor.
Qed.

Lemma db_get_extends (u o : bool) (sn : option Snapshot) (k : string)
      (d : DB) (r : Status * string) (d' : DB) :
  db_get sn None k d = (r, d') -> extends u o d d'.
Proof.
  unfold db_get. destruct (next_fault _) as [flt q]. intros [= _ <-].
  eapply extends_one; [reflexivity|]. cbn. apply orb_true_r.
Qed.

Lemma txn_get_extends (o fu : bool) (sn : option Snapshot) (k : string)
      (d : DB) (r : Status * string) (d' : DB) :
  txn_get fu sn None k d = (r, d') -> extends true o d d'.
Proof.
  unfold txn_get. destruct (next_fault _) as [flt q]. intros [= _ <-].
  eapply extends_one; reflexivity.
Qed.

Lemma txn_put_extends (o : bool) (k v : string) (d : DB) (s : Status)
      (d' : DB) :
  txn_put None k v d = (s, d') -> extends true o d d'.
Proof.
  intros E. apply txn_put_calls in E. eapply extends_one; [exact E|].
  reflexivity.
Qed.

Lemma txn_prepare_extends (d : DB) (s : Status) (d' : DB) :
  txn_prepare d = (s, d') -> extends true false d d'.
Proof.
  intros E. apply txn_prepare_calls in E. eapply extends_one; [exact E|].
  reflexivity.
Qed.

Lemma txn_commit_extends (o : bool) (d : DB) (s : Status) (d' : DB) :
  txn_commit d = (s, d') -> extends true o d d'.
Proof.
  intros E. apply txn_commit_calls in E. eapply extends_one; [exact E|].
  reflexivity.
Qed.

Lemma txn_rollback_extends (o : bool) (d : DB) (s : Status) (d' : DB) :
  txn_rollback d = (s, d') -> extends true o d d'.
Proof.
  intros E. apply txn_rollback_calls in E. eapply extends_one; [exact E|].
  reflexivity.
Qed.

Lemma db_write_extends (o : bool) (b : list WriteOp) (d : DB) (s : Status)
      (d' : DB) :
  db_write b d = (s, d') -> extends false o d d'.
Proof.
  intros E. apply db_write_calls in E. eapply extends_one; [exact E|].
  reflexivity.
Qed.

End Calls.

Ltac call_facts :=
  lazymatch goal with
  | |- extends ?u ?o _ _ =>
      repeat match goal with
             | E : db_get _ None _ _ = _ |- _ =>
                 apply (db_get_extends u o) in E
             | E : txn_get _ _ None _ _ = _ |- _ =>
                 apply (txn_get_extends o) in E
             | E : txn_put None _ _ _ = _ |- _ =>
                 apply (txn_put_extends o) in E
             | E : txn_prepare _ = _ |- _ => apply txn_prepare_extends in E
             | E : txn_commit _ = _ |- _ => apply (txn_commit_extends o) in E
             | E : txn_rollback _ = _ |- _ =>
                 apply (txn_rollback_extends o) in E
             | E : db_write _ _ = _ |- _ => apply (db_write_extends o) in E
             end
  end.

Ltac chain :=
  solve [ repeat first [ eassumption
                       | apply extends_refl
                       | eapply extends_trans; [eassumption|] ] ].

Section CallDiscipline.

Variable cfg : Config.

Lemma insert_loop_extends (use_txn is_optimistic : bool) (incr : N)
      (set_vec : list N) :
  forall (s : Status) (ue : bool) (batch : list WriteOp) (w : World)
         (s' : Status) (ue' : bool) (batch' : list WriteOp) (w' : World),
    insert_loop cfg use_txn is_optimistic incr set_vec s ue batch w
      = Ret (s', ue', batch') w' ->
    extends use_txn is_optimistic (db w) (db w').
Proof.
  induction set_vec as [|set_i rest IH]; intros s ue batch w s' ue' batch' w' H.
  - cbn [insert_loop] in H. run_cases H. close_run H. apply extends_refl.
  - cbn [insert_loop] in H. unfold DBGet in H.
    run_cases H;
      first [ close_run H | apply IH in H ];
      world_simpl; call_facts; chain.
Qed.

Lemma finish_extends (use_txn is_optimistic : bool) (s : Status) (ue : bool)
      (batch : list WriteOp) (w : World) (s' : Status) (ue' : bool)
      (w' : World) :
  finish cfg use_txn is_optimistic s ue batch w = Ret (s', ue') w' ->
  extends use_txn is_optimistic (db w) (db w').
Proof.
  intros H. unfold finish in H.
  run_cases H; close_run H; world_simpl; call_facts; chain.
Qed.

End CallDiscipline.

(** X20.  The calls a run of [DoInsert] adds to the store are of the
    kinds its backend has: without a transaction only plain [Get]s and
    the [Write] of the batch; with a transaction [Get], [GetForUpdate],
    [Put], [Commit] and [Rollback], and [Prepare] only when the
    transaction is not optimistic.  It never deletes, never sets a
    timestamp and never uses a column family. *)
Theorem DoInsert_uses_only_its_capabilities
        (cfg : Config) (use_txn is_optimistic : bool) (w : World) (b : bool)
        (w' : World) :
  DoInsert cfg use_txn is_optimistic w = Ret b w' ->
  exists new,
    calls (db w') = new ++ calls (db w) /\
    Forall (fun c => allowed use_txn is_optimistic (fst c) = true) new.
Proof.
  intros H. apply DoInsert_returns in H.
  destruct H as (s & ue & batch & w1 & s' & ue' & w2 & H1 & H2 & -> & ->).
  unfold insert_phase in H1.
  apply bind_Ret in H1. destruct H1 as (r & wa & Ha & H1).
  apply bind_Ret in H1. destruct H1 as (sv & wb & Hb & H1).
  apply Next_draws, draws_only_frame in Ha.
  apply std_shuffle_draws, draws_only_frame in Hb.
  destruct Ha as (_ & _ & Da & _), Hb as (_ & _ & Db & _).
  apply insert_loop_extends in H1. apply finish_extends in H2.
  rewrite Db, Da in H1. world_simpl.
  exact (extends_trans _ _ _ _ _ H1 H2).
Qed.

Lemma DoInsert_uses_only_its_capabilities_witness :
  exists w' new,
    DoInsert (config false 2) true true rolls_back = Ret true w' /\
    calls (db w') = new ++ calls (db rolls_back) /\
    Forall (fun c => allowed true true (fst c) = true) new /\
    ~ In OpPrepare (map fst new).
Proof.
  assert (D : {w' | DoInsert (config false 2) true true rolls_back
                    = Ret true w'}).
  { eexists. vm_compute. reflexivity. }
  destruct D as [w' E].
  destruct (DoInsert_uses_only_its_capabilities
              (config false 2) true true rolls_back true w' E)
    as (new & C & F).
  exists w', new. split; [exact E|]. split; [exact C|]. split; [exact F|].
  intros Hin. apply in_map_iff in Hin. destruct Hin as ([op st] & Hop & Hin).
  cbn [fst] in Hop. subst op.
  rewrite Forall_forall in F. specialize (F _ Hin). discriminate F.
Defined.

(* ===================================================================== *)
(** * Further properties: a read that fails, [TOTransaction] overload *)
(* ===================================================================== *)

Section FailedReadTO.

Variable cfg : Config.

Lemma insert_loop_TO_read_fails (use_txn : bool) (incr : N)
      (set_i : N) (rest : list N) (s0 : Status) (ue : bool)
      (w : World) (s : Status) (q : list Status) :
  0 < num_keys_ cfg ->
  ndebug cfg = true \/ set_i < 9999 ->
  f_get (faults (db w)) = s :: q -> is_failure s = true ->
  exists w',
    insert_loop_TO cfg use_txn incr (set_i :: rest) s0 ue w
    = Ret (s, negb (IsBusy s || IsTimedOut s || IsTryAgain s) || ue) w' /\
    stable (db w) (db w') /\ pending (db w') = pending (db w) /\
    stats w' = stats w.
Proof.
  intros Hkeys Hset Hq Hs. cbn [insert_loop_TO].
  rewrite (bind_eq _ _ _ _ _ (Next_eq w)).
  assert (Hu : forall a w0, umod a (num_keys_ cfg) w0
                            = Ret (a mod num_keys_ cfg) w0).
  { intros a w0. unfold umod.
    destruct (N.eqb_spec (num_keys_ cfg) 0); [lia|reflexivity]. }
  rewrite (bind_eq _ _ _ _ _ (Hu _ _)).
  set (w1 := set_rand (snd (pop (rand_ w))) w).
  change (bind get_world ?k w1) with (k w1 w1). cbv beta.
  unfold DBGet_TO.
  destruct (DBGet_fails cfg use_txn (read_snapshot w1) set_i
              (fst (pop (rand_ w)) mod num_keys_ cfg) false 0 ue w1 s q Hset
              Hq Hs) as (d' & E & St & Pd).
  rewrite (bind_eq _ _ _ _ _ E). cbv beta iota.
  destruct (is_failure_not_ok s Hs) as (Hok & _). rewrite Hok. cbn [negb].
  destruct (negb (IsBusy s || IsTimedOut s || IsTryAgain s)).
  - unfold bind, fprintf, modify, ret. eexists. split; [reflexivity|].
    subst w1. world_simpl. unfold stable in *. intuition congruence.
  - unfold ret. eexists. split; [reflexivity|].
    subst w1. world_simpl. unfold stable in *. intuition congruence.
Qed.

(** The end of the [TOTransaction] overload after a failed loop, lines
    467-470: the status is handed on as it is. *)
Lemma finish_TO_failed (use_txn : bool) (s : Status) (w : World) :
  ok s = false ->
  match finish_TO cfg use_txn s w with
  | Ret s' w' => s' = s
  | Stop f => f = AssertionFailed /\ ndebug cfg = false /\ use_txn = true
  end.
Proof.
  intros Hok.
  destruct (finish_TO cfg use_txn s w) as [s' w'|f] eqn:H;
    unfold finish_TO in H; rewrite Hok in H; destruct use_txn.
  - run_cases H; close_run H; reflexivity.
  - run_cases H; close_run H; reflexivity.
  - run_cases H; close_run H; auto.
  - run_cases H; close_run H; auto.
Qed.

End FailedReadTO.

Module Scenario11.

Definition try_again : Status := Status.mk Status.kTryAgain "".

(** The first read of the run answers [TryAgain]. *)
Definition first_get_try_again : World :=
  world [4; 3; 1; 6; 1; 1; 1] [0]
        (store [] (mkFaults [try_again] [] [] [] [] [] [] [])).

(** The first read of the run answers [Corruption]. *)
Definition first_get_corrupt : World :=
  world [4; 3; 1; 6; 1; 1; 1] [0]
        (store [] (mkFaults [Status.Corruption] [] [] [] [] [] [] [])).

End Scenario11.

Import Scenario11.

(** X21.  The [TOTransaction] overload of [DoInsert] when the first read
    of the run fails with a status [s] that is not NotFound: the loop is
    left at once, [last_status_] is [s], the failure counter moves,
    nothing is written, and the run returns [true] exactly when [s] is
    Busy, TimedOut or TryAgain.  The only other way out is the assertion
    on the rollback, with a transaction and in a build with
    assertions. *)
Theorem failed_read_is_classified_TO
        (cfg : Config) (use_txn : bool) (w : World)
        (s : Status) (q : list Status) :
  0 < num_sets_ cfg -> 0 < num_keys_ cfg ->
  ndebug cfg = true \/ num_sets_ cfg <= 9999 ->
  f_get (faults (db w)) = s :: q -> is_failure s = true ->
  match DoInsert_TO cfg use_txn w with
  | Ret b w' =>
      b = (IsBusy s || IsTimedOut s || IsTryAgain s) /\
      last_status_ w' = s /\ counted false w w' /\
      stable (db w) (db w')
  | Stop f => f = AssertionFailed /\ ndebug cfg = false /\ use_txn = true
  end.
Proof.
  intros Hsets Hkeys Hbound Hq Hs.
  destruct (is_failure_not_ok s Hs) as (Hok & _).
  assert (Hphase : exists w1,
             insert_phase_TO cfg use_txn w
             = Ret (s, negb (IsBusy s || IsTimedOut s || IsTryAgain s)) w1 /\
             stable (db w) (db w1) /\ stats w1 = stats w).
  { unfold insert_phase_TO. rewrite (bind_eq _ _ _ _ _ (Next_eq w)).
    destruct (random_shuffle_iota (num_sets_ cfg)
                (set_rand (snd (pop (rand_ w))) w)) as (sv & w2 & E & D & P).
    rewrite (bind_eq _ _ _ _ _ E).
    destruct (perm_iota_facts _ _ P) as (_ & L & Hin).
    destruct sv as [|set_i rest]; [cbn in L; lia|].
    apply draws_only_frame in D. destruct D as (D1 & _ & D2 & _).
    destruct (insert_loop_TO_read_fails cfg use_txn
                (add64 (fst (pop (rand_ w)) mod 100) 1) set_i rest
                Status.OK false w2 s q Hkeys)
      as (w1 & E1 & St & _ & S1).
    - destruct Hbound as [Hb|Hb]; [now left|right].
      assert (set_i < num_sets_ cfg) by (apply Hin; now left). lia.
    - rewrite D2. exact Hq.
    - exact Hs.
    - exists w1. rewrite E1, orb_false_r. split; [reflexivity|].
      rewrite D2 in St. split; [exact St|]. now rewrite S1, D1. }
  destruct Hphase as (w1 & E1 & St1 & S1).
  unfold DoInsert_TO. rewrite (bind_eq _ _ _ _ _ E1). cbv beta iota.
  pose proof (finish_TO_failed cfg use_txn s w1 Hok) as R.
  destruct (finish_TO cfg use_txn s w1) as [s' w2|f] eqn:F.
  - subst s'. rewrite (bind_eq _ _ _ _ _ F). cbv beta iota.
    rewrite (bind_eq _ _ _ _ _ (tally_returns s w2)). unfold ret.
    pose proof (finish_TO_returns cfg _ _ _ _ _ F) as (S2 & _).
    apply finish_TO_effect in F.
    destruct F as (_ & _ & _ & _ & [St2|(C & _)]); [|congruence].
    rewrite Hok, negb_involutive. unfold counted. world_simpl.
    rewrite S2, S1.
    repeat split; unfold stable in *; intuition congruence.
  - rewrite (bind_stop _ _ _ _ F). exact R.
Qed.

Lemma failed_read_is_classified_TO_witness :
  (exists w',
     DoInsert_TO (config false 2) true first_get_try_again = Ret true w' /\
     counts w' = (0, 1)) /\
  (exists w',
     DoInsert_TO (config false 2) true first_get_corrupt = Ret false w' /\
     counts w' = (0, 1)).
Proof.
  assert (H1 : 0 < num_sets_ (config false 2)) by reflexivity.
  assert (H2 : 0 < num_keys_ (config false 2)) by reflexivity.
  assert (H3 : ndebug (config false 2) = true \/
               num_sets_ (config false 2) <= 9999) by (right; discriminate).
  assert (H4 : f_get (faults (db first_get_try_again)) = [try_again])
    by reflexivity.
  assert (H5 : is_failure try_again = true) by reflexivity.
  assert (H6 : f_get (faults (db first_get_corrupt)) = [Status.Corruption])
    by reflexivity.
  assert (H7 : is_failure Status.Corruption = true) by reflexivity.
  split.
  - assert (D : {w' | DoInsert_TO (config false 2) true first_get_try_again
                      = Ret true w'}).
    { eexists. vm_compute. reflexivity. }
    destruct D as [w' E]. exists w'. split; [exact E|].
    pose proof (failed_read_is_classified_TO
                  (config false 2) true first_get_try_again try_again []
                  H1 H2 H3 H4 H5) as R.
    rewrite E in R. destruct R as (_ & _ & (A & B) & _).
    unfold counts. rewrite A, B. reflexivity.
  - assert (D : {w' | DoInsert_TO (config false 2) true first_get_corrupt
                      = Ret false w'}).
    { eexists. vm_compute. reflexivity. }
    destruct D as [w' E]. exists w'. split; [exact E|].
    pose proof (failed_read_is_classified_TO
                  (config false 2) true first_get_corrupt Status.Corruption []
                  H1 H2 H3 H6 H7) as R.
    rewrite E in R. destruct R as (_ & _ & (A & B) & _).
    unfold counts. rewrite A, B. reflexivity.
Defined.

(* ===================================================================== *)
(** * Further properties: what a turn of [DoWriteRandom] counts *)
(* ===================================================================== *)

(** What lines 289-342 add to the counters and to the two byte totals of
    the transaction, by the call the turn made and its answer. *)
Definition turn_accounting (value_size : N) (op : Op) (st : Status)
           (t t' : Turn) (s s' : Stats) : Prop :=
  match op with
  | OpGet _ _ key =>
      gets_done_ s' = gets_done_ s + 1 /\
      puts_done_ s' = puts_done_ s /\ deletes_done_ s' = deletes_done_ s /\
      found_ s' = (if ok st then found_ s + 1 else found_ s) /\
      t_inserted t' = t_inserted t /\
      t_read t' = (if ok st
                   then add64 (t_read t) (strlen key + value_size)
                   else t_read t)
  | OpDelete _ key =>
      deletes_done_ s' = deletes_done_ s + 1 /\
      gets_done_ s' = gets_done_ s /\ puts_done_ s' = puts_done_ s /\
      found_ s' = found_ s /\
      t_inserted t' = add64 (t_inserted t) (strlen key + value_size) /\
      t_read t' = t_read t
  | OpPut _ key _ =>
      puts_done_ s' = puts_done_ s + 1 /\
      gets_done_ s' = gets_done_ s /\ deletes_done_ s' = deletes_done_ s /\
      found_ s' = found_ s /\
      t_inserted t' = add64 (t_inserted t) (strlen key + value_size) /\
      t_read t' = t_read t
  | _ => False
  end.

(** X22.  One turn of the loop of [DoWriteRandom] that returns counts the
    one call it made: a [Get] in [gets_done_], and in [found_] when it
    answered OK; a [Delete] in [deletes_done_]; a [Put] in [puts_done_].
    The bytes read grow by key and [value_size_] for a [Get] answered OK;
    the bytes inserted grow by key and [value_size_] for a [Put] and also
    for a [Delete], whatever the store answered.  The transaction
    counters and the byte totals of the object are not touched by a
    turn. *)
Theorem write_turn_counts_its_call
        (cfg : Config) (num_handles : nat) (set_i : N) (t : Turn) (w : World)
        (leave : bool) (t' : Turn) (w' : World) :
  write_turn cfg num_handles set_i t w = Ret (leave, t') w' ->
  exists op st,
    calls (db w') = (op, st) :: calls (db w) /\
    turn_accounting (value_size_ cfg) op st t t' (stats w) (stats w') /\
    success_count_ (stats w') = success_count_ (stats w) /\
    failure_count_ (stats w') = failure_count_ (stats w) /\
    bytes_inserted_ (stats w') = bytes_inserted_ (stats w) /\
    bytes_read_ (stats w') = bytes_read_ (stats w).
Proof.
  intros H. unfold write_turn in H.
  rewrite (bind_eq _ _ _ _ _ (Next_eq w)) in H.
  rewrite (bind_eq _ _ _ _ _ (Next_eq _)) in H.
  cbn [rand_ set_rand] in H.
  unfold umod in H at 1.
  destruct (N.eqb_spec (num_keys_ cfg) 0) as [E|E];
    [discriminate H|].
  unfold ret in H at 1. unfold bind in H at 1.
  unfold end_of_turn, Generate in H.
  run_cases H; close_run H; world_simpl;
    repeat match goal with
           | E : txn_get _ _ _ _ _ = _ |- _ => apply txn_get_calls in E
           | E : txn_put _ _ _ _ = _ |- _ => apply txn_put_calls in E
           | E : txn_delete _ _ _ = _ |- _ => apply txn_delete_calls in E
           end;
    world_simpl;
    do 2 eexists; (split; [eassumption|]).
  all: unfold turn_accounting;
    try match goal with
        | |- context [ok ?s] =>
            let K := fresh "K" in
            destruct (ok s) eqn:K;
            repeat match goal with
                   | H : context [ok s] |- _ => rewrite K in H
                   end;
            cbn [negb andb] in *; try discriminate
        end;
    repeat split; reflexivity.
Qed.

Module Scenario12.

(** A hundred keys, one set, every turn a [Delete]; values of ten
    bytes. *)
Definition deleting : Config := mkConfig false 100 1 0 100 1 10.

(** Draws 50 (the operation) and 37 (the key). *)
Definition one_delete : World := world [50; 37] [] (store [] no_faults).

End Scenario12.

Import Scenario12.

Lemma write_turn_counts_its_call_witness :
  exists t' w',
    write_turn deleting 0 0 (mkTurn Status.OK 0 0 some_generator) one_delete
    = Ret (false, t') w' /\
    calls (db w') = [(OpDelete None "00013", Status.OK)] /\
    deletes_done_ (stats w') = 1 /\ t_inserted t' = 15.
Proof.
  assert (D : {x : Turn * World |
                write_turn deleting 0 0 (mkTurn Status.OK 0 0 some_generator)
                           one_delete = Ret (false, fst x) (snd x)}).
  { eexists (_, _). vm_compute. reflexivity. }
  destruct D as [[t' w'] E]. cbn [fst snd] in E. exists t', w'.
  split; [exact E|].
  destruct (write_turn_counts_its_call deleting 0 0 _ one_delete false t' w' E)
    as (op & st & C & A & _).
  assert (C' : calls (db w') = [(OpDelete None "00013", Status.OK)]).
  { vm_compute in E. injection E as <- <-. reflexivity. }
  split; [exact C'|].
  rewrite C' in C. injection C as <- <-.
  destruct A as (A1 & _ & _ & _ & A2 & _).
  rewrite A1, A2. split; reflexivity.
Defined.

(* ===================================================================== *)
(** * The calls of a transaction, one by one *)
(* ===================================================================== *)

(** A call on a key of set [set_i]: the key starts with the prefix of the
    set. *)
Definition touches (set_i : N) (c : Op * Status) : Prop :=
  exists cf tail,
    let key := (prefix_buf set_i ++ tail)%string in
    fst c = OpGet false cf key \/ fst c = OpDelete cf key \/
    exists v, fst c = OpPut cf key v.

(** A call that was not answered by a failure. *)
Definition fine (c : Op * Status) : Prop := is_failure (snd c) = false.

Section StoreAnswers.

(** [Put] and [Delete] answer OK or with a failure. *)
Lemma txn_put_answer (cf : option nat) (k v : string) (d : DB) (s : Status)
      (d' : DB) :
  txn_put cf k v d = (s, d') ->
  calls d' = (OpPut cf k v, s) :: calls d /\
  (ok s = true /\ is_failure s = false \/ ok s = false /\ is_failure s = true).
Proof.
  unfold txn_put. destruct (f_put (faults d)) as [|x q]; cbn [next_fault].
  - intros [= <- <-]. split; [reflexivity|]. left. split; reflexivity.
  - destruct (is_failure x) eqn:E.
    + intros [= <- <-]. split; [reflexivity|]. right. split; [|exact E].
      unfold is_failure in E. destruct (ok x); [discriminate|reflexivity].
    + intros [= <- <-]. split; [reflexivity|]. left. split; reflexivity.
Qed.

Lemma txn_delete_answer (cf : option nat) (k : string) (d : DB) (s : Status)
      (d' : DB) :
  txn_delete cf k d = (s, d') ->
  calls d' = (OpDelete cf k, s) :: calls d /\
  (ok s = true /\ is_failure s = false \/ ok s = false /\ is_failure s = true).
Proof.
  unfold txn_delete. destruct (f_delete (faults d)) as [|x q];
    cbn [next_fault].
  - intros [= <- <-]. split; [reflexivity|]. left. split; reflexivity.
  - destruct (is_failure x) eqn:E.
    + intros [= <- <-]. split; [reflexivity|]. right. split; [|exact E].
      unfold is_failure in E. destruct (ok x); [discriminate|reflexivity].
    + intros [= <- <-]. split; [reflexivity|]. left. split; reflexivity.
Qed.

End StoreAnswers.

Section WriteRandomCalls.

Variable cfg : Config.

(** One turn of the loop of [DoWriteRandom]: its call, and what the
    answer does to the status and to the loop. *)
Lemma write_turn_outcome (h : nat) (set_i : N) (t : Turn) (w : World)
      (leave : bool) (t' : Turn) (w' : World) :
  write_turn cfg h set_i t w = Ret (leave, t') w' ->
  exists c,
    calls (db w') = c :: calls (db w) /\ touches set_i c /\
    (ok (t_status t') = true <-> fine c) /\
    (leave = true <->
     15000000 < t_inserted t' \/ ok (t_status t') = false).
Proof.
  intros H. unfold write_turn, end_of_turn, Generate in H.
  run_cases H; close_run H; world_simpl;
    repeat match goal with
           | E : txn_get _ _ _ _ _ = _ |- _ => apply txn_get_calls in E
           | E : txn_put _ _ _ _ = _ |- _ =>
               apply txn_put_answer in E; destruct E as (E & ?)
           | E : txn_delete _ _ _ = _ |- _ =>
               apply txn_delete_answer in E; destruct E as (E & ?)
           end;
    world_simpl;
    eexists; (split; [eassumption|]).
  all: cbn [t_status t_inserted fst snd] in *;
    (split; [do 2 eexists; cbn [fst]; eauto|]);
    unfold fine, is_failure in *; cbn [fst snd] in *;
    change (ok Status.OK) with true in *;
    repeat match goal with
           | E : (_ <? _) = true |- _ => apply N.ltb_lt in E
           | E : (_ <? _) = false |- _ => apply N.ltb_ge in E
           end;
    repeat match goal with
           | |- context [ok ?s] =>
               is_var s; destruct (ok s), (IsNotFound s)
           end;
    cbn [negb andb] in *;
    intuition (try discriminate; try lia; auto).
Qed.

Lemma write_loop_calls (h : nat) (set_vec : list N) :
  forall (t : Turn) (w : World) (t' : Turn) (w' : World),
    write_loop cfg h set_vec t w = Ret t' w' ->
    exists visited later new,
      set_vec = visited ++ later /\
      calls (db w') = new ++ calls (db w) /\
      Forall2 touches visited (List.rev new) /\
      (set_vec <> [] -> visited <> []) /\
      (ok (t_status t') = true -> ok (t_status t) = true -> Forall fine new) /\
      (Forall fine new -> ok (t_status t) = true -> ok (t_status t') = true) /\
      (later <> [] ->
       15000000 < t_inserted t' \/ ok (t_status t') = false).
Proof.
  induction set_vec as [|set_i rest IH]; intros t w t' w' H.
  - cbn [write_loop] in H. unfold ret in H. injection H as <- <-.
    exists [], [], []. repeat split; auto; try constructor; congruence.
  - cbn [write_loop] in H. apply bind_Ret in H.
    destruct H as ([leave t1] & w1 & H1 & H).
    apply write_turn_outcome in H1.
    destruct H1 as (c & C1 & T1 & F1 & L1).
    destruct leave.
    + unfold ret in H. injection H as <- <-.
      exists [set_i], rest, [c].
      split; [reflexivity|]. split; [exact C1|].
      split; [repeat constructor; exact T1|].
      split; [discriminate|].
      split; [intros Hok _; constructor; [now apply F1|constructor]|].
      split; [intros Hf _; apply F1; now inversion Hf|].
      intros _. now apply L1.
    + assert (Hok1 : ok (t_status t1) = true).
      { destruct (ok (t_status t1)); [reflexivity|].
        assert (false = true) by (apply L1; now right). discriminate. }
      apply IH in H.
      destruct H as (visited & later & new & E & C & T & _ & G1 & G2 & L).
      exists (set_i :: visited), later, (new ++ [c]).
      split; [cbn; now rewrite E|].
      split; [rewrite C, C1, <- app_assoc; reflexivity|].
      split; [rewrite rev_app_distr; cbn; now constructor|].
      split; [discriminate|].
      split; [|split; [|exact L]].
      * intros Hok _. apply Forall_app. split; [now apply G1|].
        constructor; [now apply F1|constructor].
      * intros Hf _. apply Forall_app in Hf. destruct Hf as (Hf & _).
        now apply G2.
Qed.

End WriteRandomCalls.

(** What the loop of [DoInsert] was left on, when its status is a
    failure: the answer of its last call, a [Get] or a [Put], or the
    Corruption that [DBGet] makes of a value it read. *)
Definition left_on (s : Status) (c : Op * Status) : Prop :=
  match fst c with
  | OpGet _ _ _ => snd c = s \/ (ok (snd c) = true /\ s = Status.Corruption)
  | OpPut _ _ _ => snd c = s
  | _ => False
  end.

Section LeftOn.

Variable cfg : Config.

Lemma db_get_calls (sn : option Snapshot) (cf : option nat) (k : string)
      (d : DB) (r : Status * string) (d' : DB) :
  db_get sn cf k d = (r, d') ->
  calls d' = (OpGet false cf k, fst r) :: calls d.
Proof.
  unfold db_get. destruct (next_fault _) as [flt q].
  intros [= <- <-]. reflexivity.
Qed.

Lemma insert_loop_left_on (use_txn is_optimistic : bool) (incr : N)
      (set_vec : list N) :
  forall (s : Status) (ue : bool) (batch : list WriteOp) (w : World)
         (s' : Status) (ue' : bool) (batch' : list WriteOp) (w' : World),
    insert_loop cfg use_txn is_optimistic incr set_vec s ue batch w
      = Ret (s', ue', batch') w' ->
    ok s' = false ->
    (s' = s /\ calls (db w') = calls (db w)) \/
    exists c rest, calls (db w') = c :: rest /\ left_on s' c.
Proof.
  induction set_vec as [|set_i rest IH];
    intros s ue batch w s' ue' batch' w' H Hs'.
  - cbn [insert_loop] in H. unfold ret in H. injection H as <- _ _ <-.
    left. split; reflexivity.
  - right. cbn [insert_loop] in H. unfold DBGet in H.
    run_cases H;
      first [ close_run H
            | apply IH in H; [|exact Hs'] ];
      repeat match goal with
             | E : txn_get _ _ _ _ _ = _ |- _ => apply txn_get_calls in E
             | E : db_get _ _ _ _ = _ |- _ => apply db_get_calls in E
             | E : txn_put _ _ _ _ = _ |- _ => apply txn_put_calls in E
             end;
      world_simpl; cbn [fst snd] in *.
    all: try match goal with
             | H : _ \/ _ |- _ =>
                 destruct H as [(-> & C)|(c & r & C & L)];
                 [try rewrite C|exists c, r; split; assumption]
             end.
    all: try solve [exfalso; cbn in *; congruence].
    all: do 2 eexists; (split; [eassumption|]);
      unfold left_on; cbn [fst snd]; auto.
Qed.

Lemma insert_loop_TO_left_on (use_txn : bool) (incr : N) (set_vec : list N) :
  forall (s : Status) (ue : bool) (w : World)
         (s' : Status) (ue' : bool) (w' : World),
    insert_loop_TO cfg use_txn incr set_vec s ue w = Ret (s', ue') w' ->
    ok s' = false ->
    (s' = s /\ calls (db w') = calls (db w)) \/
    exists c rest, calls (db w') = c :: rest /\ left_on s' c.
Proof.
  induction set_vec as [|set_i rest IH]; intros s ue w s' ue' w' H Hs'.
  - cbn [insert_loop_TO] in H. unfold ret in H. injection H as <- _ <-.
    left. split; reflexivity.
  - right. cbn [insert_loop_TO] in H. unfold DBGet_TO, DBGet in H.
    run_cases H;
      first [ close_run H
            | apply IH in H; [|exact Hs'] ];
      repeat match goal with
             | E : txn_get _ _ _ _ _ = _ |- _ => apply txn_get_calls in E
             | E : db_get _ _ _ _ = _ |- _ => apply db_get_calls in E
             | E : txn_put _ _ _ _ = _ |- _ => apply txn_put_calls in E
             end;
      world_simpl; cbn [fst snd] in *.
    all: try match goal with
             | H : _ \/ _ |- _ =>
                 destruct H as [(-> & C)|(c & r & C & L)];
                 [try rewrite C|exists c, r; split; assumption]
             end.
    all: try solve [exfalso; cbn in *; congruence].
    all: do 2 eexists; (split; [eassumption|]);
      unfold left_on; cbn [fst snd]; auto.
Qed.

(** After a loop that failed, lines 585-589 and 466-470: nothing but
    the rollback, which only a build with assertions issues. *)
Lemma finish_failed (use_txn is_optimistic : bool) (s : Status) (ue : bool)
      (batch : list WriteOp) (w : World) (s' : Status) (ue' : bool)
      (w' : World) :
  finish cfg use_txn is_optimistic s ue batch w = Ret (s', ue') w' ->
  ok s = false ->
  s' = s /\
  (calls (db w') = calls (db w) \/
   exists r, calls (db w') = (OpRollback, r) :: calls (db w)).
Proof.
  intros H Hs. unfold finish in H. rewrite Hs in H.
  run_cases H; close_run H; world_simpl;
    repeat match goal with
           | E : txn_rollback _ = _ |- _ => apply txn_rollback_calls in E
           end;
    split; eauto.
Qed.

Lemma finish_TO_failed_calls (use_txn : bool) (s : Status) (w : World)
      (s' : Status) (w' : World) :
  finish_TO cfg use_txn s w = Ret s' w' ->
  ok s = false ->
  s' = s /\
  (calls (db w') = calls (db w) \/
   exists r, calls (db w') = (OpRollback, r) :: calls (db w)).
Proof.
  intros H Hs. unfold finish_TO in H. rewrite Hs in H.
  run_cases H; close_run H; world_simpl;
    repeat match goal with
           | E : txn_rollback _ = _ |- _ => apply txn_rollback_calls in E
           end;
    split; eauto.
Qed.

(** After a loop that succeeded, the [TOTransaction] overload ends with
    [Commit] or [Rollback], and without a transaction with nothing. *)
Lemma finish_TO_succeeded (use_txn : bool) (s : Status) (w : World)
      (s' : Status) (w' : World) :
  finish_TO cfg use_txn s w = Ret s' w' ->
  ok s = true ->
  if use_txn
  then exists op rest, calls (db w') = (op, s') :: rest /\
                       (op = OpCommit \/ op = OpRollback)
  else s' = s /\ calls (db w') = calls (db w).
Proof.
  intros H Hs. unfold finish_TO in H. rewrite Hs in H.
  destruct use_txn.
  - run_cases H; close_run H; world_simpl;
      repeat match goal with
             | E : txn_commit _ = _ |- _ => apply txn_commit_calls in E
             | E : txn_rollback _ = _ |- _ => apply txn_rollback_calls in E
             end;
      eauto.
  - unfold ret in H. injection H as <- <-. split; reflexivity.
Qed.

Lemma insert_phase_left_on (use_txn is_optimistic : bool) (w : World)
      (s : Status) (ue : bool) (batch : list WriteOp) (w1 : World) :
  insert_phase cfg use_txn is_optimistic w = Ret (s, ue, batch) w1 ->
  ok s = false ->
  exists c rest, calls (db w1) = c :: rest /\ left_on s c.
Proof.
  intros H Hs. unfold insert_phase in H.
  apply bind_Ret in H. destruct H as (r & wa & _ & H).
  apply bind_Ret in H. destruct H as (sv & wb & _ & H).
  apply insert_loop_left_on in H; [|exact Hs].
  destruct H as [(-> & _)|H]; [discriminate Hs|exact H].
Qed.

Lemma insert_phase_TO_left_on (use_txn : bool) (w : World)
      (s : Status) (ue : bool) (w1 : World) :
  insert_phase_TO cfg use_txn w = Ret (s, ue) w1 ->
  ok s = false ->
  exists c rest, calls (db w1) = c :: rest /\ left_on s c.
Proof.
  intros H Hs. unfold insert_phase_TO in H.
  apply bind_Ret in H. destruct H as (r & wa & _ & H).
  apply bind_Ret in H. destruct H as (sv & wb & _ & H).
  apply insert_loop_TO_left_on in H; [|exact Hs].
  destruct H as [(-> & _)|H]; [discriminate Hs|exact H].
Qed.

(** The end of [DoWriteRandom], call by call. *)
Lemma write_finish_calls (t : Turn) (w : World) (b : bool) (w' : World) :
  write_finish cfg t w = Ret b w' ->
  (b = true ->
   ok (t_status t) = true /\ ok (last_status_ w') = true /\
   calls (db w') = (OpCommit, last_status_ w') :: calls (db w)) /\
  (b = false ->
   exists rest, calls (db w') = (OpRollback, last_status_ w') :: rest).
Proof.
  intros H. unfold write_finish in H.
  run_cases H; close_run H; world_simpl;
    repeat match goal with
           | E : txn_commit _ = _ |- _ => apply txn_commit_calls in E
           | E : txn_rollback _ = _ |- _ => apply txn_rollback_calls in E
           end;
    split; intros Hb; try discriminate Hb; eauto.
Qed.

End LeftOn.

(** C8, amended.  An invocation of [DoInsert], of either overload, or of
    the code of [DoWriteRandom] that follows the generator, that returns
    has moved exactly one of the two counters, by one: the success
    counter when the last status is OK (for [DoWriteRandom], when it
    returns [true]), the failure counter otherwise.  The last status is
    read off the calls of the run.  When the loop of [DoInsert] ended
    with status OK it is the answer of the last call, [Commit],
    [Rollback] or [Write] (nothing is called at the end without a
    [TOTransaction]): a deliberate rollback that succeeds is a success
    and a commit that fails is a failure.  When the loop was left on a
    failed status, that status is the last status and a failure is
    counted; it is the answer of the last [Get] or [Put] (or the
    Corruption that [DBGet] makes of a value read), which is the last
    call but for the rollback of a build with assertions.
    [DoWriteRandom] returns [true] only after a [Commit] that answered
    OK, the last status, every call of the loop having been answered
    without a failure; otherwise its last call is [Rollback], whose
    answer is the last status. *)
Theorem one_counter_moves_by_one (cfg : Config) :
  (forall use_txn is_optimistic w b w',
      DoInsert cfg use_txn is_optimistic w = Ret b w' ->
      counted (ok (last_status_ w')) w w' /\
      exists s ue batch w1,
        insert_phase cfg use_txn is_optimistic w = Ret (s, ue, batch) w1 /\
        (ok s = true ->
         exists op rest,
           calls (db w') = (op, last_status_ w') :: rest /\
           (op = OpCommit \/ op = OpRollback \/ op = OpWrite batch)) /\
        (ok s = false ->
         last_status_ w' = s /\ counted false w w' /\
         exists c rest,
           (calls (db w') = c :: rest \/
            exists r, calls (db w') = (OpRollback, r) :: c :: rest) /\
           left_on s c)) /\
  (forall use_txn w b w',
      DoInsert_TO cfg use_txn w = Ret b w' ->
      counted (ok (last_status_ w')) w w' /\
      exists s ue w1,
        insert_phase_TO cfg use_txn w = Ret (s, ue) w1 /\
        (ok s = true ->
         if use_txn
         then exists op rest,
                calls (db w') = (op, last_status_ w') :: rest /\
                (op = OpCommit \/ op = OpRollback)
         else last_status_ w' = s /\ calls (db w') = calls (db w1)) /\
        (ok s = false ->
         last_status_ w' = s /\ counted false w w' /\
         exists c rest,
           (calls (db w') = c :: rest \/
            exists r, calls (db w') = (OpRollback, r) :: c :: rest) /\
           left_on s c)) /\
  (forall h gen w b w',
      DoWriteRandom_body cfg h gen w = Ret b w' ->
      counted b w w' /\
      (b = true ->
       ok (last_status_ w') = true /\
       exists new,
         calls (db w') = (OpCommit, last_status_ w') :: new ++ calls (db w) /\
         Forall fine new) /\
      (b = false ->
       exists rest, calls (db w') = (OpRollback, last_status_ w') :: rest)) /\
  (forall is_optimistic s ue batch w s' ue' w',
      ok s = true ->
      finish cfg true is_optimistic s ue batch w = Ret (s', ue') w' ->
      exists op rest, calls (db w') = (op, s') :: rest /\
                      (op = OpCommit \/ op = OpRollback)).
Proof.
  split; [|split; [|split]].
  - intros use_txn is_optimistic w b w' H.
    split; [exact (DoInsert_counted cfg _ _ _ _ _ H)|].
    pose proof (DoInsert_counted cfg _ _ _ _ _ H) as Hc.
    apply DoInsert_returns in H.
    destruct H as (s & ue & batch & w1 & s' & ue' & w2 & H1 & H2 & -> & ->).
    exists s, ue, batch, w1. split; [exact H1|].
    cbn [last_status_ set_last_status db set_stats] in *. split.
    + intros Hs. apply finish_returns in H2. rewrite Hs in H2.
      destruct H2 as (_ & H2). destruct use_txn.
      * destruct H2 as ((op & rest & C & Hop) & _).
        exists op, rest. split; [exact C|]. tauto.
      * destruct H2 as ((rest & C) & _).
        exists (OpWrite batch), rest. split; [exact C|]. auto.
    + intros Hs.
      destruct (finish_failed cfg _ _ _ _ _ _ _ _ _ H2 Hs) as (-> & C2).
      rewrite Hs in Hc |- *. split; [reflexivity|]. split; [exact Hc|].
      destruct (insert_phase_left_on cfg _ _ _ _ _ _ _ H1 Hs)
        as (c & rest & C1 & L).
      exists c, rest. split; [|exact L].
      destruct C2 as [C2|(r & C2)]; rewrite C2, C1; eauto.
  - intros use_txn w b w' H.
    split; [exact (DoInsert_TO_counted cfg _ _ _ _ H)|].
    pose proof (DoInsert_TO_counted cfg _ _ _ _ H) as Hc.
    apply DoInsert_TO_returns in H.
    destruct H as (s & ue & w1 & s' & w2 & H1 & H2 & -> & ->).
    exists s, ue, w1. split; [exact H1|].
    cbn [last_status_ set_last_status db set_stats] in *. split.
    + intros Hs. exact (finish_TO_succeeded cfg _ _ _ _ _ H2 Hs).
    + intros Hs.
      destruct (finish_TO_failed_calls cfg _ _ _ _ _ H2 Hs) as (-> & C2).
      rewrite Hs in Hc |- *. split; [reflexivity|]. split; [exact Hc|].
      destruct (insert_phase_TO_left_on cfg _ _ _ _ _ H1 Hs)
        as (c & rest & C1 & L).
      exists c, rest. split; [|exact L].
      destruct C2 as [C2|(r & C2)]; rewrite C2, C1; eauto.
  - intros h gen w b w' H.
    split.
    { pose proof (DoWriteRandom_body_returns cfg _ _ _ _ _ H) as R.
      unfold counted. destruct R as [(-> & A & B & _)|(-> & A & B & _)]; auto. }
    unfold DoWriteRandom_body in H.
    apply bind_Ret in H. destruct H as (sv & w0 & H0 & H).
    apply bind_Ret in H. destruct H as (t & w1 & H1 & H).
    apply choose_sets_draws, draws_only_frame in H0.
    destruct H0 as (_ & _ & D0 & _).
    apply write_loop_calls in H1.
    destruct H1 as (visited & later & new & _ & C & _ & _ & G & _).
    apply write_finish_calls in H. destruct H as (Ht & Hf).
    split; [|exact Hf].
    intros Hb. destruct (Ht Hb) as (Hok & Hl & Cl).
    split; [exact Hl|]. exists new. split.
    + rewrite Cl, C, D0. reflexivity.
    + apply G; [exact Hok|reflexivity].
  - intros is_optimistic s ue batch w s' ue' w' Hs H.
    apply finish_returns in H. rewrite Hs in H. tauto.
Qed.

Lemma one_counter_moves_by_one_witness :
  exists w',
    DoInsert (config false 2) true false rolls_back = Ret true w' /\
    counted true rolls_back w' /\
    exists rest, calls (db w') = (OpRollback, Status.OK) :: rest.
Proof.
  assert (H : {w' | DoInsert (config false 2) true false rolls_back
                    = Ret true w'}).
  { eexists. vm_compute. reflexivity. }
  destruct H as [w' H]. exists w'. split; [exact H|].
  destruct (proj1 (one_counter_moves_by_one (config false 2))
                  true false rolls_back true w' H) as (Hc & _).
  split.
  - vm_compute in H. injection H as <-. exact Hc.
  - vm_compute in H. injection H as <-. eexists. reflexivity.
Defined.


Module Scenario13.



End Scenario13.

Import Scenario13.




(* ===================================================================== *)
(** * [Verify] and a value that decodes to zero or to [ULONG_MAX] *)
(* ===================================================================== *)

Section PointLookups.

Variable cfg : Config.







End PointLookups.



(* ===================================================================== *)
(** * A committed transaction that leaves the sets unequal *)
(* ===================================================================== *)

(** [Verify], by range scan and without a snapshot, on the state a
    transaction left, if it returned. *)
Definition then_verify (cfg : Config) (num_sets : N) (o : Outcome bool)
  : Outcome Status :=
  match o with
  | Ret _ w => Verify cfg num_sets 0 false false w
  | Stop f => Stop f
  end.

(** C1.  The run [put_fails], from a key space where nothing is stored:
    the [Put] of one set answers with an I/O error, the loop goes on, and
    the transaction ends with a [Commit] that answers OK and is counted
    as a success.  The sets then add up to 5 and to 0, and [Verify]
    prints the two totals and returns Corruption, in both builds. *)
Theorem committed_run_leaves_sets_unequal :
  forall nd : bool,
    let o := DoInsert (config nd 2) true false put_fails in
    returned o = Some false /\
    option_map (fun w => hd_error (calls (db w))) (final o)
    = Some (Some (OpCommit, Status.OK)) /\
    option_map counts (final o) = Some (1, 0) /\
    option_map (fun w => (set_sum 0 (table (db w)),
                          set_sum 1 (table (db w)))) (final o)
    = Some (5, 0) /\
    returned (then_verify (config nd 2) 2 o) = Some Status.Corruption /\
    option_map (fun w => hd_error (console w))
               (final (then_verify (config nd 2) 2 o))
    = Some (Some (InconsistentTotals 1 0 0 5)).
Proof. intros []; vm_compute; repeat split. Qed.
